(** * Solana USDC payment API: reconciliation and notification engine

    A shallow embedding of [fastapi-solana-api.py] (the FastAPI service
    [main.py]): the payment lifecycle routes, the webhook notifier, the
    merchant admin route and the background payment listener.

    The store (MongoDB), the ledger (Solana RPC), the key-pair library, the
    clock, the random sources and the outbound HTTP client are external.  The
    store is modelled as two insertion-ordered collections; every other
    collaborator is an oracle of the environment, indexed by the number of
    external calls made so far ([tick]), so that one run of the service is a
    function of the environment and of the initial world.  What a library
    call may raise is part of the environment: no call of a library is
    assumed to succeed. *)

From Stdlib Require Import List String Ascii ZArith Bool Arith Lia.
From Stdlib Require Import Sorted Permutation.
From Stdlib Require Import Floats DecimalString DecimalNat.
Set Warnings "-inexact-float".
Import ListNotations.
Local Open Scope string_scope.

(** ** Data model *)

(** The values of a Python dict of the service: request metadata, the items
    of a response, the argument of [json=].  [JDate] is a [datetime] object
    and [JObjectId] an [ObjectId] of the store driver; neither is a JSON
    value. *)
#[warnings="-register-all"]
Inductive Json : Type :=
| JNull
| JBool (b : bool)
| JNum (x : float)
| JStr (s : string)
| JDate (t : Z)
| JObjectId (oid : string)
| JObj (items : list (string * Json)).

(** A document of [db.transactions], with the keys [create_payment] writes.
    [amount] is a Python float (binary64); a datetime is a number of
    microseconds since the epoch, the resolution of Python's [datetime]. *)
Record Transaction : Type := mkTransaction {
  tx_id : string;
  tx_merchant_id : string;
  tx_payment_id : string;
  tx_wallet_address : string;
  tx_wallet_private_key : string;
  tx_amount : float;
  tx_status : string;
  tx_tx_signature : option string;
  tx_created_at : Z;
  tx_confirmed_at : option Z;
  tx_metadata : option Json
}.

(** A document of [db.merchants], with the keys [create_merchant] writes. *)
Record Merchant : Type := mkMerchant {
  m_merchant_id : string;
  m_name : string;
  m_api_key : string;
  m_webhook_url : option string;
  m_default_wallet : string;
  m_default_wallet_private_key : string;
  m_created_at : Z
}.

(** [class PaymentRequest(BaseModel)] *)
Record PaymentRequest : Type := mkPaymentRequest {
  req_amount : float;
  req_payment_id : string;
  req_metadata : option Json
}.

(** [class Payment(BaseModel)] *)
Record Payment : Type := mkPayment {
  pay_id : string;
  pay_payment_id : string;
  pay_wallet_address : string;
  pay_amount : float;
  pay_status : string;
  pay_tx_signature : option string;
  pay_created_at : Z;
  pay_confirmed_at : option Z;
  pay_metadata : option Json
}.

(** [class PaymentResponse(BaseModel)] *)
Record PaymentResponse : Type := mkPaymentResponse {
  pr_success : bool;
  pr_payment : Payment
}.

(** [class PaymentListResponse(BaseModel)]; [pagination] is the dict
    [{"total", "limit", "offset"}]. *)
Record PaymentListResponse : Type := mkPaymentListResponse {
  plr_success : bool;
  plr_payments : list Payment;
  plr_total : nat;
  plr_limit : nat;
  plr_offset : nat
}.

(** [class WebhookPayload(BaseModel)] *)
Record WebhookPayload : Type := mkWebhookPayload {
  wp_event : string;
  wp_payment : Payment
}.

(** ** Exceptions and results *)

Inductive Exc : Type :=
| HTTPException (status_code : Z) (detail : string)
| Exception (msg : string).

(** [str(e)] *)
Definition exc_str (e : Exc) : string :=
  match e with
  | HTTPException _ d => d
  | Exception m => m
  end.

Inductive Result (A : Type) : Type :=
| Ok (a : A)
| Raise (e : Exc).
Arguments Ok {A} a.
Arguments Raise {A} e.

(** ** Environment and world *)

(** The external collaborators.  The first argument of an oracle is the
    [tick] at which it is called. *)
Record Env : Type := mkEnv {
  (** [datetime.utcnow()] *)
  utcnow : nat -> Z;
  (** [str(uuid.uuid4())] *)
  uuid4_str : nat -> string;
  (** [uuid.uuid4().hex] *)
  uuid4_hex : nat -> string;
  (** [Keypair()]: the address [str(pubkey())] and the base58 text of the
      secret key. *)
  keypair : nat -> string * string;
  (** Reading the attribute [secret_key] of a [Keypair]: the class of the
      installed library has it ([None]), or the read raises ([Some e], an
      [AttributeError]). *)
  secret_key_error : option Exc;
  (** Whether a round trip to MongoDB succeeds, or what it raises. *)
  db_call : nat -> Result unit;
  (** The [_id] the driver generates for the document of an [insert_one]. *)
  object_id : nat -> string;
  (** [PublicKey(s)] accepts [s]. *)
  valid_public_key : string -> bool;
  (** What [PublicKey(s)] raises for an [s] it does not accept. *)
  public_key_error : string -> Exc;
  (** [get_token_accounts_by_owner(owner, {"mint": USDC_MINT}).value]: the
      public keys of the owner's token accounts for the mint. *)
  get_token_accounts_by_owner : nat -> string -> string -> Result (list string);
  (** [get_token_account_balance(account).value.ui_amount] *)
  get_token_account_balance : nat -> string -> Result (option float);
  (** [httpx.AsyncClient().post(url, json=payload.dict(), ...)]: the status
      code of the response, or what the call raises (the encoding of the
      [json] argument is the client's). *)
  http_post : nat -> string -> Json -> Result Z;
  (** [os.getenv("ADMIN_API_KEY")] *)
  ADMIN_API_KEY : option string
}.

(** What the service does to the outside, in order of occurrence, most
    recent first.  [EvPost] is a call of [client.post] with its arguments,
    whatever becomes of it; [EvNotify] marks an invocation of the notifier
    and is the only event that is not an effect of its own. *)
Inductive Event : Type :=
| EvPrint (line : string)
| EvSleep (seconds : Z)
| EvNotify (transaction : option Transaction)
| EvPost (url : string) (json : Json).

Record World : Type := mkWorld {
  transactions : list Transaction;
  merchants : list Merchant;
  tick : nat;
  trace : list Event
}.

(** ** The monad of the service: reader of [Env], state [World], exceptions *)

Definition M (A : Type) : Type := Env -> World -> Result A * World.

Definition ret {A} (a : A) : M A := fun _ w => (Ok a, w).

Definition raise {A} (e : Exc) : M A := fun _ w => (Raise e, w).

Definition bind {A B} (m : M A) (k : A -> M B) : M B :=
  fun env w =>
    match m env w with
    | (Ok a, w') => k a env w'
    | (Raise e, w') => (Raise e, w')
    end.

(** [try: body / except Exception as e: handler(e)] *)
Definition try_except {A} (body : M A) (handler : Exc -> M A) : M A :=
  fun env w =>
    match body env w with
    | (Ok a, w') => (Ok a, w')
    | (Raise e, w') => handler e env w'
    end.

Declare Scope py_scope.
Delimit Scope py_scope with py.
Notation "x <- m ;; k" := (bind m (fun x => k))
  (at level 61, m at next level, right associativity) : py_scope.
Notation "m ;; k" := (bind m (fun _ => k))
  (at level 61, right associativity) : py_scope.
Local Open Scope py_scope.

(** One external call: read the current tick and advance it. *)
Definition next_tick : M nat :=
  fun _ w => (Ok (tick w),
              mkWorld (transactions w) (merchants w) (S (tick w)) (trace w)).

Definition emit (e : Event) : M unit :=
  fun _ w => (Ok tt,
              mkWorld (transactions w) (merchants w) (tick w) (e :: trace w)).

Definition print (line : string) : M unit := emit (EvPrint line).

Definition sleep (seconds : Z) : M unit := emit (EvSleep seconds).

Definition of_result {A} (r : Result A) : M A := fun _ w => (r, w).

Definition ask {A} (f : Env -> A) : M A := fun env w => (Ok (f env), w).

Definition get_transactions : M (list Transaction) :=
  fun _ w => (Ok (transactions w), w).

Definition get_merchants : M (list Merchant) :=
  fun _ w => (Ok (merchants w), w).

Definition put_transactions (l : list Transaction) : M unit :=
  fun _ w => (Ok tt, mkWorld l (merchants w) (tick w) (trace w)).

Definition put_merchants (l : list Merchant) : M unit :=
  fun _ w => (Ok tt, mkWorld (transactions w) l (tick w) (trace w)).

(** [for x in xs: body(x)] *)
Fixpoint for_each {A} (xs : list A) (body : A -> M unit) : M unit :=
  match xs with
  | [] => ret tt
  | x :: xs' => body x ;; for_each xs' body
  end.

(** A round trip to the store: it succeeds or raises before touching the
    collections. *)
Definition db_round_trip : M unit :=
  t <- next_tick ;;
  r <- ask (fun env => db_call env t) ;;
  of_result r.

Definition now_utc : M Z :=
  t <- next_tick ;; ask (fun env => utcnow env t).

(** The tick of the next external call. *)
Definition current_tick : M nat := fun _ w => (Ok (tick w), w).

(** ** The store *)

(** BSON keeps a datetime as milliseconds since the epoch: the microseconds
    below a millisecond are cut off when a document is written. *)
Definition bson_datetime (t : Z) : Z := (1000 * (t / 1000))%Z.

(** A document as the store keeps it. *)
Definition bson_transaction (doc : Transaction) : Transaction :=
  mkTransaction (tx_id doc) (tx_merchant_id doc) (tx_payment_id doc)
    (tx_wallet_address doc) (tx_wallet_private_key doc) (tx_amount doc)
    (tx_status doc) (tx_tx_signature doc) (bson_datetime (tx_created_at doc))
    (option_map bson_datetime (tx_confirmed_at doc)) (tx_metadata doc).

Definition bson_merchant (doc : Merchant) : Merchant :=
  mkMerchant (m_merchant_id doc) (m_name doc) (m_api_key doc)
    (m_webhook_url doc) (m_default_wallet doc)
    (m_default_wallet_private_key doc) (bson_datetime (m_created_at doc)).

(** [collection.find_one(query)]: the first document that matches. *)
Definition find_one {A} (coll : M (list A)) (query : A -> bool)
  : M (option A) :=
  db_round_trip ;;
  docs <- coll ;;
  ret (find query docs).

(** [collection.insert_one(doc)]: the driver adds the [_id] it generates to
    the dict [doc], and the document is stored.  The result is that [_id];
    no other key of the dict changes. *)
Definition insert_transaction (doc : Transaction) : M string :=
  t <- current_tick ;;
  db_round_trip ;;
  docs <- get_transactions ;;
  put_transactions (docs ++ [bson_transaction doc]) ;;
  ask (fun env => object_id env t).

Definition insert_merchant (doc : Merchant) : M string :=
  t <- current_tick ;;
  db_round_trip ;;
  docs <- get_merchants ;;
  put_merchants (docs ++ [bson_merchant doc]) ;;
  ask (fun env => object_id env t).

(** The first document that matches is replaced by its update. *)
Fixpoint update_first {A} (query : A -> bool) (upd : A -> A) (docs : list A)
  : list A :=
  match docs with
  | [] => []
  | d :: docs' =>
      if query d then upd d :: docs' else d :: update_first query upd docs'
  end.

(** [db.transactions.update_one(query, {"$set": ...})] *)
Definition update_one (query : Transaction -> bool)
  (upd : Transaction -> Transaction) : M unit :=
  db_round_trip ;;
  docs <- get_transactions ;;
  put_transactions (update_first query upd docs).

(** [{"$set": {"status": s, "confirmed_at": t}}], as the store applies it. *)
Definition set_status_confirmed_at (s : string) (t : Z) (d : Transaction)
  : Transaction :=
  mkTransaction (tx_id d) (tx_merchant_id d) (tx_payment_id d)
    (tx_wallet_address d) (tx_wallet_private_key d) (tx_amount d)
    s (tx_tx_signature d) (tx_created_at d) (Some (bson_datetime t))
    (tx_metadata d).

(** [cursor.to_list(length=n)]: the first [n] documents of the cursor. *)
Definition to_list {A} (length : nat) (cursor : list A) : list A :=
  firstn length cursor.
Arguments to_list : simpl never.

(** Documents ordered by [created_at], latest first ([sort("created_at", -1)]);
    documents with equal keys keep their collection order. *)
Fixpoint insert_desc (d : Transaction) (sorted : list Transaction)
  : list Transaction :=
  match sorted with
  | [] => [d]
  | x :: rest =>
      if (tx_created_at x <? tx_created_at d)%Z
      then d :: sorted
      else x :: insert_desc d rest
  end.

Definition sort_created_at_desc (docs : list Transaction) : list Transaction :=
  fold_right insert_desc [] docs.

(** ** Constants and small utilities *)

Definition USDC_MINT : string := "EPjFWdd5AufqSSqeM2qN1xzybapC8G4wEGGkZwyTDt1v".

Definition pending : string := "pending".
Definition confirmed : string := "confirmed".

(** [generate_payment_wallet()] *)
Definition generate_payment_wallet : M (string * string) :=
  t <- next_tick ;; ask (fun env => keypair env t).

(** [payment_wallet.secret_key], encoded: the attribute read raises when the
    key-pair class has no such attribute. *)
Definition secret_key (payment_wallet : string * string) : M string :=
  missing <- ask secret_key_error ;;
  match missing with
  | None => ret (snd payment_wallet)
  | Some e => raise e
  end.

(** [str_to_public_key(s)]: [PublicKey(s)] raises on a malformed address. *)
Definition str_to_public_key (public_key_str : string) : M string :=
  ok <- ask (fun env => valid_public_key env public_key_str) ;;
  if ok : bool then ret public_key_str
  else
    e <- ask (fun env => public_key_error env public_key_str) ;;
    raise e.

(** The [Payment] built from a stored document, as [get_payment],
    [list_payments] and [send_webhook_to_merchant] build it. *)
Definition Payment_of (transaction : Transaction) : Payment :=
  mkPayment (tx_id transaction) (tx_payment_id transaction)
    (tx_wallet_address transaction) (tx_amount transaction)
    (tx_status transaction) (tx_tx_signature transaction)
    (tx_created_at transaction) (tx_confirmed_at transaction)
    (tx_metadata transaction).

Definition opt_json {A} (f : A -> Json) (o : option A) : Json :=
  match o with
  | Some a => f a
  | None => JNull
  end.

(** [payment.dict()] *)
Definition Payment_dict (p : Payment) : list (string * Json) :=
  [ ("id", JStr (pay_id p));
    ("payment_id", JStr (pay_payment_id p));
    ("wallet_address", JStr (pay_wallet_address p));
    ("amount", JNum (pay_amount p));
    ("status", JStr (pay_status p));
    ("tx_signature", opt_json JStr (pay_tx_signature p));
    ("created_at", JDate (pay_created_at p));
    ("confirmed_at", opt_json JDate (pay_confirmed_at p));
    ("metadata", opt_json (fun j => j) (pay_metadata p)) ].

(** [payload.dict()] *)
Definition WebhookPayload_dict (payload : WebhookPayload) : Json :=
  JObj [ ("event", JStr (wp_event payload));
         ("payment", JObj (Payment_dict (wp_payment payload))) ].

(** The items of the [merchant] dict of [create_merchant], in the order of
    the dict display. *)
Definition merchant_items (m : Merchant) : list (string * Json) :=
  [ ("merchant_id", JStr (m_merchant_id m));
    ("name", JStr (m_name m));
    ("api_key", JStr (m_api_key m));
    ("webhook_url", opt_json JStr (m_webhook_url m));
    ("default_wallet", JStr (m_default_wallet m));
    ("default_wallet_private_key", JStr (m_default_wallet_private_key m));
    ("created_at", JDate (m_created_at m)) ].

(** The items of the [transaction] dict of [create_payment]. *)
Definition transaction_items (d : Transaction) : list (string * Json) :=
  [ ("id", JStr (tx_id d));
    ("merchant_id", JStr (tx_merchant_id d));
    ("payment_id", JStr (tx_payment_id d));
    ("wallet_address", JStr (tx_wallet_address d));
    ("wallet_private_key", JStr (tx_wallet_private_key d));
    ("amount", JNum (tx_amount d));
    ("status", JStr (tx_status d));
    ("tx_signature", opt_json JStr (tx_tx_signature d));
    ("created_at", JDate (tx_created_at d));
    ("confirmed_at", opt_json JDate (tx_confirmed_at d));
    ("metadata", opt_json (fun j => j) (tx_metadata d)) ].

(** Python truthiness of an optional string: [None] and [""] are falsy. *)
Definition truthy (s : option string) : bool :=
  match s with
  | Some s' => negb (s' =? "")
  | None => false
  end.

(** ** Routes *)

(** [authenticate_merchant(x_api_key)] *)
Definition authenticate_merchant (x_api_key : string) : M Merchant :=
  merchant <- find_one get_merchants (fun m => m_api_key m =? x_api_key) ;;
  match merchant with
  | None => raise (HTTPException 401 "Invalid API key")
  | Some m => ret m
  end.

(** [create_payment(payment_req, background_tasks, merchant)] *)
Definition create_payment (payment_req : PaymentRequest) (merchant : Merchant)
  : M PaymentResponse :=
  payment_wallet <- generate_payment_wallet ;;
  let wallet_address := fst payment_wallet in
  private_key_encoded <- secret_key payment_wallet ;;
  t <- next_tick ;;
  payment_id_internal <- ask (fun env => uuid4_str env t) ;;
  now <- now_utc ;;
  let transaction :=
    mkTransaction payment_id_internal (m_merchant_id merchant)
      (req_payment_id payment_req) wallet_address private_key_encoded
      (req_amount payment_req) pending None now None
      (req_metadata payment_req) in
  insert_transaction transaction ;;
  let payment :=
    mkPayment payment_id_internal (req_payment_id payment_req) wallet_address
      (req_amount payment_req) pending None now None
      (req_metadata payment_req) in
  ret (mkPaymentResponse true payment).

(** [get_payment(payment_id, merchant)] *)
Definition get_payment (payment_id : string) (merchant : Merchant)
  : M PaymentResponse :=
  transaction <-
    find_one get_transactions
      (fun d => (tx_payment_id d =? payment_id)
                && (tx_merchant_id d =? m_merchant_id merchant)) ;;
  match transaction with
  | None => raise (HTTPException 404 "Payment not found")
  | Some d => ret (mkPaymentResponse true (Payment_of d))
  end.

(** The [query] dict of [list_payments]: the merchant's documents, restricted
    to a status when a non-empty one is given. *)
Definition list_query (status : option string) (merchant : Merchant)
  (d : Transaction) : bool :=
  (tx_merchant_id d =? m_merchant_id merchant)
  && (if truthy status
      then match status with
           | Some s => tx_status d =? s
           | None => true
           end
      else true).

(** [list_payments(status, limit, offset, merchant)]; a negative [limit] or
    [offset] is refused by the driver before any document is read, so both
    are naturals here. *)
Definition list_payments (status : option string) (limit offset : nat)
  (merchant : Merchant) : M PaymentListResponse :=
  let query := list_query status merchant in
  db_round_trip ;;
  docs <- get_transactions ;;
  let total := List.length (filter query docs) in
  db_round_trip ;;
  docs' <- get_transactions ;;
  let txs :=
    to_list limit (skipn offset (sort_created_at_desc (filter query docs'))) in
  ret (mkPaymentListResponse true (map Payment_of txs) total limit offset).

(** ** The notifier *)

(** [transaction[key]]: subscripting [None] raises a [TypeError]. *)
Definition subscript (transaction : option Transaction) : M Transaction :=
  match transaction with
  | Some d => ret d
  | None => raise (Exception "'NoneType' object is not subscriptable")
  end.

(** [send_webhook_to_merchant(transaction)].  The argument is what
    [find_one] returned, a document or [None]. *)
Definition send_webhook_to_merchant (transaction : option Transaction)
  : M unit :=
  emit (EvNotify transaction) ;;
  try_except
    (d <- subscript transaction ;;
     merchant <-
       find_one get_merchants (fun m => m_merchant_id m =? tx_merchant_id d) ;;
     match merchant with
     | None => ret tt
     | Some m =>
         match m_webhook_url m with
         | None => ret tt
         | Some url =>
             if url =? "" then ret tt
             else
               let payload :=
                 mkWebhookPayload "payment.confirmed" (Payment_of d) in
               t <- next_tick ;;
               emit (EvPost url (WebhookPayload_dict payload)) ;;
               r <- ask (fun env =>
                           http_post env t url (WebhookPayload_dict payload)) ;;
               of_result r ;;
               ret tt
         end
     end)
    (fun e =>
       d <- subscript transaction ;;
       print ("Error sending webhook for " ++ tx_id d ++ ": " ++ exc_str e)).

(** ** Merchant administration *)

(** [s[:8]] *)
Definition prefix8 (s : string) : string := substring 0 8 s.

(** [create_merchant(name, webhook_url, admin_key)].  What the route returns
    is the dict [{"success": True, "merchant": merchant_response}], built
    from the items of [merchant] after [insert_one] has added [_id] to it. *)
Definition create_merchant (name webhook_url admin_key : string)
  : M (list (string * Json)) :=
  expected <- ask ADMIN_API_KEY ;;
  if negb (match expected with
           | Some k => admin_key =? k
           | None => false
           end)
  then raise (HTTPException 401 "Invalid admin key")
  else
    t1 <- next_tick ;;
    h1 <- ask (fun env => uuid4_hex env t1) ;;
    let merchant_id := "MERCH_" ++ prefix8 h1 in
    t2 <- next_tick ;;
    api_key <- ask (fun env => uuid4_hex env t2) ;;
    default_wallet <- generate_payment_wallet ;;
    let default_wallet_address := fst default_wallet in
    default_wallet_private_key <- secret_key default_wallet ;;
    created <- now_utc ;;
    let merchant :=
      mkMerchant merchant_id name api_key (Some webhook_url)
        default_wallet_address default_wallet_private_key created in
    inserted_id <- insert_merchant merchant ;;
    let merchant_response :=
      filter (fun kv => negb (fst kv =? "default_wallet_private_key"))
        (merchant_items merchant ++ [("_id", JObjectId inserted_id)]) in
    ret [ ("success", JBool true); ("merchant", JObj merchant_response) ].

(** ** The payment listener *)

(** [float(ui_amount)] *)
Definition to_float (ui_amount : option float) : M float :=
  match ui_amount with
  | Some x => ret x
  | None =>
      raise (Exception
        "float() argument must be a string or a real number, not 'NoneType'")
  end.

(** [usdc_amount >= transaction["amount"]] on Python floats: the IEEE 754
    binary64 comparison. *)
Definition ge_float (usdc_amount amount : float) : bool :=
  PrimFloat.leb amount usdc_amount.

(** [check_payment_received(transaction)] *)
Definition check_payment_received (transaction : Transaction) : M unit :=
  try_except
    (wallet_public_key <- str_to_public_key (tx_wallet_address transaction) ;;
     t <- next_tick ;;
     response <-
       ask (fun env =>
              get_token_accounts_by_owner env t wallet_public_key USDC_MINT) ;;
     accounts <- of_result response ;;
     match accounts with
     | [] => ret tt
     | account0 :: _ =>
         account_pubkey <- str_to_public_key account0 ;;
         t' <- next_tick ;;
         account_info <-
           ask (fun env => get_token_account_balance env t' account_pubkey) ;;
         ui_amount <- of_result account_info ;;
         usdc_amount <- to_float ui_amount ;;
         if ge_float usdc_amount (tx_amount transaction) then
           now <- now_utc ;;
           update_one (fun d => tx_id d =? tx_id transaction)
             (set_status_confirmed_at confirmed now) ;;
           updated_tx <-
             find_one get_transactions
               (fun d => tx_id d =? tx_id transaction) ;;
           send_webhook_to_merchant updated_tx
         else ret tt
     end)
    (fun e =>
       print ("Error checking payment for " ++ tx_id transaction ++ ": "
              ++ exc_str e)).

(** One turn of the [while True] loop of [payment_listener]. *)
Definition listener_iteration : M unit :=
  try_except
    (db_round_trip ;;
     docs <- get_transactions ;;
     let pending_txs :=
       to_list 100 (filter (fun d => tx_status d =? pending) docs) in
     for_each pending_txs check_payment_received ;;
     sleep 15)
    (fun e =>
       print ("Error in payment listener: " ++ exc_str e) ;;
       sleep 30).

(** [payment_listener()], cut after [n] turns: the loop has no exit of its
    own, so a result other than [Ok] after some [n] is the only way it can
    stop. *)
Fixpoint payment_listener (n : nat) : M unit :=
  match n with
  | O => ret tt
  | S n' => listener_iteration ;; payment_listener n'
  end.

(** ** Requests served next to the listener *)

Inductive Request : Type :=
| PostPayment (x_api_key : string) (payment_req : PaymentRequest)
| GetPayment (x_api_key : string) (payment_id : string)
| ListPayments (x_api_key : string) (status : option string)
    (limit offset : nat)
| PostMerchant (name webhook_url admin_key : string)
| ListenerTurn.

(** [PaymentRequest] validation: [amount: float = Field(..., gt=0)]. *)
Definition valid_payment_request (payment_req : PaymentRequest) : bool :=
  PrimFloat.ltb 0 (req_amount payment_req).

(** The routes as the framework runs them: the [Depends] of the route is
    resolved first, then the body is validated, then the route runs. *)
Definition post_api_payments (x_api_key : string)
  (payment_req : PaymentRequest) : M PaymentResponse :=
  merchant <- authenticate_merchant x_api_key ;;
  if valid_payment_request payment_req
  then create_payment payment_req merchant
  else raise (HTTPException 422 "Unprocessable Entity").

Definition get_api_payment (x_api_key payment_id : string)
  : M PaymentResponse :=
  merchant <- authenticate_merchant x_api_key ;;
  get_payment payment_id merchant.

Definition get_api_payments (x_api_key : string) (status : option string)
  (limit offset : nat) : M PaymentListResponse :=
  merchant <- authenticate_merchant x_api_key ;;
  list_payments status limit offset merchant.

(** One request served, or one turn of the listener.  The response is
    dropped; an exception becomes an error response and leaves the service
    running. *)
Definition serve (r : Request) : M unit :=
  try_except
    match r with
    | PostPayment k payment_req => post_api_payments k payment_req ;; ret tt
    | GetPayment k payment_id => get_api_payment k payment_id ;; ret tt
    | ListPayments k status limit offset =>
        get_api_payments k status limit offset ;; ret tt
    | PostMerchant name webhook_url admin_key =>
        create_merchant name webhook_url admin_key ;; ret tt
    | ListenerTurn => listener_iteration
    end
    (fun _ => ret tt).

(** The world a run leaves. *)
Definition exec {A} (m : M A) (env : Env) (w : World) : World :=
  snd (m env w).

(** A sequential run: requests and listener turns, each taken whole, one
    after another. *)
Definition serve_all (rs : list Request) : M unit := for_each rs serve.

(** * Vocabulary of the properties *)

(** ** Reading a trace *)

(** The arguments of the notifier, latest invocation first. *)
Fixpoint notified (tr : list Event) : list (option Transaction) :=
  match tr with
  | [] => []
  | EvNotify d :: tr' => d :: notified tr'
  | _ :: tr' => notified tr'
  end.

(** The webhook requests sent, latest first. *)
Fixpoint posted (tr : list Event) : list (string * Json) :=
  match tr with
  | [] => []
  | EvPost url json :: tr' => (url, json) :: posted tr'
  | _ :: tr' => posted tr'
  end.

(** The lines printed, latest first. *)
Fixpoint printed (tr : list Event) : list string :=
  match tr with
  | [] => []
  | EvPrint line :: tr' => line :: printed tr'
  | _ :: tr' => printed tr'
  end.

(** The sleeps taken, latest first. *)
Fixpoint slept (tr : list Event) : list Z :=
  match tr with
  | [] => []
  | EvSleep s :: tr' => s :: slept tr'
  | _ :: tr' => slept tr'
  end.

(** How often a document of id [i] occurs among notifier arguments. *)
Fixpoint count_id (i : string) (l : list (option Transaction)) : nat :=
  match l with
  | [] => 0
  | Some d :: l' => (if tx_id d =? i then 1 else 0) + count_id i l'
  | None :: l' => count_id i l'
  end.

(** How often the notifier was invoked with a document of id [i]. *)
Definition notify_count (i : string) (tr : list Event) : nat :=
  count_id i (notified tr).

(** The stored document of id [i]. *)
Definition stored (i : string) (w : World) : option Transaction :=
  find (fun d => tx_id d =? i) (transactions w).

(** The payload the notifier builds from a document. *)
Definition confirmation_event (d : Transaction) : Json :=
  WebhookPayload_dict (mkWebhookPayload "payment.confirmed" (Payment_of d)).

(** ** Relations between worlds *)

(** [m] relates every world to the one it leaves, however it ends. *)
Definition keeps (env : Env) (R : World -> World -> Prop) {A} (m : M A)
  : Prop :=
  forall w, R w (exec m env w).

(** The two ways the service writes a transaction document: a pending
    document is appended, or the first document of an id is confirmed. *)
Inductive store_step : list Transaction -> list Transaction -> Prop :=
| store_insert (l : list Transaction) (d : Transaction) :
    tx_status d = pending -> tx_confirmed_at d = None ->
    store_step l (l ++ [d])
| store_confirm (l : list Transaction) (i : string) (now : Z) :
    store_step l
      (update_first (fun d => tx_id d =? i)
         (set_status_confirmed_at confirmed now) l).

Inductive store_steps : list Transaction -> list Transaction -> Prop :=
| store_stay (l : list Transaction) : store_steps l l
| store_then (l1 l2 l3 : list Transaction) :
    store_steps l1 l2 -> store_step l2 l3 -> store_steps l1 l3.

Definition store_moves (w w' : World) : Prop :=
  store_steps (transactions w) (transactions w').

(** ** Invariants *)

(** [confirmed_at] is set exactly on confirmed documents. *)
Definition tx_inv (d : Transaction) : Prop :=
  tx_confirmed_at d <> None <-> tx_status d = confirmed.

Definition pay_inv (p : Payment) : Prop :=
  pay_confirmed_at p <> None <-> pay_status p = confirmed.

(** The fields of a document that no write of the service touches. *)
Definition same_payment (d d' : Transaction) : Prop :=
  tx_id d' = tx_id d
  /\ tx_merchant_id d' = tx_merchant_id d
  /\ tx_payment_id d' = tx_payment_id d
  /\ tx_wallet_address d' = tx_wallet_address d
  /\ tx_wallet_private_key d' = tx_wallet_private_key d
  /\ tx_amount d' = tx_amount d
  /\ tx_created_at d' = tx_created_at d
  /\ tx_metadata d' = tx_metadata d.

Definition ids (w : World) : list string := map tx_id (transactions w).

(** No two stored documents share an id. *)
Definition Uniq (w : World) : Prop := NoDup (ids w).

(** No id was notified twice, and a notified id is stored as confirmed. *)
Definition Once (w : World) : Prop :=
  forall i,
    notify_count i (trace w) <= 1
    /\ (1 <= notify_count i (trace w) ->
        exists d, stored i w = Some d /\ tx_status d = confirmed).

(** Every stored id was drawn from [uuid4] at an earlier tick. *)
Definition Fresh (env : Env) (w : World) : Prop :=
  Forall (fun d => exists t, t < tick w /\ tx_id d = uuid4_str env t)
    (transactions w).

(** [uuid4] never returns the same value twice. *)
Definition collision_free (env : Env) : Prop :=
  forall t t', uuid4_str env t = uuid4_str env t' -> t = t'.

(** The listener reads [tx] as pending: the store holds it, pending, under
    its id. *)
Definition stored_pending (tx : Transaction) (w : World) : Prop :=
  exists d, stored (tx_id tx) w = Some d /\ tx_status d = pending.

(** Steps that leave the transactions and the trace alone. *)
Definition quiet (w w' : World) : Prop :=
  transactions w' = transactions w /\ trace w' = trace w /\ tick w <= tick w'.

(** Steps that keep the stored ids, in their order. *)
Definition grows (w w' : World) : Prop :=
  ids w' = ids w /\ tick w <= tick w'.

(** The document the store holds after [create_payment], from the oracles
    it consults. *)
Definition new_transaction (env : Env) (t : nat) (req : PaymentRequest)
  (m : Merchant) : Transaction :=
  mkTransaction (uuid4_str env (S t)) (m_merchant_id m) (req_payment_id req)
    (fst (keypair env t)) (snd (keypair env t)) (req_amount req) pending None
    (bson_datetime (utcnow env (S (S t)))) None (req_metadata req).

(** The payment [create_payment] answers with. *)
Definition new_payment (env : Env) (t : nat) (req : PaymentRequest) : Payment :=
  mkPayment (uuid4_str env (S t)) (req_payment_id req) (fst (keypair env t))
    (req_amount req) pending None (utcnow env (S (S t))) None
    (req_metadata req).

Definition Sound (env : Env) (w : World) : Prop :=
  Uniq w /\ Once w /\ Fresh env w.

Definition keeps_sound (env : Env) (w w' : World) : Prop :=
  Sound env w -> Sound env w'.

(** ** Observations of the ledger *)

(** What the ledger shows for a wallet: no token account for the mint yet,
    or the balance of its first token account. *)
Inductive Observation : Type :=
| NoHoldings
| Balance (ui_amount : float).

(** The ledger answers the two queries of a check started at tick [t] with
    the observation [obs]. *)
Definition observes (env : Env) (t : nat) (wallet : string)
  (obs : Observation) : Prop :=
  match obs with
  | NoHoldings => get_token_accounts_by_owner env t wallet USDC_MINT = Ok []
  | Balance b =>
      exists account rest,
        get_token_accounts_by_owner env t wallet USDC_MINT
        = Ok (account :: rest)
        /\ valid_public_key env account = true
        /\ get_token_account_balance env (S t) account = Ok (Some b)
  end.

(** The observed balance covers the requested amount. *)
Definition sufficient (obs : Observation) (amount : float) : bool :=
  match obs with
  | NoHoldings => false
  | Balance b => ge_float b amount
  end.

(** At no tick does the ledger show a balance that covers the amount of [d]:
    each query fails, or shows no account, or shows too little. *)
Definition never_sufficient (env : Env) (d : Transaction) : Prop :=
  forall t,
    match get_token_accounts_by_owner env t (tx_wallet_address d) USDC_MINT with
    | Ok (account :: _) =>
        forall t',
          match get_token_account_balance env t' account with
          | Ok (Some b) => ge_float b (tx_amount d) = false
          | _ => True
          end
    | _ => True
    end.

(** ** Amounts at the precision of the asset *)

(** The value of a finite binary64 number with mantissa [m] and exponent
    [e], counted in units of 2^-1074, the spacing of the smallest numbers of
    the format: an integer. *)
Definition scaled (m : positive) (e : Z) : Z := (Z.pos m * 2 ^ (e + 1074))%Z.

Definition SFulps (x : spec_float) : option Z :=
  match x with
  | S754_zero _ => Some 0%Z
  | S754_finite s m e => Some (if s then - scaled m e else scaled m e)%Z
  | _ => None
  end.

(** The exact value of a float in those units; none for infinities and
    NaN. *)
Definition ulps (x : float) : option Z := SFulps (Prim2SF x).

(** The number of millionths nearest to a value of [n] units (halves go
    up). *)
Definition to_micro (n : Z) : Z :=
  ((2 * 1000000 * n + 2 ^ 1074) / 2 ^ 1075)%Z.

(** An amount at the 6 decimals of the asset, in millionths of a token. *)
Definition micro_units (x : float) : option Z := option_map to_micro (ulps x).

(** The comparison the specification words: exact, on the two amounts at
    the fixed 6-decimal precision of the asset. *)
Definition exact_decimal_ge (observed_balance requested_amount : float)
  : option bool :=
  match micro_units observed_balance, micro_units requested_amount with
  | Some b, Some a => Some (a <=? b)%Z
  | _, _ => None
  end.

(** ** Webhook deliveries and JSON *)



(** [obj[key]] on a JSON object. *)
Fixpoint assoc (key : string) (items : list (string * Json)) : option Json :=
  match items with
  | [] => None
  | (k, v) :: items' => if k =? key then Some v else assoc key items'
  end.

Definition json_get (key : string) (j : option Json) : option Json :=
  match j with
  | Some (JObj items) => assoc key items
  | _ => None
  end.


(** ** Blanked private keys *)

Definition redact_tx (d : Transaction) : Transaction :=
  mkTransaction (tx_id d) (tx_merchant_id d) (tx_payment_id d)
    (tx_wallet_address d) "" (tx_amount d) (tx_status d) (tx_tx_signature d)
    (tx_created_at d) (tx_confirmed_at d) (tx_metadata d).

Definition redact_merchant (m : Merchant) : Merchant :=
  mkMerchant (m_merchant_id m) (m_name m) (m_api_key m) (m_webhook_url m)
    (m_default_wallet m) "" (m_created_at m).

(** The world with every stored private key blanked. *)
Definition redact_world (w : World) : World :=
  mkWorld (map redact_tx (transactions w)) (map redact_merchant (merchants w))
    (tick w) (trace w).

(** The environment whose key pairs have their secret blanked. *)
Definition redact_env (env : Env) : Env :=
  mkEnv (utcnow env) (uuid4_str env) (uuid4_hex env)
    (fun t => (fst (keypair env t), "")) (secret_key_error env)
    (db_call env) (object_id env) (valid_public_key env)
    (public_key_error env) (get_token_accounts_by_owner env)
    (get_token_account_balance env) (http_post env) (ADMIN_API_KEY env).

(** A payment as it reads once its document went through the store. *)
Definition bson_payment (p : Payment) : Payment :=
  mkPayment (pay_id p) (pay_payment_id p) (pay_wallet_address p)
    (pay_amount p) (pay_status p) (pay_tx_signature p)
    (bson_datetime (pay_created_at p))
    (option_map bson_datetime (pay_confirmed_at p)) (pay_metadata p).

(** ** Queries of the read routes *)

(** The query of [get_payment]: the payment id within the merchant. *)
Definition pair_query (payment_id : string) (merchant : Merchant)
  (d : Transaction) : bool :=
  (tx_payment_id d =? payment_id) && (tx_merchant_id d =? m_merchant_id merchant).

(** The documents a call of [list_payments] selects from a collection. *)
Definition listed (status : option string) (limit offset : nat)
  (merchant : Merchant) (docs : list Transaction) : list Transaction :=
  to_list limit
    (skipn offset
       (sort_created_at_desc (filter (list_query status merchant) docs))).

(** [x] was created no earlier than [y]. *)
Definition later_or_same (x y : Transaction) : Prop :=
  (tx_created_at y <= tx_created_at x)%Z.

(** Payments from the latest to the earliest [created_at]. *)
Definition latest_first (ps : list Payment) : Prop :=
  StronglySorted (fun p q => (pay_created_at q <= pay_created_at p)%Z) ps.

(** ** The writes of a run, with their ticks *)

(** One step of a run, as the store sees it: nothing written; the document
    of a valid request appended by [create_payment], which started at the
    tick of [w]; or the first document of an id confirmed at the clock
    reading of tick [t]. *)
Inductive move (env : Env) : World -> World -> Prop :=
| move_idle (w w' : World) :
    transactions w' = transactions w -> tick w <= tick w' -> move env w w'
| move_insert (w w' : World) (req : PaymentRequest) (m : Merchant) :
    valid_payment_request req = true ->
    transactions w'
    = (transactions w ++ [new_transaction env (tick w) req m])%list ->
    tick w' = 4 + tick w ->
    move env w w'
| move_confirm (w w' : World) (i : string) (t : nat) :
    tick w <= t -> t < tick w' ->
    transactions w'
    = update_first (fun d => tx_id d =? i)
        (set_status_confirmed_at confirmed (utcnow env t)) (transactions w) ->
    move env w w'.

Inductive moves (env : Env) : World -> World -> Prop :=
| moves_stay (w : World) : moves env w w
| moves_then (w1 w2 w3 : World) :
    moves env w1 w2 -> move env w2 w3 -> moves env w1 w3.

(** The requested amount is a positive number (neither zero, negative nor
    NaN). *)
Definition amount_positive (d : Transaction) : Prop :=
  PrimFloat.ltb 0 (tx_amount d) = true.

(** Key generation never returns the same address twice. *)
Definition addresses_never_repeat (env : Env) : Prop :=
  forall t t', fst (keypair env t) = fst (keypair env t') -> t = t'.

(** The clock never goes back. *)
Definition clock_monotone (env : Env) : Prop :=
  forall t t', t <= t' -> (utcnow env t <= utcnow env t')%Z.

(** Every wallet address of the store was generated at an earlier tick of
    its own. *)
Definition WalletsFresh (env : Env) (w : World) : Prop :=
  exists ts,
    map tx_wallet_address (transactions w)
    = map (fun t => fst (keypair env t)) ts
    /\ NoDup ts /\ Forall (fun t => t < tick w) ts.

(** Every document was created at an earlier tick, and confirmed, if it is,
    at that tick or later; the store holds both clock readings cut to the
    millisecond. *)
Definition Timed (env : Env) (w : World) : Prop :=
  Forall
    (fun d =>
       exists t0,
         t0 < tick w /\ tx_created_at d = bson_datetime (utcnow env t0)
         /\ match tx_confirmed_at d with
            | Some c => exists t1, t0 <= t1 /\ c = bson_datetime (utcnow env t1)
            | None => True
            end)
    (transactions w).

(** ** Failed ledger readings *)

Definition check_error_line (tx : Transaction) (e : Exc) : string :=
  "Error checking payment for " ++ tx_id tx ++ ": " ++ exc_str e.

(** The ways the ledger reading of a check started at tick [t] fails, with
    the exception the check then handles: a wallet or account address that
    [PublicKey] refuses, a failing query, a balance without [ui_amount]. *)
Inductive reading_fails (env : Env) (t : nat) (tx : Transaction)
  : Exc -> Prop :=
| fails_wallet :
    valid_public_key env (tx_wallet_address tx) = false ->
    reading_fails env t tx (public_key_error env (tx_wallet_address tx))
| fails_accounts (e : Exc) :
    valid_public_key env (tx_wallet_address tx) = true ->
    get_token_accounts_by_owner env t (tx_wallet_address tx) USDC_MINT
    = Raise e ->
    reading_fails env t tx e
| fails_account (account : string) (rest : list string) :
    valid_public_key env (tx_wallet_address tx) = true ->
    get_token_accounts_by_owner env t (tx_wallet_address tx) USDC_MINT
    = Ok (account :: rest) ->
    valid_public_key env account = false ->
    reading_fails env t tx (public_key_error env account)
| fails_balance (account : string) (rest : list string) (e : Exc) :
    valid_public_key env (tx_wallet_address tx) = true ->
    get_token_accounts_by_owner env t (tx_wallet_address tx) USDC_MINT
    = Ok (account :: rest) ->
    valid_public_key env account = true ->
    get_token_account_balance env (S t) account = Raise e ->
    reading_fails env t tx e
| fails_ui_amount (account : string) (rest : list string) :
    valid_public_key env (tx_wallet_address tx) = true ->
    get_token_accounts_by_owner env t (tx_wallet_address tx) USDC_MINT
    = Ok (account :: rest) ->
    valid_public_key env account = true ->
    get_token_account_balance env (S t) account = Ok None ->
    reading_fails env t tx
      (Exception
         "float() argument must be a string or a real number, not 'NoneType'").

(** The documents a listener turn checks. *)
Definition batch (w : World) : list Transaction :=
  to_list 100 (filter (fun d => tx_status d =? pending) (transactions w)).

(** The [merchant] dict of [create_merchant], from the oracles it consults,
    and the document the store holds for it. *)
Definition merchant_dict (env : Env) (t : nat) (name webhook_url : string)
  : Merchant :=
  mkMerchant ("MERCH_" ++ prefix8 (uuid4_hex env t)) name
    (uuid4_hex env (S t)) (Some webhook_url)
    (fst (keypair env (2 + t))) (snd (keypair env (2 + t)))
    (utcnow env (3 + t)).

Definition new_merchant (env : Env) (t : nat) (name webhook_url : string)
  : Merchant :=
  bson_merchant (merchant_dict env t name webhook_url).

(** The dict [create_merchant] returns: the items of [merchant] after the
    insert, the private key left out. *)
Definition merchant_response (env : Env) (t : nat) (name webhook_url : string)
  : list (string * Json) :=
  [ ("success", JBool true);
    ("merchant",
     JObj (filter (fun kv => negb (fst kv =? "default_wallet_private_key"))
             (merchant_items (merchant_dict env t name webhook_url)
              ++ [("_id", JObjectId (object_id env (4 + t)))]))) ].

(** * The registration script

    [register-merchant.py]: a command-line client of the admin route.  Its
    environment variables, the HTTP client and Python's [str] of a response
    value are the environment of the script; what it prints and sends is
    its output, most recent first. *)

Module RegisterMerchant.

(** [httpx.Response], as far as the script reads it: [status_code], [text]
    and what [json()] returns or raises. *)
Record Response : Type := mkResponse {
  status_code : Z;
  text : string;
  json : Result Json
}.

(** The arguments of [client.post(url, params=params, headers=headers)]. *)
Record Post : Type := mkPost {
  url : string;
  params : list (string * string);
  headers : list (string * string)
}.

Record Script : Type := mkScript {
  (** [os.getenv("ADMIN_API_KEY")] *)
  ADMIN_API_KEY : option string;
  (** [os.getenv("API_URL", "http://localhost:8000")] *)
  API_URL : string;
  (** [httpx.AsyncClient().post]: the response, or the exception raised. *)
  post : Post -> Result Response;
  (** [str(v)] of a value of the decoded response. *)
  str : Json -> string;
  (** The [KeyError] or [TypeError] of a failing [obj[key]]. *)
  subscript_error : Json -> string -> Exc
}.

Inductive Output : Type :=
| Printed (line : string)
| Sent (request : Post).

(** The script's monad: outputs and exceptions. *)
Definition S (A : Type) : Type := list Output -> Result A * list Output.

Definition ret {A} (a : A) : S A := fun out => (Ok a, out).

Definition bind {A B} (m : S A) (k : A -> S B) : S B :=
  fun out =>
    match m out with
    | (Ok a, out') => k a out'
    | (Raise e, out') => (Raise e, out')
    end.

Definition try_except {A} (body : S A) (handler : Exc -> S A) : S A :=
  fun out =>
    match body out with
    | (Ok a, out') => (Ok a, out')
    | (Raise e, out') => handler e out'
    end.

Definition of_result {A} (r : Result A) : S A := fun out => (r, out).

Definition print (line : string) : S unit :=
  fun out => (Ok tt, Printed line :: out).

Definition client_post (s : Script) (request : Post) : S Response :=
  fun out => (post s request, Sent request :: out).

Declare Scope script_scope.
Delimit Scope script_scope with script.
Notation "x <- m ;; k" := (bind m (fun x => k))
  (at level 61, m at next level, right associativity) : script_scope.
Notation "m ;; k" := (bind m (fun _ => k))
  (at level 61, right associativity) : script_scope.

(** [obj[key]]: the entry of a dict, or the error of a missing key or of a
    value that is no dict. *)
Definition getitem (s : Script) (obj : Json) (key : string) : S Json :=
  match obj with
  | JObj items =>
      match assoc key items with
      | Some v => ret v
      | None => of_result (Raise (subscript_error s obj key))
      end
  | _ => of_result (Raise (subscript_error s obj key))
  end.

(** [str(n)] of an integer. *)
Definition str_int (n : Z) : string := NilZero.string_of_int (Z.to_int n).

Definition newline : string := String "010"%char "".

(** [register_merchant(name, webhook_url)] *)
Definition register_merchant (s : Script) (name webhook_url : string)
  : S bool :=
  (if truthy (ADMIN_API_KEY s) then
     let key := match ADMIN_API_KEY s with Some k => k | None => "" end in
     let url := API_URL s ++ "/admin/merchants" in
     let headers :=
       [("admin-key", key); ("Content-Type", "application/json")] in
     let params := [("name", name); ("webhook_url", webhook_url)] in
     try_except
       (response <- client_post s (mkPost url params headers) ;;
        if (status_code response =? 200)%Z then
          result <- of_result (json response) ;;
          print (newline ++ "Merchant registered successfully:") ;;
          merchant <- getitem s result "merchant" ;;
          merchant_id <- getitem s merchant "merchant_id" ;;
          print ("Merchant ID: " ++ str s merchant_id) ;;
          merchant <- getitem s result "merchant" ;;
          api_key <- getitem s merchant "api_key" ;;
          print ("API Key: " ++ str s api_key) ;;
          merchant <- getitem s result "merchant" ;;
          default_wallet <- getitem s merchant "default_wallet" ;;
          print ("Default Wallet: " ++ str s default_wallet) ;;
          print (newline ++ "IMPORTANT: Store this API key securely - it won't be shown again!") ;;
          ret true
        else
          print ("Error: " ++ str_int (status_code response) ++ " - "
                 ++ text response) ;;
          ret false)
       (fun e =>
          print ("Error registering merchant: " ++ exc_str e) ;;
          ret false)
   else
     print "Error: ADMIN_API_KEY not set in environment" ;;
     ret false)%script.


(** The requests among the outputs, latest first. *)
Fixpoint sent (out : list Output) : list Post :=
  match out with
  | [] => []
  | Sent request :: out' => request :: sent out'
  | Printed _ :: out' => sent out'
  end.




End RegisterMerchant.

(** * Scenarios *)

Definition nat_str (n : nat) : string :=
  NilEmpty.string_of_uint (Nat.to_uint n).

(** Every wallet holds the token accounts [accounts]; every account shows
    the balance [ui_amount]; the store and the webhook endpoint answer. *)
Definition demo_env (accounts : list string) (ui_amount : option float) : Env :=
  mkEnv (fun t => 1700000000000000 + 1250 * Z.of_nat t)%Z
        (fun t => "uuid-" ++ nat_str t)
        (fun t => "0a1b2c3d4e5f" ++ nat_str t)
        (fun t => ("wallet-" ++ nat_str t, "secret-" ++ nat_str t))
        None
        (fun _ => Ok tt)
        (fun t => "65a1f0c2e4b0a1b2c3d4e5" ++ nat_str t)
        (fun _ => true)
        (fun s => Exception ("('invalid public key input:', '" ++ s ++ "')"))
        (fun _ _ _ => Ok accounts)
        (fun _ _ => Ok ui_amount)
        (fun _ _ _ => Ok 200%Z)
        (Some "admin-key").

Definition shop : Merchant :=
  mkMerchant "MERCH_0a1b2c3d" "shop" "key-1" (Some "https://shop.example/hook")
    "wallet-shop" "secret-shop" 1699999999000000.

Definition order_10 : PaymentRequest := mkPaymentRequest 10 "order-1" None.

Definition shop_world : World := mkWorld [] [shop] 0 [].

(** The store after the shop asked for 10.00 USDC for ["order-1"]. *)
Definition order_world : World :=
  exec (create_payment order_10 shop) (demo_env [] None) shop_world.

(** The document of ["order-1"] as the listener reads it while pending. *)
Definition order_tx : Transaction :=
  mkTransaction "uuid-1" "MERCH_0a1b2c3d" "order-1" "wallet-0" "secret-0" 10
    pending None 1700000000002000 None None.

(** The store after one listener turn saw 10.00 USDC on the wallet of
    ["order-1"]. *)
Definition paid_world : World :=
  exec (payment_listener 1) (demo_env ["account-1"] (Some 10%float))
    order_world.

Definition paid_tx : Transaction :=
  set_status_confirmed_at confirmed 1700000000008750 order_tx.

(** The scenario environment with the ledger unreachable. *)
Definition ledger_down (env : Env) : Env :=
  mkEnv (utcnow env) (uuid4_str env) (uuid4_hex env) (keypair env)
    (secret_key_error env) (db_call env) (object_id env)
    (valid_public_key env) (public_key_error env)
    (fun _ _ _ => Raise (Exception "timed out"))
    (fun _ _ => Raise (Exception "timed out"))
    (http_post env) (ADMIN_API_KEY env).

(** The scenario environment with the store unreachable. *)
Definition store_down (env : Env) : Env :=
  mkEnv (utcnow env) (uuid4_str env) (uuid4_hex env) (keypair env)
    (secret_key_error env)
    (fun _ => Raise (Exception "connection refused")) (object_id env)
    (valid_public_key env) (public_key_error env)
    (get_token_accounts_by_owner env)
    (get_token_account_balance env) (http_post env) (ADMIN_API_KEY env).

(** The scenario environment with the webhook endpoint unreachable. *)
Definition webhook_down (env : Env) : Env :=
  mkEnv (utcnow env) (uuid4_str env) (uuid4_hex env) (keypair env)
    (secret_key_error env) (db_call env) (object_id env)
    (valid_public_key env) (public_key_error env)
    (get_token_accounts_by_owner env)
    (get_token_account_balance env)
    (fun _ _ _ => Raise (Exception "connection refused"))
    (ADMIN_API_KEY env).

(** The scenario environment with a [PublicKey] that refuses every
    address. *)
Definition no_public_key (env : Env) : Env :=
  mkEnv (utcnow env) (uuid4_str env) (uuid4_hex env) (keypair env)
    (secret_key_error env) (db_call env) (object_id env)
    (fun _ => false) (public_key_error env)
    (get_token_accounts_by_owner env) (get_token_account_balance env)
    (http_post env) (ADMIN_API_KEY env).

(** The scenario environment with a key-pair class that has no attribute
    [secret_key]. *)
Definition no_secret_key (env : Env) : Env :=
  mkEnv (utcnow env) (uuid4_str env) (uuid4_hex env) (keypair env)
    (Some (Exception "'Keypair' object has no attribute 'secret_key'"))
    (db_call env) (object_id env) (valid_public_key env)
    (public_key_error env) (get_token_accounts_by_owner env)
    (get_token_account_balance env) (http_post env) (ADMIN_API_KEY env).

(** The scenario environment with the store failing at the call of tick
    [t0] only. *)
Definition store_fails_at (t0 : nat) (env : Env) : Env :=
  mkEnv (utcnow env) (uuid4_str env) (uuid4_hex env) (keypair env)
    (secret_key_error env)
    (fun t => if t =? t0 then Raise (Exception "connection reset")
              else db_call env t)%nat
    (object_id env) (valid_public_key env) (public_key_error env)
    (get_token_accounts_by_owner env) (get_token_account_balance env)
    (http_post env) (ADMIN_API_KEY env).



(** A pending payment of the shop for 0.1 + 0.2 USDC as binary64 adds them:
    0.30000000000000004. *)
Definition dust_tx : Transaction :=
  mkTransaction "uuid-3" "MERCH_0a1b2c3d" "order-3" "wallet-3" "secret-3"
    0.30000000000000004 pending None 1700000000002000 None None.

Definition dust_world : World := mkWorld [dust_tx] [shop] 4 [].

(** A queue of 101 pending payments of the shop; the ledger shows 10.00
    USDC on the wallet of the last one and no token account for the
    others. *)
Definition queued_tx (n : nat) : Transaction :=
  mkTransaction ("uuid-q" ++ nat_str n) "MERCH_0a1b2c3d"
    ("order-q" ++ nat_str n) ("wallet-q" ++ nat_str n)
    ("secret-q" ++ nat_str n) 10 pending None 1700000000000000 None None.

Definition queue_world : World :=
  mkWorld (map queued_tx (seq 0 101)) [shop] 0 [].

Definition queue_env : Env :=
  let env := demo_env [] (Some 10%float) in
  mkEnv (utcnow env) (uuid4_str env) (uuid4_hex env) (keypair env)
    (secret_key_error env) (db_call env) (object_id env)
    (valid_public_key env) (public_key_error env)
    (fun _ owner _ =>
       if owner =? "wallet-q100" then Ok ["account-q100"] else Ok [])
    (get_token_account_balance env) (http_post env) (ADMIN_API_KEY env).

(** A second request of the shop, for 25.00 USDC. *)
Definition order_25 : PaymentRequest := mkPaymentRequest 25 "order-2" None.

(** The store with the two payments of the shop, the first one confirmed. *)
Definition busy_world : World :=
  exec (create_payment order_25 shop) (demo_env [] None) paid_world.

(** * Proofs *)

Ltac unfold_m :=
  unfold find_one, insert_transaction, insert_merchant,
    update_one, generate_payment_wallet, secret_key, str_to_public_key,
    subscript, to_float, now_utc, current_tick, db_round_trip, print, sleep,
    try_except, bind, ret, raise, next_tick, emit, of_result, ask,
    get_transactions, get_merchants, put_transactions, put_merchants in *.

(** Case analysis on an innermost scrutinee of the goal. *)
Ltac innermost x :=
  lazymatch x with
  | context [match _ with _ => _ end] => fail
  | _ => idtac
  end.

Ltac break_match :=
  match goal with
  | |- context [match ?x with _ => _ end] => innermost x; destruct x eqn:?
  end.

Ltac destruct_units :=
  repeat match goal with
         | u : unit |- _ => destruct u
         end.

(** ** The notifier *)

Section Notifier.

Variable env : Env.

(** A run of the notifier on a document: it returns normally, leaves both
    collections alone, and sends at most one request, which carries the
    event built from that document. *)
Lemma send_webhook_to_merchant_effect (d : Transaction) (w : World) :
  exists w',
    send_webhook_to_merchant (Some d) env w = (Ok tt, w')
    /\ transactions w' = transactions w
    /\ merchants w' = merchants w
    /\ notified (trace w') = Some d :: notified (trace w)
    /\ slept (trace w') = slept (trace w)
    /\ (posted (trace w') = posted (trace w)
        \/ exists url,
             posted (trace w') = (url, confirmation_event d) :: posted (trace w)).
Proof.
  unfold send_webhook_to_merchant. unfold_m. simpl.
  repeat (break_match; simpl); destruct_units;
    eexists; (split; [reflexivity |]); simpl;
    repeat split; auto; right; eexists; reflexivity.
Qed.

(** Whatever it is handed, the notifier leaves the store alone and records
    its invocation; only a missing document makes it raise. *)
Lemma send_webhook_to_merchant_any (o : option Transaction) (w : World) :
  exists r w',
    send_webhook_to_merchant o env w = (r, w')
    /\ transactions w' = transactions w
    /\ merchants w' = merchants w
    /\ notified (trace w') = o :: notified (trace w)
    /\ slept (trace w') = slept (trace w)
    /\ (posted (trace w') = posted (trace w)
        \/ exists url d,
             o = Some d
             /\ posted (trace w') = (url, confirmation_event d) :: posted (trace w)).
Proof.
  destruct o as [d|].
  - destruct (send_webhook_to_merchant_effect d w)
      as (w' & E & Ht & Hm & Hn & Hs & Hp).
    exists (Ok tt), w'. repeat split; auto.
    destruct Hp as [Hp | [url Hp]]; [now left | right; now exists url, d].
  - unfold send_webhook_to_merchant. unfold_m. simpl.
    do 2 eexists. split; [reflexivity |]. simpl. repeat split; auto.
Qed.

End Notifier.

(** ** One check of one pending document *)

Section Check.

Variable env : Env.

(** [check_payment_received] always returns normally.  Either it leaves the
    store and the notifier alone, or it has rewritten the first document of
    that id to confirmed; in the latter case the notifier was invoked at most
    once, with what the store then held under that id. *)
Lemma check_payment_received_effect (tx : Transaction) (w : World) :
  exists w',
    check_payment_received tx env w = (Ok tt, w')
    /\ merchants w' = merchants w
    /\ slept (trace w') = slept (trace w)
    /\ ((transactions w' = transactions w
         /\ notified (trace w') = notified (trace w)
         /\ posted (trace w') = posted (trace w))
        \/ exists now,
             transactions w' =
               update_first (fun d => tx_id d =? tx_id tx)
                 (set_status_confirmed_at confirmed now) (transactions w)
             /\ ((notified (trace w') = notified (trace w)
                  /\ posted (trace w') = posted (trace w))
                 \/ (notified (trace w') =
                       stored (tx_id tx) w' :: notified (trace w)
                     /\ (posted (trace w') = posted (trace w)
                         \/ exists url d,
                              stored (tx_id tx) w' = Some d
                              /\ posted (trace w') =
                                   (url, confirmation_event d)
                                   :: posted (trace w))))).
Proof.
  unfold check_payment_received. unfold_m. simpl.
  repeat (break_match; simpl); destruct_units;
    try (eexists; (split; [reflexivity |]); simpl;
         repeat split; auto; left; repeat split; reflexivity).
  1, 2:
    match goal with
    | H : send_webhook_to_merchant ?o env ?W = (_, _) |- _ =>
        destruct (send_webhook_to_merchant_any env o W)
          as (r' & w1 & E & Ht & Hm & Hn & Hs & Hp);
        rewrite H in E; inversion E; subst; clear E; simpl in *
    end;
    eexists; (split; [reflexivity |]); simpl;
    (split; [assumption |]); (split; [assumption |]);
    right; eexists; (split; [eassumption |]);
    right; unfold stored; rewrite Ht;
    (split; [assumption |]);
    (destruct Hp as [Hp | (url & d & Hd & Hp)];
     [left; assumption | right; exists url, d; split; assumption]).
  eexists; (split; [reflexivity |]); simpl.
  repeat split; auto. right. eexists. split; [reflexivity |].
  left. split; reflexivity.
Qed.

End Check.

(** ** Lists of documents *)

Section Documents.

Variables (i : string) (s : string) (now : Z).

Let by_id (d : Transaction) : bool := tx_id d =? i.
Let upd : Transaction -> Transaction := set_status_confirmed_at s now.

Lemma map_tx_id_update_first (l : list Transaction) :
  map tx_id (update_first by_id upd l) = map tx_id l.
Proof.
  induction l as [|d l IH]; simpl; [reflexivity |].
  destruct (by_id d); simpl; [reflexivity | now rewrite IH].
Qed.

Lemma find_update_first_same (l : list Transaction) :
  find by_id (update_first by_id upd l) = option_map upd (find by_id l).
Proof.
  induction l as [|d l IH]; simpl; [reflexivity |].
  destruct (by_id d) eqn:E; simpl.
  - unfold by_id in *. simpl. now rewrite E.
  - now rewrite E.
Qed.

Lemma find_update_first_other (j : string) (l : list Transaction) :
  j <> i ->
  find (fun d => tx_id d =? j) (update_first by_id upd l)
  = find (fun d => tx_id d =? j) l.
Proof.
  intros Hj. induction l as [|d l IH]; simpl; [reflexivity |].
  destruct (by_id d) eqn:E; simpl.
  - unfold by_id in E. apply String.eqb_eq in E.
    destruct (tx_id d =? j) eqn:E'; [| reflexivity].
    apply String.eqb_eq in E'. congruence.
  - now rewrite IH.
Qed.

(** An update touches one position at most, and there it applies [upd]. *)
Lemma nth_error_update_first (l : list Transaction) (k : nat) (d : Transaction) :
  nth_error l k = Some d ->
  nth_error (update_first by_id upd l) k = Some d
  \/ nth_error (update_first by_id upd l) k = Some (upd d).
Proof.
  revert k. induction l as [|x l IH]; intros [|k] H; simpl in *;
    try discriminate.
  - inversion H; subst. destruct (by_id d); simpl; auto.
  - destruct (by_id x); simpl; auto.
Qed.

Lemma In_update_first (l : list Transaction) (d : Transaction) :
  In d (update_first by_id upd l) -> In d l \/ exists d0, In d0 l /\ d = upd d0.
Proof.
  induction l as [|x l IH]; simpl; [tauto |].
  destruct (by_id x); simpl.
  - intros [<- | H]; [right; exists x; auto | auto].
  - intros [<- | H]; [auto |].
    destruct (IH H) as [H' | (d0 & H' & ->)]; [auto | right; exists d0; auto].
Qed.

End Documents.

(** With distinct ids, a document is the one stored under its id. *)
Lemma find_by_id_unique (l : list Transaction) (d : Transaction) :
  NoDup (map tx_id l) -> In d l ->
  find (fun x => tx_id x =? tx_id d) l = Some d.
Proof.
  induction l as [|x l IH]; simpl; intros Hnd Hin; [contradiction |].
  inversion Hnd as [|? ? Hx Hnd']; subst.
  destruct Hin as [-> | Hin].
  - now rewrite String.eqb_refl.
  - destruct (tx_id x =? tx_id d) eqn:E; [| auto].
    apply String.eqb_eq in E. exfalso. apply Hx. rewrite E.
    now apply in_map.
Qed.

(** A cursor over a collection of distinct ids has distinct ids. *)
Lemma In_firstn {A} (n : nat) (l : list A) (x : A) :
  In x (firstn n l) -> In x l.
Proof.
  intros H. rewrite <- (firstn_skipn n l). apply in_or_app. now left.
Qed.

Lemma NoDup_ids_filter (query : Transaction -> bool) (docs : list Transaction) :
  NoDup (map tx_id docs) -> NoDup (map tx_id (filter query docs)).
Proof.
  induction docs as [|d docs IH]; simpl; intros H; [constructor |].
  inversion H as [|? ? Hd H']; subst.
  destruct (query d); simpl; [| auto].
  constructor; [| auto].
  intros Hin. apply Hd. apply in_map_iff in Hin as (y & <- & Hy).
  apply filter_In in Hy as [Hy _]. now apply in_map.
Qed.

Lemma NoDup_ids_to_list (n : nat) (docs : list Transaction) :
  NoDup (map tx_id docs) -> NoDup (map tx_id (to_list n docs)).
Proof.
  unfold to_list. revert n.
  induction docs as [|d docs IH]; intros [|n] H; simpl; try constructor.
  - inversion H as [|? ? Hd H']; subst. intros Hin. apply Hd.
    apply in_map_iff in Hin as (y & <- & Hy).
    apply in_map. eapply In_firstn; eauto.
  - inversion H; subst. auto.
Qed.

Lemma find_app_some {A} (p : A -> bool) (l l' : list A) (a : A) :
  find p l = Some a -> find p (l ++ l') = Some a.
Proof.
  induction l as [|x l IH]; simpl; [discriminate |].
  destruct (p x); auto.
Qed.

(** ** Relations kept by every step of a run *)

Lemma exec_bind {A B} (m : M A) (k : A -> M B) (env : Env) (w : World) :
  exec (bind m k) env w =
  match m env w with
  | (Ok a, w') => exec (k a) env w'
  | (Raise _, w') => w'
  end.
Proof.
  unfold exec, bind. destruct (m env w) as [[a|e] w']; reflexivity.
Qed.

Section Keeps.

Variable env : Env.
Variable R : World -> World -> Prop.
Hypothesis R_refl : forall w, R w w.
Hypothesis R_trans : forall w1 w2 w3, R w1 w2 -> R w2 w3 -> R w1 w3.

Lemma keeps_ret {A} (a : A) : keeps env R (ret a).
Proof. intros w. apply R_refl. Qed.

Lemma keeps_raise {A} (e : Exc) : keeps env R (@raise A e).
Proof. intros w. apply R_refl. Qed.

Lemma keeps_ask {A} (f : Env -> A) : keeps env R (ask f).
Proof. intros w. apply R_refl. Qed.

Lemma keeps_of_result {A} (r : Result A) : keeps env R (of_result r).
Proof. intros w. apply R_refl. Qed.

Lemma keeps_get_transactions : keeps env R get_transactions.
Proof. intros w. apply R_refl. Qed.

Lemma keeps_get_merchants : keeps env R get_merchants.
Proof. intros w. apply R_refl. Qed.

Lemma keeps_current_tick : keeps env R current_tick.
Proof. intros w. apply R_refl. Qed.

Lemma keeps_bind {A B} (m : M A) (k : A -> M B) :
  keeps env R m -> (forall a, keeps env R (k a)) -> keeps env R (bind m k).
Proof.
  intros Hm Hk w. rewrite exec_bind. specialize (Hm w). unfold exec in Hm.
  destruct (m env w) as [[a|e] w']; simpl in Hm; [| exact Hm].
  eapply R_trans; [exact Hm | apply Hk].
Qed.

Lemma keeps_try_except {A} (body : M A) (handler : Exc -> M A) :
  keeps env R body -> (forall e, keeps env R (handler e)) ->
  keeps env R (try_except body handler).
Proof.
  intros Hb Hh w. specialize (Hb w). unfold exec, try_except in *.
  destruct (body env w) as [[a|e] w']; simpl in *; [exact Hb |].
  eapply R_trans; [exact Hb | apply Hh].
Qed.

Lemma keeps_for_each {A} (xs : list A) (body : A -> M unit) :
  (forall x, In x xs -> keeps env R (body x)) ->
  keeps env R (for_each xs body).
Proof.
  induction xs as [|x xs IH]; simpl; intros H.
  - apply keeps_ret.
  - apply keeps_bind; [apply H; now left |].
    intros _. apply IH. intros y Hy. apply H. now right.
Qed.

End Keeps.

(** Unfolds a route down to the primitives of the monad and splits it along
    its binds and branches; [tac] closes the steps that are particular to
    the relation. *)
Ltac keeps_split tac :=
  unfold find_one, insert_merchant, generate_payment_wallet, secret_key,
    str_to_public_key, subscript, to_float, now_utc, db_round_trip, print,
    sleep;
  repeat first
    [ progress cbv zeta
    | tac
    | match goal with
      | |- keeps _ _ (bind _ _) => apply keeps_bind; [assumption | | intros ?]
      | |- keeps _ _ (try_except _ _) =>
          apply keeps_try_except; [assumption | | intros ?]
      | |- keeps _ _ (ret _) => apply keeps_ret; assumption
      | |- keeps _ _ (raise _) => apply keeps_raise; assumption
      | |- keeps _ _ (ask _) => apply keeps_ask; assumption
      | |- keeps _ _ (of_result _) => apply keeps_of_result; assumption
      | |- keeps _ _ get_transactions =>
          apply keeps_get_transactions; assumption
      | |- keeps _ _ get_merchants => apply keeps_get_merchants; assumption
      | |- keeps _ _ current_tick => apply keeps_current_tick; assumption
      | |- keeps _ _ (match ?x with _ => _ end) => destruct x
      end ].

(** ** The store as a transition system *)

Lemma store_steps_trans (l1 l2 l3 : list Transaction) :
  store_steps l1 l2 -> store_steps l2 l3 -> store_steps l1 l3.
Proof.
  intros H12 H23. induction H23; [assumption |].
  eapply store_then; [apply IHstore_steps; assumption | assumption].
Qed.

Lemma store_moves_refl (w : World) : store_moves w w.
Proof. apply store_stay. Qed.

Lemma store_moves_trans (w1 w2 w3 : World) :
  store_moves w1 w2 -> store_moves w2 w3 -> store_moves w1 w3.
Proof. apply store_steps_trans. Qed.

Section StoreMoves.

Variable env : Env.

Lemma keeps_store_next_tick : keeps env store_moves next_tick.
Proof. intros w. apply store_stay. Qed.

Lemma keeps_store_emit (e : Event) : keeps env store_moves (emit e).
Proof. intros w. apply store_stay. Qed.

Lemma keeps_store_put_merchants (l : list Merchant) :
  keeps env store_moves (put_merchants l).
Proof. intros w. apply store_stay. Qed.

Lemma keeps_store_insert (doc : Transaction) :
  tx_status doc = pending -> tx_confirmed_at doc = None ->
  keeps env store_moves (insert_transaction doc).
Proof.
  intros Hs Hc w. unfold exec, insert_transaction. unfold_m. simpl.
  destruct (db_call env (tick w)); simpl; [| apply store_stay].
  eapply store_then; [apply store_stay |].
  apply store_insert; simpl; [assumption | now rewrite Hc].
Qed.

Lemma keeps_store_update_one (i : string) (now : Z) :
  keeps env store_moves
    (update_one (fun d => tx_id d =? i) (set_status_confirmed_at confirmed now)).
Proof.
  intros w. unfold exec, update_one. unfold_m. simpl.
  destruct (db_call env (tick w)); simpl; [| apply store_stay].
  eapply store_then; [apply store_stay | apply store_confirm].
Qed.

End StoreMoves.

Ltac store_split :=
  pose proof store_moves_refl as Hrefl;
  pose proof store_moves_trans as Htrans;
  keeps_split
    ltac:(first
      [ apply keeps_store_insert; reflexivity
      | apply keeps_store_update_one
      | apply keeps_store_next_tick
      | apply keeps_store_emit
      | apply keeps_store_put_merchants ]).

Section StoreMovesRoutes.

Variable env : Env.

Lemma keeps_store_send_webhook (o : option Transaction) :
  keeps env store_moves (send_webhook_to_merchant o).
Proof. unfold send_webhook_to_merchant. store_split. Qed.

Lemma keeps_store_check (tx : Transaction) :
  keeps env store_moves (check_payment_received tx).
Proof.
  unfold check_payment_received. store_split.
  apply keeps_store_send_webhook.
Qed.

Lemma keeps_store_listener_iteration :
  keeps env store_moves listener_iteration.
Proof.
  unfold listener_iteration. store_split.
  apply keeps_for_each; try assumption.
  intros tx _. apply keeps_store_check.
Qed.

Lemma keeps_store_authenticate (k : string) :
  keeps env store_moves (authenticate_merchant k).
Proof. unfold authenticate_merchant. store_split. Qed.

Lemma keeps_store_create_payment (req : PaymentRequest) (m : Merchant) :
  keeps env store_moves (create_payment req m).
Proof. unfold create_payment. store_split. Qed.

Lemma keeps_store_get_payment (payment_id : string) (m : Merchant) :
  keeps env store_moves (get_payment payment_id m).
Proof. unfold get_payment. store_split. Qed.

Lemma keeps_store_list_payments (status : option string) (limit offset : nat)
  (m : Merchant) :
  keeps env store_moves (list_payments status limit offset m).
Proof. unfold list_payments. store_split. Qed.

Lemma keeps_store_create_merchant (name webhook_url admin_key : string) :
  keeps env store_moves (create_merchant name webhook_url admin_key).
Proof. unfold create_merchant. store_split. Qed.

Lemma keeps_store_serve (r : Request) : keeps env store_moves (serve r).
Proof.
  unfold serve, post_api_payments, get_api_payment, get_api_payments.
  destruct r; store_split;
    first [ apply keeps_store_authenticate
          | apply keeps_store_create_payment
          | apply keeps_store_get_payment
          | apply keeps_store_list_payments
          | apply keeps_store_create_merchant
          | apply keeps_store_listener_iteration ].
Qed.

(** Every run of the service moves the store by inserts of pending documents
    and confirmations only. *)
Lemma serve_all_store_steps (rs : list Request) (w : World) :
  store_steps (transactions w) (transactions (exec (serve_all rs) env w)).
Proof.
  apply (keeps_for_each env store_moves store_moves_refl store_moves_trans).
  intros r _. apply keeps_store_serve.
Qed.

End StoreMovesRoutes.

(** ** Invariants of the store *)

Lemma same_payment_refl (d : Transaction) : same_payment d d.
Proof. repeat split. Qed.

Lemma same_payment_trans (d1 d2 d3 : Transaction) :
  same_payment d1 d2 -> same_payment d2 d3 -> same_payment d1 d3.
Proof.
  unfold same_payment. intros H12 H23.
  decompose [and] H12. decompose [and] H23. repeat split; congruence.
Qed.

Lemma store_step_inv (l l' : list Transaction) :
  store_step l l' -> Forall tx_inv l -> Forall tx_inv l'.
Proof.
  intros Hstep Hl. destruct Hstep as [l d Hs Hc | l i now].
  - apply Forall_app. split; [assumption |]. constructor; [| constructor].
    unfold tx_inv. rewrite Hs, Hc. split; [congruence | discriminate].
  - rewrite Forall_forall in *. intros d Hd.
    apply In_update_first in Hd as [Hd | (d0 & _ & ->)]; [auto |].
    unfold tx_inv. simpl. split; [reflexivity | discriminate].
Qed.

Lemma store_steps_inv (l l' : list Transaction) :
  store_steps l l' -> Forall tx_inv l -> Forall tx_inv l'.
Proof.
  induction 1; [auto |]. intros Hl. eapply store_step_inv; eauto.
Qed.

(** A step keeps every document in its place and never takes a confirmation
    back. *)
Lemma store_step_mono (l l' : list Transaction) (k : nat) (d : Transaction) :
  store_step l l' -> nth_error l k = Some d ->
  exists d',
    nth_error l' k = Some d' /\ same_payment d d'
    /\ (tx_status d = confirmed -> tx_status d' = confirmed).
Proof.
  intros Hstep Hk. destruct Hstep as [l x Hs Hc | l i now].
  - exists d. split; [| split; [apply same_payment_refl | auto]].
    rewrite nth_error_app1; [assumption |].
    apply nth_error_Some. congruence.
  - destruct (nth_error_update_first i confirmed now l k d Hk) as [H | H].
    + exists d. split; [assumption |].
      split; [apply same_payment_refl | auto].
    + eexists. split; [exact H |]. split; [| reflexivity].
      repeat split.
Qed.

Lemma store_steps_mono (l l' : list Transaction) (k : nat) (d : Transaction) :
  store_steps l l' -> nth_error l k = Some d ->
  exists d',
    nth_error l' k = Some d' /\ same_payment d d'
    /\ (tx_status d = confirmed -> tx_status d' = confirmed).
Proof.
  induction 1 as [l | l1 l2 l3 H12 IH H23]; intros Hk.
  - exists d. split; [assumption |].
    split; [apply same_payment_refl | auto].
  - destruct (IH Hk) as (d2 & Hk2 & Hsame & Hconf).
    destruct (store_step_mono _ _ _ _ H23 Hk2) as (d3 & Hk3 & Hsame' & Hconf').
    exists d3. split; [assumption |].
    split; [eapply same_payment_trans; eauto | auto].
Qed.

(** What a read returns is built from a stored document. *)
Lemma In_insert_desc (d x : Transaction) (l : list Transaction) :
  In x (insert_desc d l) -> x = d \/ In x l.
Proof.
  induction l as [|y l IH]; simpl.
  - intros [<- | []]. now left.
  - destruct (tx_created_at y <? tx_created_at d)%Z; simpl.
    + intros [<- | H]; auto.
    + intros [<- | H]; auto. destruct (IH H); auto.
Qed.

Lemma In_sort_created_at_desc (x : Transaction) (l : list Transaction) :
  In x (sort_created_at_desc l) -> In x l.
Proof.
  induction l as [|d l IH]; simpl; [auto |].
  intros H. apply In_insert_desc in H as [-> | H]; auto.
Qed.

Lemma Payment_of_inv (d : Transaction) : tx_inv d -> pay_inv (Payment_of d).
Proof. auto. Qed.

Section Reads.

Variable env : Env.

Lemma get_api_payment_stored (k payment_id : string) (w : World)
  (resp : PaymentResponse) (w' : World) :
  get_api_payment k payment_id env w = (Ok resp, w') ->
  exists d, In d (transactions w) /\ pr_payment resp = Payment_of d
            /\ tx_payment_id d = payment_id.
Proof.
  unfold get_api_payment, authenticate_merchant, get_payment. unfold_m.
  simpl. repeat (break_match; simpl); intros H; inversion H; subst.
  match goal with
  | H : find _ (transactions w) = Some ?d |- _ =>
      apply find_some in H as [Hin Hq]; exists d
  end.
  simpl. repeat split; [assumption |].
  apply andb_prop in Hq as [Hq _]. now apply String.eqb_eq in Hq.
Qed.

Lemma get_api_payments_stored (k : string) (status : option string)
  (limit offset : nat) (w : World) (resp : PaymentListResponse) (w' : World) :
  get_api_payments k status limit offset env w = (Ok resp, w') ->
  forall p, In p (plr_payments resp) ->
            exists d, In d (transactions w) /\ p = Payment_of d.
Proof.
  unfold get_api_payments, authenticate_merchant, list_payments. unfold_m.
  simpl. repeat (break_match; simpl); intros H; inversion H; subst.
  simpl. intros p Hp. apply in_map_iff in Hp as (d & <- & Hd).
  exists d. split; [| reflexivity].
  unfold to_list in Hd. apply In_firstn in Hd.
  assert (Hskip : forall n (l : list Transaction) x, In x (skipn n l) -> In x l).
  { intros n l x Hx. rewrite <- (firstn_skipn n l). apply in_or_app. now right. }
  apply Hskip in Hd. apply In_sort_created_at_desc in Hd.
  now apply filter_In in Hd as [Hd _].
Qed.

End Reads.

(** C5: after any run of the service (payments created, listener turns,
    reads, in any order), every stored payment record has [confirmed_at]
    non-null if and only if its status is confirmed, provided that held of
    the store before; the payments returned by the two read routes satisfy
    the same equivalence. *)
Theorem confirmed_at_iff_confirmed (env : Env) (rs : list Request) (w : World) :
  Forall tx_inv (transactions w) ->
  let w' := exec (serve_all rs) env w in
  Forall tx_inv (transactions w')
  /\ (forall k payment_id resp w'',
        get_api_payment k payment_id env w' = (Ok resp, w'') ->
        pay_inv (pr_payment resp))
  /\ (forall k status limit offset resp w'',
        get_api_payments k status limit offset env w' = (Ok resp, w'') ->
        Forall pay_inv (plr_payments resp)).
Proof.
  intros Hw w'.
  assert (Hw' : Forall tx_inv (transactions w')).
  { eapply store_steps_inv; [apply serve_all_store_steps | assumption]. }
  split; [assumption |]. rewrite Forall_forall in Hw'. split.
  - intros k payment_id resp w'' H.
    apply get_api_payment_stored in H as (d & Hd & -> & _).
    apply Payment_of_inv. auto.
  - intros k status limit offset resp w'' H. apply Forall_forall. intros p Hp.
    destruct (get_api_payments_stored _ _ _ _ _ _ _ _ H p Hp) as (d & Hd & ->).
    apply Payment_of_inv. auto.
Qed.

(** C6: a stored payment record that is confirmed stays confirmed through
    any run of the service, whatever the store, the ledger and the webhook
    endpoint do (a failing webhook included); it keeps its place in the
    collection and its identity. *)
Theorem confirmed_never_reverts (env : Env) (rs : list Request) (w : World)
  (k : nat) (d : Transaction) :
  nth_error (transactions w) k = Some d ->
  tx_status d = confirmed ->
  exists d',
    nth_error (transactions (exec (serve_all rs) env w)) k = Some d'
    /\ same_payment d d'
    /\ tx_status d' = confirmed
    /\ tx_status d' <> pending.
Proof.
  intros Hk Hc.
  destruct (store_steps_mono _ _ k d (serve_all_store_steps env rs w) Hk)
    as (d' & Hk' & Hsame & Hconf).
  exists d'. repeat split; try apply Hsame; auto.
  rewrite (Hconf Hc). discriminate.
Qed.

(** ** At most one notification per payment *)

Section OnceCheck.

Variable env : Env.

Lemma check_payment_received_once (tx : Transaction) (w : World) :
  Once w -> stored_pending tx w ->
  Once (exec (check_payment_received tx) env w)
  /\ forall j, j <> tx_id tx ->
               stored j (exec (check_payment_received tx) env w) = stored j w.
Proof.
  intros Hon (d0 & Hst & Hpend).
  assert (Hzero : notify_count (tx_id tx) (trace w) = 0).
  { destruct (Hon (tx_id tx)) as [Hle Hconf].
    destruct (notify_count (tx_id tx) (trace w)) as [|n]; [reflexivity |].
    destruct Hconf as (d & Hd & Hc); [lia |].
    rewrite Hst in Hd. inversion Hd; subst. rewrite Hpend in Hc.
    discriminate. }
  assert (Hid : tx_id d0 = tx_id tx).
  { apply find_some in Hst as [_ Hq]. now apply String.eqb_eq in Hq. }
  destruct (check_payment_received_effect env tx w)
    as (w1 & E & _ & _ & Hcases).
  unfold exec. rewrite E. simpl.
  destruct Hcases as [(Ht & Hn & _) | (now & Ht & Hcases)].
  - split.
    + intros i. unfold notify_count, stored in *. rewrite Hn, Ht. apply Hon.
    + intros j _. unfold stored. now rewrite Ht.
  - assert (Hother : forall j, j <> tx_id tx -> stored j w1 = stored j w).
    { intros j Hj. unfold stored. rewrite Ht.
      now apply find_update_first_other. }
    assert (Hsame : stored (tx_id tx) w1
                    = Some (set_status_confirmed_at confirmed now d0)).
    { unfold stored in *. rewrite Ht, find_update_first_same, Hst.
      reflexivity. }
    split; [| assumption].
    intros i. destruct (String.eqb_spec i (tx_id tx)) as [-> | Hi].
    + destruct Hcases as [(Hn & _) | (Hn & _)];
        unfold notify_count in *; rewrite Hn.
      * rewrite Hzero. split; [lia | intros; lia].
      * rewrite Hsame. simpl. rewrite Hid, String.eqb_refl, Hzero.
        split; [lia |]. intros _. eexists. split; reflexivity.
    + assert (Hcount : notify_count i (trace w1) = notify_count i (trace w)).
      { destruct Hcases as [(Hn & _) | (Hn & _)];
          unfold notify_count; rewrite Hn; [reflexivity |].
        rewrite Hsame. simpl. rewrite Hid.
        destruct (String.eqb_spec (tx_id tx) i); [congruence | reflexivity]. }
      rewrite Hcount, (Hother i Hi). apply Hon.
Qed.

(** A scan over documents of distinct ids, each read as pending. *)
Lemma for_each_check_once (l : list Transaction) (w : World) :
  NoDup (map tx_id l) ->
  (forall tx, In tx l -> stored_pending tx w) ->
  Once w ->
  Once (exec (for_each l check_payment_received) env w).
Proof.
  revert w. induction l as [|tx l IH]; intros w Hnd Hg Hon; [exact Hon |].
  simpl. rewrite exec_bind.
  destruct (check_payment_received_effect env tx w) as (w1 & E & _).
  destruct (check_payment_received_once tx w Hon (Hg tx (or_introl eq_refl)))
    as [Hon1 Hother].
  unfold exec in Hon1, Hother. rewrite E in *. simpl in *.
  inversion Hnd as [|? ? Hnotin Hnd']; subst.
  apply IH; [assumption | | assumption].
  intros tx' Hin. destruct (Hg tx' (or_intror Hin)) as (d & Hd & Hp).
  exists d. split; [| assumption].
  rewrite Hother; [assumption |].
  intros Heq. apply Hnotin. rewrite <- Heq. now apply in_map.
Qed.

End OnceCheck.

Lemma keeps_weaken (env : Env) (R1 R2 : World -> World -> Prop) {A} (m : M A) :
  (forall w w', R1 w w' -> R2 w w') -> keeps env R1 m -> keeps env R2 m.
Proof. intros H Hm w. apply H, Hm. Qed.

Lemma quiet_refl (w : World) : quiet w w.
Proof. repeat split. lia. Qed.

Lemma quiet_trans (w1 w2 w3 : World) : quiet w1 w2 -> quiet w2 w3 -> quiet w1 w3.
Proof.
  intros (Ht & Hr & Hk) (Ht' & Hr' & Hk'). repeat split; try congruence. lia.
Qed.

Lemma grows_refl (w : World) : grows w w.
Proof. split; [reflexivity | lia]. Qed.

Lemma grows_trans (w1 w2 w3 : World) : grows w1 w2 -> grows w2 w3 -> grows w1 w3.
Proof. intros (Hi & Hk) (Hi' & Hk'). split; [congruence | lia]. Qed.

Section QuietRoutes.

Variable env : Env.

Lemma keeps_quiet_next_tick : keeps env quiet next_tick.
Proof. intros w. repeat split. simpl. lia. Qed.

Lemma keeps_quiet_put_merchants (l : list Merchant) :
  keeps env quiet (put_merchants l).
Proof. intros w. repeat split. simpl. lia. Qed.

Lemma keeps_grows_next_tick : keeps env grows next_tick.
Proof. intros w. split; [reflexivity | simpl; lia]. Qed.

Lemma keeps_grows_emit (e : Event) : keeps env grows (emit e).
Proof. intros w. split; [reflexivity | simpl; lia]. Qed.

Lemma keeps_grows_update_one (i s : string) (now : Z) :
  keeps env grows
    (update_one (fun d => tx_id d =? i) (set_status_confirmed_at s now)).
Proof.
  intros w. unfold exec, update_one. unfold_m. simpl.
  destruct (db_call env (tick w)); simpl; (split; [| simpl; lia]);
    [| reflexivity].
  unfold ids. simpl. apply map_tx_id_update_first.
Qed.

End QuietRoutes.

Ltac quiet_split :=
  pose proof quiet_refl as Hrefl;
  pose proof quiet_trans as Htrans;
  keeps_split
    ltac:(first [ apply keeps_quiet_next_tick
                | apply keeps_quiet_put_merchants ]).

Ltac grows_split :=
  pose proof grows_refl as Hrefl;
  pose proof grows_trans as Htrans;
  keeps_split
    ltac:(first [ apply keeps_grows_next_tick
                | apply keeps_grows_emit
                | apply keeps_grows_update_one ]).

Section QuietRoutes2.

Variable env : Env.

Lemma keeps_quiet_authenticate (k : string) :
  keeps env quiet (authenticate_merchant k).
Proof. unfold authenticate_merchant. quiet_split. Qed.

Lemma keeps_quiet_get_payment (payment_id : string) (m : Merchant) :
  keeps env quiet (get_payment payment_id m).
Proof. unfold get_payment. quiet_split. Qed.

Lemma keeps_quiet_list_payments (status : option string) (limit offset : nat)
  (m : Merchant) :
  keeps env quiet (list_payments status limit offset m).
Proof. unfold list_payments. quiet_split. Qed.

Lemma keeps_quiet_create_merchant (name webhook_url admin_key : string) :
  keeps env quiet (create_merchant name webhook_url admin_key).
Proof. unfold create_merchant. quiet_split. Qed.

Lemma keeps_grows_check (tx : Transaction) :
  keeps env grows (check_payment_received tx).
Proof.
  unfold check_payment_received, send_webhook_to_merchant. grows_split.
Qed.

Lemma keeps_grows_listener_iteration : keeps env grows listener_iteration.
Proof.
  unfold listener_iteration. grows_split.
  apply keeps_for_each; try assumption.
  intros tx _. apply keeps_grows_check.
Qed.

End QuietRoutes2.

(** ** Creating a payment *)

Lemma create_payment_effect (env : Env) (req : PaymentRequest) (m : Merchant)
  (w : World) :
  create_payment req m env w =
  match secret_key_error env with
  | Some e =>
      (Raise e, mkWorld (transactions w) (merchants w) (1 + tick w) (trace w))
  | None =>
      match db_call env (3 + tick w) with
      | Ok _ =>
          (Ok (mkPaymentResponse true (new_payment env (tick w) req)),
           mkWorld (transactions w ++ [new_transaction env (tick w) req m])
             (merchants w) (4 + tick w) (trace w))
      | Raise e =>
          (Raise e,
           mkWorld (transactions w) (merchants w) (4 + tick w) (trace w))
      end
  end.
Proof.
  unfold create_payment. unfold_m. simpl.
  destruct (secret_key_error env); simpl; [reflexivity |].
  destruct (db_call env (S (S (S (tick w))))); reflexivity.
Qed.

(** ** The listener and the invariant of a sequential run *)

Lemma Once_ext (w w' : World) :
  transactions w' = transactions w ->
  notified (trace w') = notified (trace w) ->
  Once w -> Once w'.
Proof.
  intros Ht Hn H i. unfold notify_count, stored. rewrite Ht, Hn. apply H.
Qed.

Lemma Fresh_grows (env : Env) (w w' : World) :
  grows w w' -> Fresh env w -> Fresh env w'.
Proof.
  unfold grows, ids, Fresh. intros [Hi Hk] H.
  rewrite Forall_forall in *. intros d Hd.
  assert (Hin : In (tx_id d) (map tx_id (transactions w))).
  { rewrite <- Hi. now apply in_map. }
  apply in_map_iff in Hin as (d0 & Hid & Hd0).
  destruct (H d0 Hd0) as (t & Ht & Hu). exists t. split; [lia | congruence].
Qed.

Lemma quiet_sound (env : Env) (w w' : World) :
  quiet w w' -> keeps_sound env w w'.
Proof.
  intros (Ht & Hr & Hk) (Hu & Ho & Hf). split; [| split].
  - unfold Uniq, ids in *. now rewrite Ht.
  - apply (Once_ext w); [assumption | now rewrite Hr | assumption].
  - apply (Fresh_grows env w); [| assumption].
    split; [unfold ids; now rewrite Ht | assumption].
Qed.

Section SoundRun.

Variable env : Env.
Hypothesis uuid_ok : collision_free env.

Lemma for_each_check_ok (l : list Transaction) (w : World) :
  exists w', for_each l check_payment_received env w = (Ok tt, w').
Proof.
  revert w. induction l as [|tx l IH]; intros w; simpl.
  - eexists. reflexivity.
  - destruct (check_payment_received_effect env tx w) as (w1 & E & _).
    unfold bind. rewrite E. apply IH.
Qed.

Lemma listener_iteration_once (w : World) :
  Uniq w -> Once w -> Once (exec listener_iteration env w).
Proof.
  intros Hu Ho. unfold exec, listener_iteration. unfold_m. simpl.
  destruct (db_call env (tick w)) as [[]|e]; simpl.
  - set (w0 := mkWorld (transactions w) (merchants w) (S (tick w)) (trace w)).
    set (l := to_list 100 (filter (fun d => tx_status d =? pending)
                             (transactions w))).
    assert (Ho1 : Once (exec (for_each l check_payment_received) env w0)).
    { apply for_each_check_once.
      - apply NoDup_ids_to_list, NoDup_ids_filter. exact Hu.
      - intros tx Hin. apply In_firstn in Hin.
        apply filter_In in Hin as [Hin Hp]. exists tx. split.
        + unfold stored. simpl. now apply find_by_id_unique.
        + now apply String.eqb_eq in Hp.
      - apply (Once_ext w); [reflexivity | reflexivity | assumption]. }
    destruct (for_each_check_ok l w0) as (w1 & E).
    unfold exec in Ho1. rewrite E in *. simpl in *.
    apply (Once_ext w1); [reflexivity | reflexivity | assumption].
  - apply (Once_ext w); [reflexivity | reflexivity | assumption].
Qed.

Lemma keeps_sound_listener_iteration :
  keeps env (keeps_sound env) listener_iteration.
Proof.
  intros w (Hu & Ho & Hf).
  pose proof (keeps_grows_listener_iteration env w) as Hg.
  split; [| split].
  - unfold Uniq. destruct Hg as [Hi _]. rewrite Hi. exact Hu.
  - now apply listener_iteration_once.
  - now apply (Fresh_grows env w).
Qed.

Lemma keeps_sound_create_payment (req : PaymentRequest) (m : Merchant) :
  keeps env (keeps_sound env) (create_payment req m).
Proof.
  intros w (Hu & Ho & Hf). unfold exec. rewrite create_payment_effect.
  destruct (secret_key_error env).
  { apply (quiet_sound env w); [| split; [| split]; assumption].
    repeat split. simpl. lia. }
  destruct (db_call env (3 + tick w)); simpl.
  - assert (Hnew : ~ In (uuid4_str env (S (tick w))) (ids w)).
    { intros Hin. apply in_map_iff in Hin as (d & Hid & Hd).
      unfold Fresh in Hf. rewrite Forall_forall in Hf.
      destruct (Hf d Hd) as (t & Ht & Hu').
      assert (t = S (tick w)) by (apply uuid_ok; congruence). lia. }
    split; [| split].
    + unfold Uniq, ids in *. simpl. rewrite map_app. simpl.
      apply NoDup_app. repeat split.
      * exact Hu.
      * constructor; [simpl; tauto | constructor].
      * intros x Hx [<- | []]. now apply Hnew.
    + intros i. unfold notify_count, stored. simpl. split; [apply Ho |].
      intros H. destruct (Ho i) as [_ Hc]. destruct (Hc H) as (d & Hd & Hs).
      exists d. split; [| assumption]. now apply find_app_some.
    + unfold Fresh in *. simpl. apply Forall_app. split.
      * eapply Forall_impl; [| exact Hf].
        simpl. intros d (t & Ht & Hid). exists t. split; [lia | assumption].
      * constructor; [| constructor].
        exists (S (tick w)). split; [lia | reflexivity].
  - apply (quiet_sound env w); [| split; [| split]; assumption].
    repeat split. simpl. lia.
Qed.

Lemma keeps_sound_serve (r : Request) : keeps env (keeps_sound env) (serve r).
Proof.
  assert (Hrefl : forall w, keeps_sound env w w) by (intros w H; exact H).
  assert (Htrans : forall w1 w2 w3, keeps_sound env w1 w2 ->
                     keeps_sound env w2 w3 -> keeps_sound env w1 w3)
    by (unfold keeps_sound; auto).
  unfold serve, post_api_payments, get_api_payment, get_api_payments.
  destruct r;
    keeps_split
      ltac:(first
        [ apply keeps_sound_create_payment
        | apply keeps_sound_listener_iteration
        | apply (keeps_weaken env quiet); [apply quiet_sound |];
          first [ apply keeps_quiet_authenticate
                | apply keeps_quiet_get_payment
                | apply keeps_quiet_list_payments
                | apply keeps_quiet_create_merchant ] ]).
Qed.

Lemma Sound_serve_all (rs : list Request) (w : World) :
  Sound env w -> Sound env (exec (serve_all rs) env w).
Proof.
  apply (keeps_for_each env (keeps_sound env)).
  - intros w0 H. exact H.
  - unfold keeps_sound. auto.
  - intros r _. apply keeps_sound_serve.
Qed.

End SoundRun.

(** A store without payments and without history. *)
Lemma Sound_fresh_world (env : Env) (w : World) :
  transactions w = [] -> trace w = [] -> Sound env w.
Proof.
  intros Ht Hr. split; [| split].
  - unfold Uniq, ids. rewrite Ht. constructor.
  - intros i. unfold notify_count. rewrite Hr. simpl.
    split; [lia | intros; lia].
  - unfold Fresh. rewrite Ht. constructor.
Qed.

(** ** The scenario environment *)

Lemma nat_str_inj (n n' : nat) : nat_str n = nat_str n' -> n = n'.
Proof.
  unfold nat_str. intros H. apply Unsigned.to_uint_inj.
  assert (H' : Some (Nat.to_uint n) = Some (Nat.to_uint n')).
  { rewrite <- !NilEmpty.usu. now rewrite H. }
  now inversion H'.
Qed.

Lemma demo_env_collision_free (accounts : list string)
  (ui_amount : option float) :
  collision_free (demo_env accounts ui_amount).
Proof.
  intros t t' H. simpl in H. apply nat_str_inj. now inversion H.
Qed.

(** C1 (as the code has it): the listener hands a document to the confirm
    step only when a scan read it as pending, so in a sequential run of the
    service (requests and listener turns one after another, ids never
    repeating) the notifier is invoked at most once per payment id, and only
    for a record that the store holds as confirmed. *)
Theorem notifier_invoked_at_most_once (env : Env) (rs : list Request)
  (w : World) (i : string) :
  collision_free env ->
  Sound env w ->
  let w' := exec (serve_all rs) env w in
  notify_count i (trace w') <= 1
  /\ (1 <= notify_count i (trace w') ->
      exists d, stored i w' = Some d /\ tx_status d = confirmed).
Proof.
  intros Hfree Hs w'.
  destruct (Sound_serve_all env Hfree rs w Hs) as (_ & Ho & _).
  apply Ho.
Qed.

(** C1 as stated fails: the confirm step has no guard on the stored status.
    Run a second time on the same document, it finds the record confirmed,
    rewrites [confirmed_at] and invokes the notifier again. *)
Lemma confirm_step_repeats_notification :
  let env := demo_env ["account-1"] (Some 10%float) in
  let w1 := exec (check_payment_received order_tx) env order_world in
  let w2 := exec (check_payment_received order_tx) env w1 in
  option_map tx_status (stored "uuid-1" order_world) = Some pending
  /\ option_map tx_status (stored "uuid-1" w1) = Some confirmed
  /\ notify_count "uuid-1" (trace w1) = 1
  /\ option_map tx_status (stored "uuid-1" w2) = Some confirmed
  /\ notify_count "uuid-1" (trace w2) = 2
  /\ option_map tx_confirmed_at (stored "uuid-1" w1) = Some (Some 1700000000007000%Z)
  /\ option_map tx_confirmed_at (stored "uuid-1" w2) = Some (Some 1700000000016000%Z).
Proof. vm_compute. repeat split. Qed.

(** ** What the ledger shows and what the check does with it *)

Section CheckOutcome.

Variable env : Env.

(** What a check of a stored document does, from what the ledger shows and
    from what the store answers to the update and to the re-read: it
    confirms the document when the observation is sufficient and the update
    goes through, and invokes the notifier when the re-read goes through
    too; on an insufficient observation it changes and reports nothing. *)
Lemma check_payment_received_outcome (tx : Transaction) (w : World)
  (obs : Observation) :
  valid_public_key env (tx_wallet_address tx) = true ->
  observes env (tick w) (tx_wallet_address tx) obs ->
  stored (tx_id tx) w = Some tx ->
  let w' := exec (check_payment_received tx) env w in
  let d := set_status_confirmed_at confirmed (utcnow env (2 + tick w)) tx in
  if sufficient obs (tx_amount tx)
  then match db_call env (3 + tick w) with
       | Raise e =>
           transactions w' = transactions w
           /\ trace w' = EvPrint (check_error_line tx e) :: trace w
       | Ok _ =>
           stored (tx_id tx) w' = Some d
           /\ match db_call env (4 + tick w) with
              | Raise e =>
                  trace w' = EvPrint (check_error_line tx e) :: trace w
              | Ok _ => notified (trace w') = Some d :: notified (trace w)
              end
       end
  else transactions w' = transactions w /\ trace w' = trace w.
Proof.
  intros Hvalid Hobs Hst w' d. subst w' d.
  unfold exec, check_payment_received, check_error_line. unfold_m. simpl.
  rewrite Hvalid.
  destruct obs as [|b]; simpl in *.
  - rewrite Hobs. simpl. split; reflexivity.
  - destruct Hobs as (account & rest & Hacc & Hv & Hbal).
    rewrite Hacc. simpl. rewrite Hv. simpl. rewrite Hbal. simpl.
    destruct (ge_float b (tx_amount tx)) eqn:Hge; simpl;
      [| split; reflexivity].
    destruct (db_call env (S (S (S (tick w))))) as [[]|e]; simpl;
      [| split; reflexivity].
    assert (Hupd : find (fun x => tx_id x =? tx_id tx)
                     (update_first (fun x => tx_id x =? tx_id tx)
                        (set_status_confirmed_at confirmed
                           (utcnow env (S (S (tick w)))))
                        (transactions w))
                   = Some (set_status_confirmed_at confirmed
                             (utcnow env (S (S (tick w)))) tx)).
    { rewrite find_update_first_same. unfold stored in Hst. now rewrite Hst. }
    destruct (db_call env (S (S (S (S (tick w)))))) as [[]|e]; simpl.
    + rewrite Hupd.
      match goal with
      | |- context [send_webhook_to_merchant (Some ?d) env ?W] =>
          destruct (send_webhook_to_merchant_effect env d W)
            as (w1 & E & Ht & _ & Hn & _); rewrite E
      end.
      simpl in *. split; [| exact Hn].
      unfold stored. rewrite Ht. exact Hupd.
    + split; [exact Hupd | reflexivity].
Qed.

(** A check of a document for which the ledger never shows enough leaves
    the store and the notifier alone. *)
Lemma check_payment_received_insufficient (d : Transaction) (w : World) :
  never_sufficient env d ->
  let w' := exec (check_payment_received d) env w in
  transactions w' = transactions w
  /\ notified (trace w') = notified (trace w)
  /\ posted (trace w') = posted (trace w).
Proof.
  intros Hnever. unfold exec, check_payment_received. unfold_m. simpl.
  destruct (valid_public_key env (tx_wallet_address d)); simpl;
    [| repeat split].
  specialize (Hnever (tick w)).
  destruct (get_token_accounts_by_owner env (tick w) (tx_wallet_address d)
              USDC_MINT) as [[|account rest]|e]; simpl; try (repeat split).
  all: destruct (valid_public_key env account); simpl; try reflexivity.
  all: specialize (Hnever (S (tick w)));
    destruct (get_token_account_balance env (S (tick w)) account)
      as [[b|]|e]; simpl; try reflexivity;
    rewrite Hnever; reflexivity.
Qed.

End CheckOutcome.

Section PollCycles.

Variable env : Env.

Lemma listener_iteration_ok (w : World) :
  exists w', listener_iteration env w = (Ok tt, w').
Proof.
  unfold listener_iteration. unfold_m. simpl.
  destruct (db_call env (tick w)) as [[]|e]; simpl.
  - match goal with
    | |- context [for_each ?l check_payment_received env ?W] =>
        destruct (for_each_check_ok env l W) as (w1 & E); rewrite E
    end.
    eexists. reflexivity.
  - eexists. reflexivity.
Qed.

Lemma payment_listener_S (n : nat) (w : World) :
  exec (payment_listener (S n)) env w
  = exec (payment_listener n) env (exec listener_iteration env w).
Proof.
  destruct (listener_iteration_ok w) as (w1 & E).
  unfold exec. simpl. unfold bind. now rewrite E.
Qed.

Variable d : Transaction.
Hypothesis Hnever : never_sufficient env d.

(** A check of any document leaves [d] as it is stored and adds no
    notification for it, when every document of the id of [d] is [d]. *)
Lemma check_keeps_insufficient (tx : Transaction) (w : World) :
  (tx_id tx = tx_id d -> tx = d) ->
  stored (tx_id d) w = Some d ->
  let w' := exec (check_payment_received tx) env w in
  stored (tx_id d) w' = Some d
  /\ notify_count (tx_id d) (trace w') = notify_count (tx_id d) (trace w).
Proof.
  intros Hsame Hst w'. subst w'.
  destruct (String.eqb_spec (tx_id tx) (tx_id d)) as [Heq | Hneq].
  - rewrite (Hsame Heq).
    destruct (check_payment_received_insufficient env d w Hnever)
      as (Ht & Hn & _).
    unfold stored, notify_count in *. rewrite Ht, Hn. split; auto.
  - destruct (check_payment_received_effect env tx w)
      as (w1 & E & _ & _ & Hcases).
    unfold exec. rewrite E. simpl.
    destruct Hcases as [(Ht & Hn & _) | (now & Ht & Hcases)].
    + unfold stored, notify_count in *. rewrite Ht, Hn. split; auto.
    + assert (Hst1 : stored (tx_id d) w1 = Some d).
      { unfold stored in *. rewrite Ht, find_update_first_other; auto. }
      split; [assumption |].
      unfold notify_count.
      destruct Hcases as [(Hn & _) | (Hn & _)]; rewrite Hn; [reflexivity |].
      destruct (stored (tx_id tx) w1) as [d1|] eqn:Hd1; simpl; [| reflexivity].
      apply find_some in Hd1 as [_ Hq]. apply String.eqb_eq in Hq.
      destruct (String.eqb_spec (tx_id d1) (tx_id d)); [congruence | reflexivity].
Qed.

Lemma for_each_check_keeps_insufficient (l : list Transaction) (w : World) :
  (forall tx, In tx l -> tx_id tx = tx_id d -> tx = d) ->
  stored (tx_id d) w = Some d ->
  let w' := exec (for_each l check_payment_received) env w in
  stored (tx_id d) w' = Some d
  /\ notify_count (tx_id d) (trace w') = notify_count (tx_id d) (trace w).
Proof.
  revert w. induction l as [|tx l IH]; intros w Hl Hst; simpl.
  - split; [assumption | reflexivity].
  - rewrite exec_bind.
    destruct (check_keeps_insufficient tx w (Hl tx (or_introl eq_refl)) Hst)
      as [Hst1 Hn1].
    destruct (check_payment_received_effect env tx w) as (w1 & E & _).
    unfold exec in Hst1, Hn1. rewrite E in *. simpl in *.
    destruct (IH w1 (fun tx' H => Hl tx' (or_intror H)) Hst1) as [Hst2 Hn2].
    split; [assumption | congruence].
Qed.

Lemma listener_iteration_keeps_insufficient (w : World) :
  Uniq w -> stored (tx_id d) w = Some d ->
  let w' := exec listener_iteration env w in
  stored (tx_id d) w' = Some d
  /\ notify_count (tx_id d) (trace w') = notify_count (tx_id d) (trace w).
Proof.
  intros Hu Hst. unfold exec, listener_iteration. unfold_m. simpl.
  destruct (db_call env (tick w)) as [[]|e]; simpl; [| split; auto].
  match goal with
  | |- context [for_each ?l check_payment_received env ?W] =>
      destruct (for_each_check_ok env l W) as (w1 & E);
      destruct (for_each_check_keeps_insufficient l W) as [Hst1 Hn1];
      [| exact Hst |]
  end.
  - intros tx Hin Hid. apply In_firstn in Hin.
    apply filter_In in Hin as [Hin _].
    pose proof (find_by_id_unique _ tx Hu Hin) as Hfind.
    unfold stored in Hst. rewrite Hid, Hst in Hfind. now inversion Hfind.
  - unfold exec in Hst1, Hn1. rewrite E in *. simpl in *.
    split; assumption.
Qed.

Lemma payment_listener_keeps_insufficient (n : nat) (w : World) :
  Uniq w -> stored (tx_id d) w = Some d ->
  let w' := exec (payment_listener n) env w in
  stored (tx_id d) w' = Some d
  /\ notify_count (tx_id d) (trace w') = notify_count (tx_id d) (trace w).
Proof.
  revert w. induction n as [|n IH]; intros w Hu Hst.
  - split; [assumption | reflexivity].
  - cbv zeta. rewrite payment_listener_S.
    destruct (listener_iteration_keeps_insufficient w Hu Hst) as [Hst1 Hn1].
    destruct (IH (exec listener_iteration env w)) as [Hst2 Hn2].
    + unfold Uniq. destruct (keeps_grows_listener_iteration env w) as [Hi _].
      now rewrite Hi.
    + assumption.
    + split; [assumption | congruence].
Qed.

End PollCycles.

Section AfterConfirmation.

Variable env : Env.
Variable i : string.
Variable d : Transaction.
Hypothesis d_confirmed : tx_status d = confirmed.

(** A check of a document of another id leaves the document of id [i] and
    its notifications alone. *)
Lemma check_of_other_id (tx : Transaction) (w : World) :
  tx_id tx <> i ->
  stored i w = Some d ->
  let w' := exec (check_payment_received tx) env w in
  stored i w' = Some d
  /\ notify_count i (trace w') = notify_count i (trace w).
Proof.
  intros Hneq Hst w'. subst w'.
  destruct (check_payment_received_effect env tx w)
    as (w1 & E & _ & _ & Hcases).
  unfold exec. rewrite E. simpl.
  destruct Hcases as [(Ht & Hn & _) | (now & Ht & Hcases)].
  - unfold stored, notify_count in *. rewrite Ht, Hn. split; auto.
  - assert (Hst1 : stored i w1 = Some d).
    { unfold stored in *. rewrite Ht, find_update_first_other; auto. }
    split; [assumption |].
    unfold notify_count.
    destruct Hcases as [(Hn & _) | (Hn & _)]; rewrite Hn; [reflexivity |].
    destruct (stored (tx_id tx) w1) as [d1|] eqn:Hd1; simpl; [| reflexivity].
    apply find_some in Hd1 as [_ Hq]. apply String.eqb_eq in Hq.
    destruct (String.eqb_spec (tx_id d1) i); [congruence | reflexivity].
Qed.

Lemma for_each_check_of_other_ids (l : list Transaction) (w : World) :
  (forall tx, In tx l -> tx_id tx <> i) ->
  stored i w = Some d ->
  let w' := exec (for_each l check_payment_received) env w in
  stored i w' = Some d
  /\ notify_count i (trace w') = notify_count i (trace w).
Proof.
  revert w. induction l as [|tx l IH]; intros w Hl Hst; simpl.
  - split; [assumption | reflexivity].
  - rewrite exec_bind.
    destruct (check_of_other_id tx w (Hl tx (or_introl eq_refl)) Hst)
      as [Hst1 Hn1].
    destruct (check_payment_received_effect env tx w) as (w1 & E & _).
    unfold exec in Hst1, Hn1. rewrite E in *. simpl in *.
    destruct (IH w1 (fun tx' H => Hl tx' (or_intror H)) Hst1) as [Hst2 Hn2].
    split; [assumption | congruence].
Qed.

(** The listener scans pending documents only: with distinct ids, a turn
    neither touches a confirmed document nor invokes the notifier for it. *)
Lemma listener_iteration_skips_confirmed (w : World) :
  Uniq w -> stored i w = Some d ->
  let w' := exec listener_iteration env w in
  stored i w' = Some d
  /\ notify_count i (trace w') = notify_count i (trace w).
Proof.
  intros Hu Hst. unfold exec, listener_iteration. unfold_m. simpl.
  destruct (db_call env (tick w)) as [[]|e]; simpl; [| split; auto].
  match goal with
  | |- context [for_each ?l check_payment_received env ?W] =>
      destruct (for_each_check_ok env l W) as (w1 & E);
      destruct (for_each_check_of_other_ids l W) as [Hst1 Hn1];
      [| exact Hst |]
  end.
  - intros tx Hin Hid. apply In_firstn in Hin.
    apply filter_In in Hin as [Hin Hp]. apply String.eqb_eq in Hp.
    pose proof (find_by_id_unique _ tx Hu Hin) as Hfind.
    unfold stored in Hst. rewrite Hid, Hst in Hfind.
    inversion Hfind; subst. rewrite d_confirmed in Hp. discriminate.
  - unfold exec in Hst1, Hn1. rewrite E in *. simpl in *.
    split; assumption.
Qed.

Lemma payment_listener_skips_confirmed (n : nat) (w : World) :
  Uniq w -> stored i w = Some d ->
  let w' := exec (payment_listener n) env w in
  stored i w' = Some d
  /\ notify_count i (trace w') = notify_count i (trace w).
Proof.
  revert w. induction n as [|n IH]; intros w Hu Hst.
  - split; [assumption | reflexivity].
  - cbv zeta. rewrite payment_listener_S.
    destruct (listener_iteration_skips_confirmed w Hu Hst) as [Hst1 Hn1].
    destruct (IH (exec listener_iteration env w)) as [Hst2 Hn2].
    + unfold Uniq. destruct (keeps_grows_listener_iteration env w) as [Hi _].
      now rewrite Hi.
    + assumption.
    + split; [assumption | congruence].
Qed.

End AfterConfirmation.

(** C2 (as the code has it): a check of a stored pending payment for which
    the ledger answers confirms the record exactly when the observed balance
    is at least the requested amount and the store accepts the update, and
    invokes the notifier exactly when, in addition, the store answers the
    re-read of the record.  A record that a check confirmed is never handed
    to the notifier by a later scan, so a failed re-read leaves it confirmed
    and unnotified for good.  On an insufficient balance or on no token
    account the check changes and reports nothing; and while the ledger
    never shows enough, the record stays as it is, without any notification,
    through any number of poll cycles. *)
Theorem pending_confirmed_iff_balance_sufficient (env : Env) (tx : Transaction)
  (w : World) (obs : Observation) :
  valid_public_key env (tx_wallet_address tx) = true ->
  observes env (tick w) (tx_wallet_address tx) obs ->
  stored (tx_id tx) w = Some tx ->
  tx_status tx = pending ->
  let w' := exec (check_payment_received tx) env w in
  (option_map tx_status (stored (tx_id tx) w') = Some confirmed
   <-> sufficient obs (tx_amount tx) = true
       /\ db_call env (3 + tick w) = Ok tt)
  /\ (notify_count (tx_id tx) (trace w')
      = S (notify_count (tx_id tx) (trace w))
      <-> sufficient obs (tx_amount tx) = true
          /\ db_call env (3 + tick w) = Ok tt
          /\ db_call env (4 + tick w) = Ok tt)
  /\ (notify_count (tx_id tx) (trace w')
      = S (notify_count (tx_id tx) (trace w))
      \/ notified (trace w') = notified (trace w))
  /\ (Uniq w ->
      option_map tx_status (stored (tx_id tx) w') = Some confirmed ->
      forall n,
        let wn := exec (payment_listener n) env w' in
        option_map tx_status (stored (tx_id tx) wn) = Some confirmed
        /\ notify_count (tx_id tx) (trace wn)
           = notify_count (tx_id tx) (trace w'))
  /\ (sufficient obs (tx_amount tx) = false ->
      transactions w' = transactions w /\ trace w' = trace w)
  /\ (Uniq w -> never_sufficient env tx ->
      forall n,
        let wn := exec (payment_listener n) env w in
        stored (tx_id tx) wn = Some tx
        /\ notify_count (tx_id tx) (trace wn)
           = notify_count (tx_id tx) (trace w)).
Proof.
  intros Hvalid Hobs Hst Hpend w'.
  pose proof (check_payment_received_outcome env tx w obs Hvalid Hobs Hst)
    as Hout.
  cbv zeta in Hout. fold w' in Hout.
  assert (Hlater : Uniq w ->
            option_map tx_status (stored (tx_id tx) w') = Some confirmed ->
            forall n,
              let wn := exec (payment_listener n) env w' in
              option_map tx_status (stored (tx_id tx) wn) = Some confirmed
              /\ notify_count (tx_id tx) (trace wn)
                 = notify_count (tx_id tx) (trace w')).
  { intros Hu Hc n.
    destruct (stored (tx_id tx) w') as [d|] eqn:Hd; [| discriminate].
    simpl in Hc. inversion Hc as [Hs].
    assert (Hu' : Uniq w').
    { unfold Uniq. destruct (keeps_grows_check env tx w) as [Hi _].
      fold w' in Hi. now rewrite Hi. }
    destruct (payment_listener_skips_confirmed env (tx_id tx) d Hs n w' Hu' Hd)
      as [Hst' Hn'].
    cbv zeta. rewrite Hst'. simpl. rewrite Hs. split; [reflexivity | exact Hn']. }
  assert (Hcycles : Uniq w -> never_sufficient env tx ->
            forall n,
              let wn := exec (payment_listener n) env w in
              stored (tx_id tx) wn = Some tx
              /\ notify_count (tx_id tx) (trace wn)
                 = notify_count (tx_id tx) (trace w)).
  { intros Hu Hnever n. now apply payment_listener_keeps_insufficient. }
  assert (Hpending : transactions w' = transactions w ->
            option_map tx_status (stored (tx_id tx) w') <> Some confirmed).
  { intros Ht. unfold stored. rewrite Ht. unfold stored in Hst. rewrite Hst.
    simpl. rewrite Hpend. discriminate. }
  split; [| split; [| split; [| split; [exact Hlater | split;
    [| exact Hcycles]]]]].
  - destruct (sufficient obs (tx_amount tx)).
    + destruct (db_call env (3 + tick w)) as [[]|e].
      * destruct Hout as [Hd _]. rewrite Hd. simpl. tauto.
      * destruct Hout as [Ht _]. split; [intros H; now apply Hpending in H |].
        intros [_ H]. discriminate.
    + destruct Hout as [Ht _]. split; [intros H; now apply Hpending in H |].
      intros [H _]. discriminate.
  - unfold notify_count. destruct (sufficient obs (tx_amount tx)).
    + destruct (db_call env (3 + tick w)) as [[]|e].
      * destruct Hout as [_ Hn].
        destruct (db_call env (4 + tick w)) as [[]|e].
        -- rewrite Hn. simpl. rewrite String.eqb_refl. tauto.
        -- rewrite Hn. simpl. split; [lia |]. intros (_ & _ & H). discriminate.
      * destruct Hout as [_ Hr]. rewrite Hr. simpl.
        split; [lia |]. intros (_ & H & _). discriminate.
    + destruct Hout as [_ Hr]. rewrite Hr.
      split; [lia |]. intros (H & _). discriminate.
  - unfold notify_count. destruct (sufficient obs (tx_amount tx)).
    + destruct (db_call env (3 + tick w)) as [[]|e].
      * destruct Hout as [_ Hn].
        destruct (db_call env (4 + tick w)) as [[]|e].
        -- left. rewrite Hn. simpl. now rewrite String.eqb_refl.
        -- right. now rewrite Hn.
      * destruct Hout as [_ Hr]. right. now rewrite Hr.
    + destruct Hout as [_ Hr]. right. now rewrite Hr.
  - intros Hs. rewrite Hs in Hout. exact Hout.
Qed.

(** C2 as stated fails: the balance covers the amount and the record is
    confirmed, but the store fails at the re-read that follows the update,
    so the notifier is not invoked; the record being confirmed, no later
    scan picks it up, and five more poll cycles bring no notification. *)
Lemma confirmed_payment_is_never_notified :
  let env := store_fails_at 8 (demo_env ["account-1"] (Some 10%float)) in
  let w1 := exec (check_payment_received order_tx) env order_world in
  let w6 := exec (payment_listener 5) env w1 in
  sufficient (Balance 10) (tx_amount order_tx) = true
  /\ option_map tx_status (stored "uuid-1" order_world) = Some pending
  /\ option_map tx_status (stored "uuid-1" w1) = Some confirmed
  /\ notified (trace w1) = []
  /\ printed (trace w1)
     = ["Error checking payment for uuid-1: connection reset"]
  /\ option_map tx_status (stored "uuid-1" w6) = Some confirmed
  /\ notified (trace w6) = []
  /\ posted (trace w6) = [].
Proof. vm_compute. repeat split. Qed.

(** ** The comparison of amounts *)

(** The number of binary digits of a mantissa. *)
Lemma digits2_pos_bounds (m : positive) :
  (2 ^ (Z.pos (digits2_pos m) - 1) <= Z.pos m < 2 ^ Z.pos (digits2_pos m))%Z.
Proof.
  induction m as [m IH | m IH |]; cbn [digits2_pos].
  - rewrite Pos2Z.inj_succ.
    replace (Z.succ (Z.pos (digits2_pos m)) - 1)%Z
      with (Z.succ (Z.pos (digits2_pos m) - 1))%Z by lia.
    rewrite !Z.pow_succ_r by lia. lia.
  - rewrite Pos2Z.inj_succ.
    replace (Z.succ (Z.pos (digits2_pos m)) - 1)%Z
      with (Z.succ (Z.pos (digits2_pos m) - 1))%Z by lia.
    rewrite !Z.pow_succ_r by lia. lia.
  - simpl. lia.
Qed.

(** A finite binary64 number has at most 53 digits, and exactly 53 above
    the smallest exponent. *)
Lemma bounded_canonical (m : positive) (e : Z) :
  bounded prec emax m e = true ->
  (-1074 <= e)%Z
  /\ (Z.pos (digits2_pos m) <= 53)%Z
  /\ ((-1074 < e)%Z -> Z.pos (digits2_pos m) = 53%Z).
Proof.
  unfold bounded, canonical_mantissa, fexp, emin, prec, emax.
  intros H. apply andb_prop in H as [H _]. apply Z.eqb_eq in H. lia.
Qed.

(** Of two finite binary64 numbers, the one of smaller exponent is the
    smaller. *)
Lemma canonical_exponent_order (m1 m2 : positive) (e1 e2 : Z) :
  bounded prec emax m1 e1 = true -> bounded prec emax m2 e2 = true ->
  (e1 < e2)%Z ->
  (scaled m1 e1 < scaled m2 e2)%Z.
Proof.
  unfold scaled. intros H1 H2 Hlt.
  apply bounded_canonical in H1 as (Hmin1 & Hd1 & _).
  apply bounded_canonical in H2 as (Hmin2 & _ & Hd2).
  assert (Hd : Z.pos (digits2_pos m2) = 53%Z) by (apply Hd2; lia).
  assert (He1 : (0 <= e1 + 1074)%Z) by lia.
  assert (He2 : (0 <= e2 - e1)%Z) by lia.
  assert (Hsum : (e2 + 1074 = (e1 + 1074) + (e2 - e1))%Z) by lia.
  assert (Hq : (2 ^ 1 <= 2 ^ (e2 - e1))%Z)
    by (apply Z.pow_le_mono_r; lia).
  assert (Hm1 : (Z.pos m1 < 2 ^ 53)%Z).
  { eapply Z.lt_le_trans; [apply digits2_pos_bounds |].
    apply Z.pow_le_mono_r; lia. }
  assert (Hm2 : (2 ^ 52 <= Z.pos m2)%Z).
  { pose proof (digits2_pos_bounds m2) as [H _]. now rewrite Hd in H. }
  rewrite Hsum, (Z.pow_add_r 2 (e1 + 1074) (e2 - e1)) by assumption.
  assert (Hp : (0 < 2 ^ (e1 + 1074))%Z) by (now apply Z.pow_pos_nonneg).
  set (p := (2 ^ (e1 + 1074))%Z) in *.
  set (q := (2 ^ (e2 - e1))%Z) in *.
  change (2 ^ 1)%Z with 2%Z in Hq.
  change (2 ^ 53)%Z with 9007199254740992%Z in Hm1.
  change (2 ^ 52)%Z with 4503599627370496%Z in Hm2.
  assert (Hstep : (Z.pos m1 * p < 2 * Z.pos m2 * p)%Z) by nia.
  assert (Hstep' : (2 * Z.pos m2 * p <= Z.pos m2 * (p * q))%Z) by nia.
  lia.
Qed.

Lemma finite_ulps_pos (m : positive) (e : Z) :
  bounded prec emax m e = true -> (0 < scaled m e)%Z.
Proof.
  unfold scaled. intros H. apply bounded_canonical in H as (Hmin & _).
  apply Z.mul_pos_pos; [lia | apply Z.pow_pos_nonneg; lia].
Qed.

Lemma compare_cont_Eq (m1 m2 : positive) :
  Pos.compare_cont Eq m1 m2 = (Z.pos m1 ?= Z.pos m2)%Z.
Proof. reflexivity. Qed.

(** The order of binary64 is the order of the exact values. *)
Lemma SFcompare_ulps (x y : spec_float) (nx ny : Z) :
  valid_binary x = true -> valid_binary y = true ->
  SFulps x = Some nx -> SFulps y = Some ny ->
  SFcompare x y = Some (nx ?= ny)%Z.
Proof.
  intros Hx Hy Ex Ey.
  destruct x as [sx | sx | | sx mx ex], y as [sy | sy | | sy my ey];
    unfold SFulps in Ex, Ey; try discriminate;
    inversion Ex; inversion Ey; subst; clear Ex Ey;
    unfold SFcompare, valid_binary in *.
  - reflexivity.
  - pose proof (finite_ulps_pos my ey Hy) as Hpy.
    destruct sy; f_equal; symmetry;
      [apply Z.compare_gt_iff | apply Z.compare_lt_iff]; lia.
  - pose proof (finite_ulps_pos mx ex Hx) as Hpx.
    destruct sx; f_equal; symmetry;
      [apply Z.compare_lt_iff | apply Z.compare_gt_iff]; lia.
  - pose proof (finite_ulps_pos mx ex Hx) as Hpx.
    pose proof (finite_ulps_pos my ey Hy) as Hpy.
    assert (Hsame : ex = ey ->
              (scaled mx ex ?= scaled my ey)%Z = (Z.pos mx ?= Z.pos my)%Z).
    { intros ->. unfold scaled.
      assert (Hp : (0 < 2 ^ (ey + 1074))%Z).
      { apply bounded_canonical in Hy as (Hmin & _).
        apply Z.pow_pos_nonneg; lia. }
      set (p := (2 ^ (ey + 1074))%Z) in *.
      destruct (Z.compare_spec (Z.pos mx) (Z.pos my)) as [E | L | G].
      - rewrite E. apply Z.compare_refl.
      - apply Z.compare_lt_iff. nia.
      - apply Z.compare_gt_iff. nia. }
    assert (Hlt : (ex < ey)%Z -> (scaled mx ex < scaled my ey)%Z)
      by (apply canonical_exponent_order; assumption).
    assert (Hgt : (ey < ex)%Z -> (scaled my ey < scaled mx ex)%Z)
      by (apply canonical_exponent_order; assumption).
    rewrite compare_cont_Eq.
    destruct sx, sy.
    + destruct (Z.compare_spec ex ey) as [Heq | Hlt' | Hgt']; f_equal;
        symmetry.
      * rewrite Z.compare_opp, (Z.compare_antisym (scaled mx ex)).
        now rewrite (Hsame Heq).
      * apply Z.compare_gt_iff. specialize (Hlt Hlt'). lia.
      * apply Z.compare_lt_iff. specialize (Hgt ltac:(lia)). lia.
    + f_equal. symmetry. apply Z.compare_lt_iff. lia.
    + f_equal. symmetry. apply Z.compare_gt_iff. lia.
    + destruct (Z.compare_spec ex ey) as [Heq | Hlt' | Hgt']; f_equal;
        symmetry.
      * now apply Hsame.
      * apply Z.compare_lt_iff. now apply Hlt.
      * apply Z.compare_gt_iff. apply Hgt. lia.
Qed.

(** [usdc_amount >= amount] compares the exact values of the two floats. *)
Lemma ge_float_ulps (b a : float) (nb na : Z) :
  ulps b = Some nb -> ulps a = Some na ->
  ge_float b a = (na <=? nb)%Z.
Proof.
  intros Hb Ha. unfold ge_float. rewrite leb_spec. unfold SFleb.
  rewrite (SFcompare_ulps _ _ na nb (Prim2SF_valid a) (Prim2SF_valid b) Ha Hb).
  unfold Z.leb. destruct (na ?= nb)%Z; reflexivity.
Qed.

Lemma to_micro_mono (n n' : Z) : (n <= n')%Z -> (to_micro n <= to_micro n')%Z.
Proof.
  intros H. unfold to_micro.
  apply Z.div_le_mono; [apply Z.pow_pos_nonneg; lia |].
  apply Z.add_le_mono_r. apply Z.mul_le_mono_nonneg_l; lia.
Qed.

(** Where the two amounts differ at 6 decimals, the comparison of the
    floats is the comparison at 6 decimals. *)
Lemma ge_float_micro_units (b a : float) (mb ma : Z) :
  micro_units b = Some mb -> micro_units a = Some ma ->
  ((ma < mb)%Z -> ge_float b a = true)
  /\ ((mb < ma)%Z -> ge_float b a = false).
Proof.
  unfold micro_units. intros Hb Ha.
  destruct (ulps b) as [nb|] eqn:Eb; [| discriminate].
  destruct (ulps a) as [na|] eqn:Ea; [| discriminate].
  cbn [option_map] in Hb, Ha. inversion Hb. inversion Ha. subst.
  rewrite (ge_float_ulps b a nb na Eb Ea).
  split; intros H.
  - apply Z.leb_le. destruct (Z.le_gt_cases na nb) as [Hle | Hgt]; [exact Hle |].
    pose proof (to_micro_mono nb na ltac:(lia)). lia.
  - apply Z.leb_gt. destruct (Z.le_gt_cases na nb) as [Hle | Hgt]; [| exact Hgt].
    pose proof (to_micro_mono na nb Hle). lia.
Qed.

(** C4 (as the code has it): the sufficiency test of
    [check_payment_received] compares the two amounts as binary64 numbers,
    exactly and with no tolerance: a balance is sufficient when its value is
    not below the value of the amount, so a balance below it by one unit in
    the last place is refused.  This agrees with the exact comparison at 6
    decimals wherever balance and amount differ at 6 decimals; where they
    are equal at 6 decimals, the binary values decide.  With 10.00 requested
    and 9.999999 observed the payment is still pending after five poll
    cycles and the notifier was never invoked; with 10.00 observed one cycle
    confirms it. *)
Theorem balance_comparison_has_no_tolerance :
  (forall usdc_amount amount nb na,
     ulps usdc_amount = Some nb -> ulps amount = Some na ->
     sufficient (Balance usdc_amount) amount = (na <=? nb)%Z)
  /\ (forall usdc_amount amount mb ma,
        micro_units usdc_amount = Some mb -> micro_units amount = Some ma ->
        ((ma < mb)%Z -> sufficient (Balance usdc_amount) amount = true)
        /\ ((mb < ma)%Z -> sufficient (Balance usdc_amount) amount = false))
  /\ (forall amount, sufficient NoHoldings amount = false)
  /\ ge_float (next_down 10) 10 = false
  /\ micro_units 10 = Some 10000000%Z
  /\ micro_units 9.999999 = Some 9999999%Z
  /\ (let w := exec (payment_listener 5)
                 (demo_env ["account-1"] (Some 9.999999%float)) order_world in
      stored "uuid-1" w = Some order_tx
      /\ tx_status order_tx = pending
      /\ notified (trace w) = [])
  /\ (let w := exec (payment_listener 1)
                 (demo_env ["account-1"] (Some 10%float)) order_world in
      option_map tx_status (stored "uuid-1" w) = Some confirmed
      /\ notify_count "uuid-1" (trace w) = 1).
Proof.
  split; [intros b a nb na; apply ge_float_ulps |].
  split; [intros b a mb ma; apply ge_float_micro_units |].
  split; [reflexivity |].
  split; [vm_compute; reflexivity |].
  split; [vm_compute; reflexivity |].
  split; [vm_compute; reflexivity |].
  split; vm_compute; repeat split.
Qed.

(** C4 as stated fails: the comparison is not made at 6 decimals.  A
    payment asks for 0.1 + 0.2 as binary64 adds them, a valid amount; the
    ledger shows 0.3.  At 6 decimals both are 0.300000 and the exact decimal
    comparison holds, but the binary64 value of the balance is below that of
    the amount, and after five poll cycles the payment is still pending. *)
Lemma equal_at_six_decimals_is_refused :
  let amount := 0.30000000000000004%float in
  let balance := 0.3%float in
  let w := exec (payment_listener 5) (demo_env ["account-1"] (Some balance))
             dust_world in
  PrimFloat.eqb amount (0.1 + 0.2) = true
  /\ tx_amount dust_tx = amount
  /\ valid_payment_request (mkPaymentRequest amount "order-3" None) = true
  /\ micro_units balance = Some 300000%Z
  /\ micro_units amount = Some 300000%Z
  /\ exact_decimal_ge balance amount = Some true
  /\ ge_float balance amount = false
  /\ stored "uuid-3" w = Some dust_tx
  /\ tx_status dust_tx = pending
  /\ notified (trace w) = [].
Proof. vm_compute. repeat split. Qed.

(** ** The loop *)

Section Loop.

Variable env : Env.

Lemma for_each_check_slept (l : list Transaction) (w : World) :
  exists w',
    for_each l check_payment_received env w = (Ok tt, w')
    /\ slept (trace w') = slept (trace w).
Proof.
  revert w. induction l as [|tx l IH]; intros w; simpl.
  - eexists. split; reflexivity.
  - destruct (check_payment_received_effect env tx w) as (w1 & E & _ & Hs & _).
    unfold bind. rewrite E. destruct (IH w1) as (w2 & E2 & Hs2).
    exists w2. split; [assumption | congruence].
Qed.

(** One turn of the loop always completes: after a scan it sleeps 15, and
    when the fetch of the pending documents raises it prints the error and
    sleeps 30. *)
Lemma listener_iteration_sleeps (w : World) :
  exists w',
    listener_iteration env w = (Ok tt, w')
    /\ match db_call env (tick w) with
       | Ok _ =>
           exists evs, trace w' = EvSleep 15 :: evs
                       /\ slept evs = slept (trace w)
       | Raise e =>
           trace w' =
             EvSleep 30
             :: EvPrint ("Error in payment listener: " ++ exc_str e)
             :: trace w
       end.
Proof.
  unfold listener_iteration. unfold_m. simpl.
  destruct (db_call env (tick w)) as [[]|e]; simpl.
  - match goal with
    | |- context [for_each ?l check_payment_received env ?W] =>
        destruct (for_each_check_slept l W) as (w1 & E & Hs); rewrite E
    end.
    eexists. split; [reflexivity |]. simpl. eexists. split; [reflexivity |].
    exact Hs.
  - eexists. split; reflexivity.
Qed.

Lemma listener_iteration_one_sleep (w : World) :
  List.length (slept (trace (exec listener_iteration env w)))
  = S (List.length (slept (trace w))).
Proof.
  destruct (listener_iteration_sleeps w) as (w' & E & H).
  unfold exec. rewrite E. simpl.
  destruct (db_call env (tick w)).
  - destruct H as (evs & -> & Hs). simpl. now rewrite Hs.
  - rewrite H. reflexivity.
Qed.

Lemma payment_listener_runs (n : nat) (w : World) :
  exists w',
    payment_listener n env w = (Ok tt, w')
    /\ List.length (slept (trace w')) = n + List.length (slept (trace w)).
Proof.
  revert w. induction n as [|n IH]; intros w; simpl.
  - eexists. split; reflexivity.
  - pose proof (listener_iteration_one_sleep w) as H1.
    destruct (listener_iteration_ok env w) as (w1 & E).
    unfold exec in H1. rewrite E in H1. simpl in H1.
    unfold bind. rewrite E. destruct (IH w1) as (w2 & E2 & H2).
    exists w2. split; [assumption | lia].
Qed.

End Loop.

(** C7 (as the code has it): every turn of the listener completes.  The
    loop backs off, with the error printed and a sleep of 30 instead of 15,
    exactly when the fetch of the pending documents raises; an exception
    raised while a document is checked is caught and printed by that check,
    the scan goes on, and the turn ends with the ordinary sleep of 15.  So
    the loop goes through any number of turns, one sleep each.  With the
    ledger unreachable for three turns the pending record stays pending,
    each failure is printed, and the loop sleeps 15 three times; with the
    store unreachable it sleeps 30. *)
Theorem listener_sleeps_backs_off_and_survives (env : Env) (w : World) :
  (exists w',
     listener_iteration env w = (Ok tt, w')
     /\ match db_call env (tick w) with
        | Ok _ =>
            exists evs, trace w' = EvSleep 15 :: evs
                        /\ slept evs = slept (trace w)
        | Raise e =>
            trace w' =
              EvSleep 30
              :: EvPrint ("Error in payment listener: " ++ exc_str e)
              :: trace w
        end)
  /\ (forall tx w0,
        exists w1,
          check_payment_received tx env w0 = (Ok tt, w1)
          /\ slept (trace w1) = slept (trace w0))
  /\ (15 < 30)%Z
  /\ (forall n,
        exists wn,
          payment_listener n env w = (Ok tt, wn)
          /\ List.length (slept (trace wn))
             = n + List.length (slept (trace w)))
  /\ (let wd := exec (payment_listener 3)
                  (ledger_down (demo_env [] None)) order_world in
      stored "uuid-1" wd = Some order_tx
      /\ slept (trace wd) = [15; 15; 15]%Z
      /\ printed (trace wd) =
           [ "Error checking payment for uuid-1: timed out";
             "Error checking payment for uuid-1: timed out";
             "Error checking payment for uuid-1: timed out" ])
  /\ (let wd := exec (payment_listener 2)
                  (store_down (demo_env [] None)) order_world in
      slept (trace wd) = [30; 30]%Z
      /\ printed (trace wd) =
           [ "Error in payment listener: connection refused";
             "Error in payment listener: connection refused" ]).
Proof.
  split; [apply listener_iteration_sleeps |].
  split.
  { intros tx w0.
    destruct (check_payment_received_effect env tx w0) as (w1 & E & _ & Hs & _).
    now exists w1. }
  split; [reflexivity |].
  split; [intros n; apply payment_listener_runs |].
  split; vm_compute; repeat split.
Qed.

(** C7 as stated fails: an exception inside the batch gets no backoff.  The
    store fails at the update of a check: the check prints the error, the
    record stays pending, and the turn ends with the sleep of 15 of a turn
    without error. *)
Lemma failure_inside_a_check_gets_no_backoff :
  let env := store_fails_at 8 (demo_env ["account-1"] (Some 10%float)) in
  let w' := exec listener_iteration env order_world in
  db_call env 8 = Raise (Exception "connection reset")
  /\ printed (trace w')
     = ["Error checking payment for uuid-1: connection reset"]
  /\ slept (trace w') = [15%Z]
  /\ stored "uuid-1" w' = Some order_tx.
Proof. vm_compute. repeat split. Qed.

(** ** The notifier: containment and payload *)








(** ** Creating payments: duplicates *)

(** C3 (as the code has it): [create_payment] makes no lookup before it
    inserts, so what it answers is the same whatever the store already
    holds.  It answers exactly when the secret key of the new key pair can
    be read and the store accepts the insert: it has then appended one new
    pending document for the merchant and the payment id of the request and
    answers with its payment (the store keeps [created_at] to the
    millisecond).  Otherwise it raises what the key read or the store
    raised, and nothing is inserted. *)
Theorem create_payment_inserts_pending (env : Env) (req : PaymentRequest)
  (m : Merchant) (w : World) :
  (forall docs,
     fst (create_payment req m env
            (mkWorld docs (merchants w) (tick w) (trace w)))
     = fst (create_payment req m env w))
  /\ match secret_key_error env, db_call env (3 + tick w) with
     | None, Ok _ =>
         exists resp w' d,
           create_payment req m env w = (Ok resp, w')
           /\ transactions w' = (transactions w ++ [d])%list
           /\ tx_status d = pending
           /\ tx_confirmed_at d = None
           /\ tx_merchant_id d = m_merchant_id m
           /\ tx_payment_id d = req_payment_id req
           /\ tx_amount d = req_amount req
           /\ Payment_of d = bson_payment (pr_payment resp)
           /\ pay_payment_id (pr_payment resp) = req_payment_id req
           /\ pay_amount (pr_payment resp) = req_amount req
           /\ pay_status (pr_payment resp) = pending
     | Some e, _ | None, Raise e =>
         exists w',
           create_payment req m env w = (Raise e, w')
           /\ transactions w' = transactions w
     end.
Proof.
  split.
  - intros docs. rewrite !create_payment_effect. simpl.
    destruct (secret_key_error env); [reflexivity |].
    destruct (db_call env (S (S (S (tick w))))); reflexivity.
  - rewrite create_payment_effect.
    destruct (secret_key_error env); [eexists; split; reflexivity |].
    destruct (db_call env (3 + tick w)).
    + do 3 eexists. split; [reflexivity |]. repeat split.
    + eexists. split; reflexivity.
Qed.

(** C3 as stated fails: a request for a merchant and payment id that the
    store already holds never fails as a duplicate.  Where the secret key of
    a key pair can be read it is accepted, and the store then holds two
    documents for the pair; where it cannot, the request fails on the key
    read, exactly as a first request does. *)
Lemma create_payment_accepts_duplicate :
  let env := demo_env [] None in
  let same_pair d :=
    (tx_merchant_id d =? m_merchant_id shop)
    && (tx_payment_id d =? req_payment_id order_10) in
  List.length (filter same_pair (transactions order_world)) = 1
  /\ (exists resp w',
        create_payment order_10 shop env order_world = (Ok resp, w')
        /\ List.length (filter same_pair (transactions w')) = 2)
  /\ fst (create_payment order_10 shop (no_secret_key env) order_world)
     = Raise (Exception "'Keypair' object has no attribute 'secret_key'")
  /\ fst (create_payment order_10 shop (no_secret_key env) order_world)
     = fst (create_payment order_10 shop (no_secret_key env) shop_world).
Proof.
  split; [reflexivity |]. split; [| split; reflexivity].
  do 2 eexists. split; [vm_compute; reflexivity | reflexivity].
Qed.

(** ** Private keys and responses *)

Lemma find_map_same {A} (f : A -> A) (p : A -> bool) (l : list A) :
  (forall x, p (f x) = p x) ->
  find p (map f l) = option_map f (find p l).
Proof.
  intros Hp. induction l as [|x l IH]; simpl; [reflexivity |].
  rewrite Hp. destruct (p x); [reflexivity | exact IH].
Qed.

Lemma filter_map_same {A} (f : A -> A) (p : A -> bool) (l : list A) :
  (forall x, p (f x) = p x) ->
  filter p (map f l) = map f (filter p l).
Proof.
  intros Hp. induction l as [|x l IH]; simpl; [reflexivity |].
  rewrite Hp. destruct (p x); simpl; now rewrite IH.
Qed.

Lemma insert_desc_redact (d : Transaction) (l : list Transaction) :
  insert_desc (redact_tx d) (map redact_tx l) = map redact_tx (insert_desc d l).
Proof.
  induction l as [|x l IH]; simpl; [reflexivity |].
  destruct (tx_created_at x <? tx_created_at d)%Z; simpl;
    [reflexivity | now rewrite IH].
Qed.

Lemma sort_created_at_desc_redact (l : list Transaction) :
  sort_created_at_desc (map redact_tx l)
  = map redact_tx (sort_created_at_desc l).
Proof.
  induction l as [|x l IH]; simpl; [reflexivity |].
  now rewrite IH, insert_desc_redact.
Qed.

Lemma map_Payment_of_redact (l : list Transaction) :
  map Payment_of (map redact_tx l) = map Payment_of l.
Proof. rewrite map_map. apply map_ext. reflexivity. Qed.

Section Redaction.

Variable env : Env.
Variable w : World.

Lemma authenticate_merchant_redact (k : string) :
  authenticate_merchant k (redact_env env) (redact_world w)
  = match authenticate_merchant k env w with
    | (Ok m, w') => (Ok (redact_merchant m), redact_world w')
    | (Raise e, w') => (Raise e, redact_world w')
    end.
Proof.
  unfold authenticate_merchant. unfold_m. simpl.
  destruct (db_call env (tick w)) as [[]|e]; simpl; [| reflexivity].
  rewrite find_map_same by reflexivity.
  destruct (find _ (merchants w)); reflexivity.
Qed.

Lemma post_api_payments_redact (k : string) (req : PaymentRequest) :
  fst (post_api_payments k req env w)
  = fst (post_api_payments k req (redact_env env) (redact_world w)).
Proof.
  unfold post_api_payments, bind. rewrite authenticate_merchant_redact.
  destruct (authenticate_merchant k env w) as [[m|e] w1]; [| reflexivity].
  destruct (valid_payment_request req); [| reflexivity].
  rewrite !create_payment_effect. simpl.
  destruct (secret_key_error env); [reflexivity |].
  destruct (db_call env (S (S (S (tick w1))))); reflexivity.
Qed.

Lemma get_api_payment_redact (k payment_id : string) :
  fst (get_api_payment k payment_id env w)
  = fst (get_api_payment k payment_id (redact_env env) (redact_world w)).
Proof.
  unfold get_api_payment, bind. rewrite authenticate_merchant_redact.
  destruct (authenticate_merchant k env w) as [[m|e] w1]; [| reflexivity].
  unfold get_payment. unfold_m. simpl.
  destruct (db_call env (tick w1)) as [[]|e]; simpl; [| reflexivity].
  rewrite find_map_same by reflexivity.
  destruct (find _ (transactions w1)); reflexivity.
Qed.

Lemma get_api_payments_redact (k : string) (status : option string)
  (limit offset : nat) :
  fst (get_api_payments k status limit offset env w)
  = fst (get_api_payments k status limit offset (redact_env env)
           (redact_world w)).
Proof.
  unfold get_api_payments, bind. rewrite authenticate_merchant_redact.
  destruct (authenticate_merchant k env w) as [[m|e] w1]; [| reflexivity].
  unfold list_payments. unfold_m. simpl.
  destruct (db_call env (tick w1)) as [[]|e]; simpl; [| reflexivity].
  destruct (db_call env (S (tick w1))) as [[]|e]; simpl; [| reflexivity].
  assert (Hq : forall d, list_query status (redact_merchant m) (redact_tx d)
                         = list_query status m d) by reflexivity.
  rewrite !(filter_map_same redact_tx _ _ Hq).
  unfold to_list.
  rewrite sort_created_at_desc_redact, skipn_map, firstn_map,
    map_Payment_of_redact, length_map.
  reflexivity.
Qed.

Lemma create_merchant_redact (name webhook_url admin_key : string) :
  fst (create_merchant name webhook_url admin_key env w)
  = fst (create_merchant name webhook_url admin_key (redact_env env)
           (redact_world w)).
Proof.
  unfold create_merchant. unfold_m. simpl.
  destruct (ADMIN_API_KEY env) as [key|]; simpl; [| reflexivity].
  destruct (admin_key =? key); simpl; [| reflexivity].
  destruct (secret_key_error env); simpl; [reflexivity |].
  destruct (db_call env (S (S (S (S (tick w)))))); reflexivity.
Qed.

End Redaction.

(** C10: no response of the payment routes or of the merchant route depends
    on a stored or generated private key: each response is the one the
    route gives when every private key of the store and of the key-pair
    source is blanked.  The [Payment] model has no [wallet_private_key]
    entry and the merchant of the [create_merchant] response has no
    [default_wallet_private_key] entry, while the documents written to the
    store carry both keys. *)
Theorem responses_carry_no_private_key (env : Env) (w : World) :
  (forall k req,
     fst (post_api_payments k req env w)
     = fst (post_api_payments k req (redact_env env) (redact_world w)))
  /\ (forall k payment_id,
        fst (get_api_payment k payment_id env w)
        = fst (get_api_payment k payment_id (redact_env env) (redact_world w)))
  /\ (forall k status limit offset,
        fst (get_api_payments k status limit offset env w)
        = fst (get_api_payments k status limit offset (redact_env env)
                 (redact_world w)))
  /\ (forall name webhook_url admin_key,
        fst (create_merchant name webhook_url admin_key env w)
        = fst (create_merchant name webhook_url admin_key (redact_env env)
                 (redact_world w)))
  /\ (forall p, assoc "wallet_private_key" (Payment_dict p) = None)
  /\ (forall req m,
        match create_payment req m env w with
        | (Ok resp, w') =>
            exists d,
              transactions w' = (transactions w ++ [d])%list
              /\ tx_wallet_private_key d = snd (keypair env (tick w))
              /\ assoc "wallet_private_key" (transaction_items d)
                 = Some (JStr (snd (keypair env (tick w))))
        | (Raise _, _) => True
        end)
  /\ (forall name webhook_url admin_key,
        match create_merchant name webhook_url admin_key env w with
        | (Ok resp, w') =>
            json_get "default_wallet_private_key" (assoc "merchant" resp)
            = None
            /\ json_get "default_wallet" (assoc "merchant" resp)
               = Some (JStr (fst (keypair env (2 + tick w))))
            /\ exists m,
                 merchants w' = (merchants w ++ [m])%list
                 /\ m_default_wallet_private_key m
                    = snd (keypair env (2 + tick w))
                 /\ assoc "default_wallet_private_key" (merchant_items m)
                    = Some (JStr (snd (keypair env (2 + tick w))))
        | (Raise _, _) => True
        end).
Proof.
  split; [intros; apply post_api_payments_redact |].
  split; [intros; apply get_api_payment_redact |].
  split; [intros; apply get_api_payments_redact |].
  split; [intros; apply create_merchant_redact |].
  split; [reflexivity |].
  split.
  - intros req m. rewrite create_payment_effect.
    destruct (secret_key_error env); [exact I |].
    destruct (db_call env (3 + tick w)); [| exact I].
    eexists. split; [reflexivity |]. split; reflexivity.
  - intros name webhook_url admin_key.
    unfold create_merchant. unfold_m. simpl.
    destruct (ADMIN_API_KEY env) as [key|]; simpl; [| exact I].
    destruct (admin_key =? key); simpl; [| exact I].
    destruct (secret_key_error env); simpl; [exact I |].
    destruct (db_call env (S (S (S (S (tick w)))))); simpl; [| exact I].
    split; [reflexivity |]. split; [reflexivity |].
    eexists. split; [reflexivity |]. split; reflexivity.
Qed.

(** ** The theorems at the scenarios *)
Lemma notifier_invoked_at_most_once_witness :
  let env := demo_env ["account-1"] (Some 10%float) in
  let rs := [PostPayment "key-1" order_10; ListenerTurn; ListenerTurn] in
  let w' := exec (serve_all rs) env shop_world in
  notify_count "uuid-2" (trace w') <= 1
  /\ (1 <= notify_count "uuid-2" (trace w') ->
      exists d, stored "uuid-2" w' = Some d /\ tx_status d = confirmed).
Proof.
  apply (notifier_invoked_at_most_once
           (demo_env ["account-1"] (Some 10%float))
           [PostPayment "key-1" order_10; ListenerTurn; ListenerTurn]
           shop_world "uuid-2").
  - apply demo_env_collision_free.
  - apply Sound_fresh_world; reflexivity.
Defined.

Lemma pending_confirmed_iff_balance_sufficient_witness :
  (let env := demo_env ["account-1"] (Some 10%float) in
   let w' := exec (check_payment_received order_tx) env order_world in
   option_map tx_status (stored "uuid-1" w') = Some confirmed
   /\ notify_count "uuid-1" (trace w')
      = S (notify_count "uuid-1" (trace order_world))
   /\ forall n,
        notify_count "uuid-1" (trace (exec (payment_listener n) env w'))
        = notify_count "uuid-1" (trace w'))
  /\ (let env := demo_env ["account-1"] (Some 9.999999%float) in
      let w' := exec (check_payment_received order_tx) env order_world in
      (transactions w' = transactions order_world
       /\ trace w' = trace order_world)
      /\ (forall n,
            stored "uuid-1" (exec (payment_listener n) env order_world)
            = Some order_tx)).
Proof.
  assert (Hu : Uniq order_world).
  { unfold Uniq. vm_compute. constructor; [simpl; tauto | constructor]. }
  split.
  - destruct (pending_confirmed_iff_balance_sufficient
                (demo_env ["account-1"] (Some 10%float))
                order_tx order_world (Balance 10%float))
      as (Hconf & Hnotify & _ & Hlater & _).
    + reflexivity.
    + exists "account-1", []. repeat split.
    + vm_compute. reflexivity.
    + reflexivity.
    + assert (Hc : option_map tx_status
                     (stored (tx_id order_tx)
                        (exec (check_payment_received order_tx)
                           (demo_env ["account-1"] (Some 10%float))
                           order_world))
                   = Some confirmed).
      { apply Hconf. split; [vm_compute |]; reflexivity. }
      split; [exact Hc |]. split.
      * apply Hnotify. split; [vm_compute; reflexivity |].
        split; reflexivity.
      * intros n. apply (Hlater Hu Hc n).
  - destruct (pending_confirmed_iff_balance_sufficient
                (demo_env ["account-1"] (Some 9.999999%float))
                order_tx order_world (Balance 9.999999%float))
      as (_ & _ & _ & _ & Hkeep & Hcycles).
    + reflexivity.
    + exists "account-1", []. repeat split.
    + vm_compute. reflexivity.
    + reflexivity.
    + split.
      * apply Hkeep. vm_compute. reflexivity.
      * intros n. apply Hcycles.
        -- exact Hu.
        -- intros t. simpl. intros t'. simpl. vm_compute. reflexivity.
Defined.


Lemma confirmed_at_iff_confirmed_witness :
  Forall tx_inv
    (transactions
       (exec (serve_all [ListenerTurn; GetPayment "key-1" "order-1"])
          (demo_env ["account-1"] (Some 10%float)) order_world)).
Proof.
  apply (confirmed_at_iff_confirmed
           (demo_env ["account-1"] (Some 10%float))
           [ListenerTurn; GetPayment "key-1" "order-1"] order_world).
  vm_compute. constructor; [| constructor].
  split; [congruence | discriminate].
Defined.

Lemma confirmed_never_reverts_witness :
  exists d',
    nth_error
      (transactions
         (exec (serve_all [ListenerTurn; PostPayment "key-1" order_10;
                           ListenerTurn])
            (webhook_down (demo_env ["account-1"] (Some 10%float)))
            paid_world)) 0
    = Some d'
    /\ same_payment paid_tx d'
    /\ tx_status d' = confirmed
    /\ tx_status d' <> pending.
Proof.
  apply (confirmed_never_reverts
           (webhook_down (demo_env ["account-1"] (Some 10%float)))
           [ListenerTurn; PostPayment "key-1" order_10; ListenerTurn]
           paid_world 0 paid_tx).
  - vm_compute. reflexivity.
  - reflexivity.
Defined.

(** * Further properties of the service *)

(** ** The read routes *)

(** X1: authentication and the two read routes only read: whatever they
    answer, both collections and the trace are as before. *)
Theorem read_routes_change_nothing (env : Env) (w : World) :
  (forall k,
     let w' := exec (authenticate_merchant k) env w in
     transactions w' = transactions w /\ merchants w' = merchants w
     /\ trace w' = trace w)
  /\ (forall k payment_id,
        let w' := exec (get_api_payment k payment_id) env w in
        transactions w' = transactions w /\ merchants w' = merchants w
        /\ trace w' = trace w)
  /\ (forall k status limit offset,
        let w' := exec (get_api_payments k status limit offset) env w in
        transactions w' = transactions w /\ merchants w' = merchants w
        /\ trace w' = trace w).
Proof.
  split; [| split]; intros;
    match goal with x := _ |- _ => subst x end;
    unfold exec, get_api_payment, get_api_payments, authenticate_merchant,
      get_payment, list_payments;
    unfold_m; simpl; repeat (break_match; simpl); repeat split.
Qed.

Section Authentication.

Variable env : Env.
Variable w : World.
Hypothesis store_up : db_call env (tick w) = Ok tt.

Lemma authenticate_merchant_found (k : string) :
  authenticate_merchant k env w =
  match find (fun m => m_api_key m =? k) (merchants w) with
  | Some m =>
      (Ok m, mkWorld (transactions w) (merchants w) (S (tick w)) (trace w))
  | None =>
      (Raise (HTTPException 401 "Invalid API key"),
       mkWorld (transactions w) (merchants w) (S (tick w)) (trace w))
  end.
Proof.
  unfold authenticate_merchant. unfold_m. simpl. rewrite store_up. simpl.
  destruct (find _ (merchants w)); reflexivity.
Qed.

End Authentication.

(** X2: with the store answering, [authenticate_merchant] accepts a key
    exactly when a stored merchant has it, and then returns a stored merchant
    with that very key; every other key is answered 401. *)
Theorem authenticate_merchant_accepts_iff_known (env : Env) (w : World)
  (k : string) :
  db_call env (tick w) = Ok tt ->
  ((exists m, In m (merchants w) /\ m_api_key m = k)
   <-> exists m w', authenticate_merchant k env w = (Ok m, w'))
  /\ (forall m w',
        authenticate_merchant k env w = (Ok m, w') ->
        In m (merchants w) /\ m_api_key m = k)
  /\ ((forall m, In m (merchants w) -> m_api_key m <> k) ->
      fst (authenticate_merchant k env w)
      = Raise (HTTPException 401 "Invalid API key")).
Proof.
  intros Hup. rewrite (authenticate_merchant_found env w Hup).
  destruct (find (fun m => m_api_key m =? k) (merchants w)) as [m|] eqn:Hf.
  - pose proof (find_some _ _ Hf) as [Hin Hk]. apply String.eqb_eq in Hk.
    split; [| split].
    + split; [intros _; now do 2 eexists | intros _; now exists m].
    + intros m' w' H. inversion H; subst. now split.
    + intros Hno. exfalso. now apply (Hno m).
  - split; [| split].
    + split.
      * intros (m & Hin & Hk). pose proof (find_none _ _ Hf m Hin) as Hn.
        simpl in Hn. rewrite Hk, String.eqb_refl in Hn. discriminate.
      * intros (m & w' & H). discriminate.
    + intros m w' H. discriminate.
    + reflexivity.
Qed.

Section ReadRoutes.

Variable env : Env.

Lemma get_payment_found (payment_id : string) (m : Merchant) (w : World) :
  db_call env (tick w) = Ok tt ->
  get_payment payment_id m env w =
  match find (pair_query payment_id m) (transactions w) with
  | Some d =>
      (Ok (mkPaymentResponse true (Payment_of d)),
       mkWorld (transactions w) (merchants w) (S (tick w)) (trace w))
  | None =>
      (Raise (HTTPException 404 "Payment not found"),
       mkWorld (transactions w) (merchants w) (S (tick w)) (trace w))
  end.
Proof.
  intros Hup. unfold get_payment, pair_query. unfold_m. simpl. rewrite Hup.
  simpl. destruct (find _ (transactions w)); reflexivity.
Qed.

Lemma list_payments_found (status : option string) (limit offset : nat)
  (m : Merchant) (w : World) :
  db_call env (tick w) = Ok tt ->
  db_call env (S (tick w)) = Ok tt ->
  list_payments status limit offset m env w =
  (Ok (mkPaymentListResponse true
         (map Payment_of (listed status limit offset m (transactions w)))
         (List.length (filter (list_query status m) (transactions w)))
         limit offset),
   mkWorld (transactions w) (merchants w) (S (S (tick w))) (trace w)).
Proof.
  intros Hup Hup'. unfold list_payments, listed. unfold_m. simpl.
  rewrite Hup. simpl. rewrite Hup'. reflexivity.
Qed.

(** What [list_payments] answers is computed from the collection alone. *)
Lemma list_payments_listed (status : option string) (limit offset : nat)
  (m : Merchant) (w : World) (resp : PaymentListResponse) (w' : World) :
  list_payments status limit offset m env w = (Ok resp, w') ->
  resp =
  mkPaymentListResponse true
    (map Payment_of (listed status limit offset m (transactions w)))
    (List.length (filter (list_query status m) (transactions w)))
    limit offset.
Proof.
  unfold list_payments, listed. unfold_m. simpl.
  repeat (break_match; simpl); intros H; inversion H; reflexivity.
Qed.

Lemma get_api_payments_listed (k : string) (status : option string)
  (limit offset : nat) (w : World) (resp : PaymentListResponse) (w' : World) :
  get_api_payments k status limit offset env w = (Ok resp, w') ->
  exists m,
    In m (merchants w) /\ m_api_key m = k
    /\ resp =
       mkPaymentListResponse true
         (map Payment_of (listed status limit offset m (transactions w)))
         (List.length (filter (list_query status m) (transactions w)))
         limit offset.
Proof.
  unfold get_api_payments, bind. intros H.
  destruct (authenticate_merchant k env w) as [[m|e] w1] eqn:Ha;
    [| discriminate].
  assert (Hw1 : transactions w1 = transactions w /\ In m (merchants w)
                /\ m_api_key m = k).
  { revert Ha. unfold authenticate_merchant. unfold_m. simpl.
    repeat (break_match; simpl); intros Ha; inversion Ha; subst; simpl.
    match goal with
    | Hf : find _ _ = Some _ |- _ => apply find_some in Hf as [Hin Hk]
    end.
    apply String.eqb_eq in Hk. auto. }
  destruct Hw1 as (Ht & Hin & Hk).
  exists m. split; [assumption |]. split; [assumption |].
  rewrite <- Ht. eapply list_payments_listed. exact H.
Qed.

End ReadRoutes.

Lemma In_listed (status : option string) (limit offset : nat) (m : Merchant)
  (docs : list Transaction) (d : Transaction) :
  In d (listed status limit offset m docs) ->
  In d docs /\ list_query status m d = true.
Proof.
  unfold listed, to_list. intros H. apply In_firstn in H.
  assert (Hskip : In d (sort_created_at_desc
                          (filter (list_query status m) docs))).
  { rewrite <- (firstn_skipn offset (sort_created_at_desc _)).
    apply in_or_app. now right. }
  apply In_sort_created_at_desc in Hskip. now apply filter_In in Hskip.
Qed.

(** X3: a payment returned by [GET /api/payments/{payment_id}] is a stored
    payment with that payment id, owned by a stored merchant whose API key
    is the one presented. *)
Theorem get_payment_returns_own_payment (env : Env) (w : World)
  (k payment_id : string) (resp : PaymentResponse) (w' : World) :
  get_api_payment k payment_id env w = (Ok resp, w') ->
  exists m d,
    In m (merchants w) /\ m_api_key m = k
    /\ In d (transactions w)
    /\ tx_merchant_id d = m_merchant_id m
    /\ tx_payment_id d = payment_id
    /\ pr_payment resp = Payment_of d.
Proof.
  unfold get_api_payment, authenticate_merchant, get_payment. unfold_m.
  simpl. repeat (break_match; simpl); intros H; inversion H; subst.
  repeat match goal with
         | Hf : find _ _ = Some _ |- _ => apply find_some in Hf as [? ?]
         end.
  simpl in *.
  match goal with
  | Hq : (_ && _) = true |- _ => apply andb_prop in Hq as [Hp Hm]
  end.
  apply String.eqb_eq in Hp, Hm.
  match goal with
  | Hk : (m_api_key ?m =? k) = true |- _ => apply String.eqb_eq in Hk
  end.
  do 2 eexists. repeat split; eauto.
Qed.

Lemma get_payment_returns_own_payment_witness :
  exists m d,
    In m (merchants order_world) /\ m_api_key m = "key-1"
    /\ In d (transactions order_world)
    /\ tx_merchant_id d = m_merchant_id m
    /\ tx_payment_id d = "order-1"
    /\ Payment_of order_tx = Payment_of d.
Proof.
  eapply (get_payment_returns_own_payment (demo_env [] None) order_world
            "key-1" "order-1" (mkPaymentResponse true (Payment_of order_tx))).
  vm_compute. reflexivity.
Defined.

(** X4: every payment listed by [GET /api/payments] is a stored payment of
    a stored merchant whose API key is the one presented and, when a
    non-empty status is asked for, has that status. *)
Theorem list_payments_returns_own_payments (env : Env) (w : World)
  (k : string) (status : option string) (limit offset : nat)
  (resp : PaymentListResponse) (w' : World) :
  get_api_payments k status limit offset env w = (Ok resp, w') ->
  exists m,
    In m (merchants w) /\ m_api_key m = k
    /\ forall p, In p (plr_payments resp) ->
         exists d,
           In d (transactions w) /\ p = Payment_of d
           /\ tx_merchant_id d = m_merchant_id m
           /\ (truthy status = true -> status = Some (tx_status d)).
Proof.
  intros H. apply get_api_payments_listed in H as (m & Hin & Hk & ->).
  exists m. split; [assumption |]. split; [assumption |].
  simpl. intros p Hp. apply in_map_iff in Hp as (d & <- & Hd).
  apply In_listed in Hd as [Hd Hq]. exists d.
  unfold list_query in Hq. apply andb_prop in Hq as [Hm Hs].
  apply String.eqb_eq in Hm. repeat split; try assumption.
  intros Ht. rewrite Ht in Hs. destruct status as [s|]; [| discriminate].
  apply String.eqb_eq in Hs. now subst.
Qed.

Lemma list_payments_returns_own_payments_witness :
  exists m,
    In m (merchants paid_world) /\ m_api_key m = "key-1"
    /\ forall p, In p [Payment_of paid_tx] ->
         exists d,
           In d (transactions paid_world) /\ p = Payment_of d
           /\ tx_merchant_id d = m_merchant_id m
           /\ (truthy (Some "confirmed") = true ->
               Some "confirmed" = Some (tx_status d)).
Proof.
  eapply (list_payments_returns_own_payments (demo_env [] None) paid_world
            "key-1" (Some "confirmed") 10 0
            (mkPaymentListResponse true [Payment_of paid_tx] 1 10 0)).
  vm_compute. reflexivity.
Defined.

(** ** Sorting and paging *)

Lemma length_insert_desc (d : Transaction) (l : list Transaction) :
  List.length (insert_desc d l) = S (List.length l).
Proof.
  induction l as [|x l IH]; simpl; [reflexivity |].
  destruct (tx_created_at x <? tx_created_at d)%Z; simpl; [| rewrite IH];
    reflexivity.
Qed.

Lemma length_sort_created_at_desc (l : list Transaction) :
  List.length (sort_created_at_desc l) = List.length l.
Proof.
  induction l as [|d l IH]; simpl; [reflexivity |].
  now rewrite length_insert_desc, IH.
Qed.

Lemma Permutation_insert_desc (d : Transaction) (l : list Transaction) :
  Permutation (insert_desc d l) (d :: l).
Proof.
  induction l as [|x l IH]; simpl; [reflexivity |].
  destruct (tx_created_at x <? tx_created_at d)%Z; [reflexivity |].
  rewrite IH. apply perm_swap.
Qed.

Lemma Permutation_sort_created_at_desc (l : list Transaction) :
  Permutation (sort_created_at_desc l) l.
Proof.
  induction l as [|d l IH]; simpl; [reflexivity |].
  rewrite Permutation_insert_desc. now constructor.
Qed.

Lemma sorted_insert_desc (d : Transaction) (l : list Transaction) :
  StronglySorted later_or_same l ->
  StronglySorted later_or_same (insert_desc d l).
Proof.
  induction 1 as [|x l Hs IH Hx]; simpl.
  - constructor; constructor.
  - destruct (tx_created_at x <? tx_created_at d)%Z eqn:E.
    + apply Z.ltb_lt in E. constructor; [now constructor |].
      constructor; [unfold later_or_same; lia |].
      eapply Forall_impl; [| exact Hx].
      unfold later_or_same. intros y Hy. simpl in *. lia.
    + apply Z.ltb_ge in E. constructor; [exact IH |].
      apply Forall_forall. intros y Hy.
      apply In_insert_desc in Hy as [-> | Hy]; [exact E |].
      rewrite Forall_forall in Hx. now apply Hx.
Qed.

Lemma sorted_sort_created_at_desc (l : list Transaction) :
  StronglySorted later_or_same (sort_created_at_desc l).
Proof.
  induction l as [|d l IH]; simpl; [constructor |].
  now apply sorted_insert_desc.
Qed.

Lemma sorted_skipn {A} (R : A -> A -> Prop) (n : nat) (l : list A) :
  StronglySorted R l -> StronglySorted R (skipn n l).
Proof.
  revert l. induction n as [|n IH]; intros l H; [exact H |].
  destruct H; simpl; [constructor | now apply IH].
Qed.

Lemma sorted_firstn {A} (R : A -> A -> Prop) (n : nat) (l : list A) :
  StronglySorted R l -> StronglySorted R (firstn n l).
Proof.
  revert l. induction n as [|n IH]; intros l H; [constructor |].
  destruct H as [|x l Hs Hx]; simpl; constructor; [now apply IH |].
  rewrite Forall_forall in *. intros y Hy. apply Hx.
  eapply In_firstn. exact Hy.
Qed.

Lemma sorted_map_Payment_of (l : list Transaction) :
  StronglySorted later_or_same l -> latest_first (map Payment_of l).
Proof.
  unfold latest_first. induction 1 as [|x l Hs IH Hx]; simpl; constructor;
    [exact IH |].
  rewrite Forall_forall in *. intros p Hp.
  apply in_map_iff in Hp as (d & <- & Hd). now apply Hx.
Qed.

Lemma firstn_plus {A} (a b : nat) (l : list A) :
  firstn (a + b) l = (firstn a l ++ firstn b (skipn a l))%list.
Proof.
  revert l. induction a as [|a IH]; intros l; [reflexivity |].
  destruct l as [|x l]; simpl; [now rewrite firstn_nil | now rewrite IH].
Qed.

Lemma skipn_plus {A} (a b : nat) (l : list A) :
  skipn (a + b) l = skipn b (skipn a l).
Proof.
  revert l. induction a as [|a IH]; intros l; [reflexivity |].
  destruct l as [|x l]; simpl; [now rewrite skipn_nil | apply IH].
Qed.




(** X6: the payments of a page of [GET /api/payments] come latest first:
    no payment is followed by one created later. *)
Theorem list_payments_latest_first (env : Env) (w : World) (k : string)
  (status : option string) (limit offset : nat)
  (resp : PaymentListResponse) (w' : World) :
  get_api_payments k status limit offset env w = (Ok resp, w') ->
  latest_first (plr_payments resp).
Proof.
  intros H. apply get_api_payments_listed in H as (m & _ & _ & ->).
  simpl. apply sorted_map_Payment_of. unfold listed, to_list.
  apply sorted_firstn, sorted_skipn, sorted_sort_created_at_desc.
Qed.

(** X7: with the store answering and unchanged in between, and the
    matching payments created at distinct times (so that the sort leaves no
    choice), the page of [b] payments that starts where a page of [a]
    payments ends continues it: together they are the page of [a + b]
    payments from the same offset. *)
Theorem consecutive_pages_concatenate (env : Env) (w : World)
  (status : option string) (a b offset : nat) (m : Merchant) :
  (forall t, db_call env t = Ok tt) ->
  NoDup (map tx_created_at (filter (list_query status m) (transactions w))) ->
  exists r1 r2 r w1 w2 w3,
    list_payments status a offset m env w = (Ok r1, w1)
    /\ list_payments status b (offset + a) m env w1 = (Ok r2, w2)
    /\ list_payments status (a + b) offset m env w = (Ok r, w3)
    /\ plr_payments r = (plr_payments r1 ++ plr_payments r2)%list
    /\ plr_total r1 = plr_total r /\ plr_total r2 = plr_total r.
Proof.
  intros Hup _.
  do 6 eexists. split; [apply list_payments_found; apply Hup |].
  split; [apply list_payments_found; apply Hup |].
  split; [apply list_payments_found; apply Hup |].
  simpl. split; [| split; reflexivity].
  unfold listed, to_list. now rewrite <- map_app, firstn_plus, skipn_plus.
Qed.

(** X8: asked from offset 0 with a limit that reaches the total,
    [list_payments] returns every matching payment of the merchant exactly
    once. *)
Theorem list_payments_complete (env : Env) (w : World)
  (status : option string) (limit : nat) (m : Merchant)
  (resp : PaymentListResponse) (w' : World) :
  list_payments status limit 0 m env w = (Ok resp, w') ->
  plr_total resp <= limit ->
  Permutation (plr_payments resp)
    (map Payment_of (filter (list_query status m) (transactions w))).
Proof.
  intros H Hle. apply list_payments_listed in H. subst resp. simpl in *.
  apply Permutation_map. unfold listed, to_list. simpl.
  rewrite firstn_all2 by (now rewrite length_sort_created_at_desc).
  apply Permutation_sort_created_at_desc.
Qed.

(** ** Creating and reading back *)

(** X9: with the store answering, [get_payment] answers 404 exactly when the
    merchant has no stored payment with that payment id. *)
Theorem get_payment_404_iff_absent (env : Env) (w : World)
  (payment_id : string) (m : Merchant) :
  db_call env (tick w) = Ok tt ->
  fst (get_payment payment_id m env w)
  = Raise (HTTPException 404 "Payment not found")
  <-> (forall d, In d (transactions w) ->
                 tx_merchant_id d = m_merchant_id m ->
                 tx_payment_id d <> payment_id).
Proof.
  intros Hup. rewrite (get_payment_found env payment_id m w Hup).
  destruct (find (pair_query payment_id m) (transactions w)) as [d|] eqn:Hf;
    simpl.
  - split; [discriminate |]. intros Hno. exfalso.
    apply find_some in Hf as [Hin Hq]. unfold pair_query in Hq.
    apply andb_prop in Hq as [Hp Hm]. apply String.eqb_eq in Hp, Hm.
    now apply (Hno d).
  - split; [| reflexivity]. intros _ d Hin Hm Hp.
    pose proof (find_none _ _ Hf d Hin) as Hq. unfold pair_query in Hq.
    rewrite Hp, Hm, !String.eqb_refl in Hq. discriminate.
Qed.

(** An answer of [create_payment] tells what the environment did. *)
Lemma create_payment_ok (env : Env) (req : PaymentRequest) (m : Merchant)
  (w : World) (resp : PaymentResponse) (w1 : World) :
  create_payment req m env w = (Ok resp, w1) ->
  secret_key_error env = None
  /\ resp = mkPaymentResponse true (new_payment env (tick w) req)
  /\ w1 = mkWorld (transactions w ++ [new_transaction env (tick w) req m])
            (merchants w) (4 + tick w) (trace w).
Proof.
  rewrite create_payment_effect.
  destruct (secret_key_error env); [discriminate |].
  destruct (db_call env (3 + tick w)); [| discriminate].
  intros H. inversion H. auto.
Qed.

Lemma bson_datetime_mono (t t' : Z) :
  (t <= t')%Z -> (bson_datetime t <= bson_datetime t')%Z.
Proof.
  intros H. unfold bson_datetime.
  pose proof (Z.div_le_mono t t' 1000). lia.
Qed.

Lemma bson_datetime_fixed (t : Z) :
  bson_datetime t = t <-> (t mod 1000 = 0)%Z.
Proof.
  unfold bson_datetime. pose proof (Z.div_mod t 1000). lia.
Qed.

(** X10: a payment that [create_payment] answered, for a payment id the
    merchant had not used yet, is read back by [get_payment] as it was
    answered except for [created_at], which comes back cut to the
    millisecond: the two answers are equal exactly when the clock reading
    had no microseconds below a millisecond. *)
Theorem created_payment_is_read_back (env : Env) (w : World)
  (req : PaymentRequest) (m : Merchant) (resp : PaymentResponse) (w1 : World) :
  create_payment req m env w = (Ok resp, w1) ->
  db_call env (tick w1) = Ok tt ->
  (forall d, In d (transactions w) ->
             tx_merchant_id d = m_merchant_id m ->
             tx_payment_id d <> req_payment_id req) ->
  fst (get_payment (req_payment_id req) m env w1)
  = Ok (mkPaymentResponse true (bson_payment (pr_payment resp)))
  /\ (fst (get_payment (req_payment_id req) m env w1) = Ok resp
      <-> (pay_created_at (pr_payment resp) mod 1000 = 0)%Z).
Proof.
  intros Hc Hup Hnew.
  apply create_payment_ok in Hc as (_ & -> & ->).
  rewrite get_payment_found by exact Hup. simpl.
  assert (Hnone : find (pair_query (req_payment_id req) m) (transactions w)
                  = None).
  { destruct (find _ (transactions w)) as [d|] eqn:Hf; [| reflexivity].
    apply find_some in Hf as [Hin Hq]. unfold pair_query in Hq.
    apply andb_prop in Hq as [Hp Hm]. apply String.eqb_eq in Hp, Hm.
    exfalso. now apply (Hnew d). }
  assert (Hfind : forall l,
            find (pair_query (req_payment_id req) m) l = None ->
            find (pair_query (req_payment_id req) m)
              (l ++ [new_transaction env (tick w) req m])
            = Some (new_transaction env (tick w) req m)).
  { induction l as [|x l IH]; simpl.
    - intros _. unfold pair_query. simpl. now rewrite !String.eqb_refl.
    - destruct (pair_query (req_payment_id req) m x); [discriminate | exact IH]. }
  rewrite (Hfind _ Hnone). simpl. split; [reflexivity |].
  unfold Payment_of, new_payment. simpl. rewrite <- bson_datetime_fixed.
  split; intros H.
  - inversion H as [Ht]. now rewrite Ht.
  - now rewrite H.
Qed.

(** X11: a payment that [create_payment] accepted for a payment id the
    merchant had already used is stored but never read back: [get_payment]
    keeps answering with the first payment stored for that id. *)
Theorem duplicate_payment_is_shadowed (env : Env) (w : World)
  (req : PaymentRequest) (m : Merchant) (d0 : Transaction)
  (resp : PaymentResponse) (w1 : World) :
  find (pair_query (req_payment_id req) m) (transactions w) = Some d0 ->
  create_payment req m env w = (Ok resp, w1) ->
  db_call env (tick w) = Ok tt ->
  db_call env (tick w1) = Ok tt ->
  fst (get_payment (req_payment_id req) m env w1)
  = Ok (mkPaymentResponse true (Payment_of d0))
  /\ fst (get_payment (req_payment_id req) m env w1)
     = fst (get_payment (req_payment_id req) m env w)
  /\ List.length (transactions w1) = S (List.length (transactions w))
  /\ exists d,
       nth_error (transactions w1) (List.length (transactions w)) = Some d
       /\ pair_query (req_payment_id req) m d = true
       /\ pay_id (pr_payment resp) = tx_id d.
Proof.
  intros Hf Hc Hup Hup1.
  apply create_payment_ok in Hc as (_ & -> & ->).
  rewrite !get_payment_found by assumption. simpl.
  rewrite (find_app_some _ _ _ _ Hf), Hf. simpl.
  split; [reflexivity |]. split; [reflexivity |].
  split; [rewrite length_app; simpl; lia |].
  eexists. split.
  - rewrite nth_error_app2 by lia. rewrite Nat.sub_diag. reflexivity.
  - unfold pair_query. simpl. now rewrite !String.eqb_refl.
Qed.

(** ** Every run as a sequence of writes *)

Lemma moves_trans (env : Env) (w1 w2 w3 : World) :
  moves env w1 w2 -> moves env w2 w3 -> moves env w1 w3.
Proof.
  intros H12 H23. induction H23; [assumption |].
  eapply moves_then; [apply IHmoves; assumption | assumption].
Qed.

Lemma moves_one (env : Env) (w w' : World) : move env w w' -> moves env w w'.
Proof. intros H. eapply moves_then; [apply moves_stay | exact H]. Qed.

Lemma quiet_moves (env : Env) (w w' : World) : quiet w w' -> moves env w w'.
Proof. intros (Ht & _ & Hk). apply moves_one. now apply move_idle. Qed.

Section Moves.

Variable env : Env.

Lemma keeps_moves_next_tick : keeps env (moves env) next_tick.
Proof. intros w. apply moves_one, move_idle; simpl; [reflexivity | lia]. Qed.

Lemma keeps_moves_emit (e : Event) : keeps env (moves env) (emit e).
Proof. intros w. apply moves_one, move_idle; simpl; [reflexivity | lia]. Qed.

Lemma keeps_moves_put_merchants (l : list Merchant) :
  keeps env (moves env) (put_merchants l).
Proof. intros w. apply moves_one, move_idle; simpl; [reflexivity | lia]. Qed.

(** Reading the clock and confirming by id, as [check_payment_received]
    does in a row. *)
Lemma keeps_moves_confirm (i : string) (k : unit -> M unit) :
  (forall u, keeps env (moves env) (k u)) ->
  keeps env (moves env)
    (bind now_utc
       (fun now =>
          bind (update_one (fun d => tx_id d =? i)
                  (set_status_confirmed_at confirmed now)) k)).
Proof.
  intros Hk w. unfold exec. unfold_m. simpl.
  destruct (db_call env (S (tick w))) as [[]|e]; simpl.
  - eapply moves_trans; [| apply Hk].
    apply moves_one, (move_confirm env _ _ i (tick w)); simpl;
      [lia | lia | reflexivity].
  - apply moves_one, move_idle; simpl; [reflexivity | lia].
Qed.

Lemma keeps_moves_create_payment (req : PaymentRequest) (m : Merchant) :
  valid_payment_request req = true ->
  keeps env (moves env) (create_payment req m).
Proof.
  intros Hv w. unfold exec. rewrite create_payment_effect.
  destruct (secret_key_error env);
    [apply moves_one, move_idle; simpl; [reflexivity | lia] |].
  destruct (db_call env (3 + tick w)); simpl; apply moves_one.
  - now apply (move_insert env _ _ req m).
  - apply move_idle; simpl; [reflexivity | lia].
Qed.

End Moves.

(** As [keeps_split], with the clock reading of a confirmation kept next to
    its update. *)
Ltac moves_split :=
  pose proof (moves_stay) as Hrefl;
  pose proof (moves_trans) as Htrans;
  unfold find_one, insert_merchant, generate_payment_wallet, secret_key,
    str_to_public_key, subscript, to_float, db_round_trip, print, sleep;
  repeat first
    [ progress cbv zeta
    | match goal with
      | |- keeps _ _ (bind now_utc (fun _ => bind (update_one _ _) _)) =>
          apply keeps_moves_confirm; intros ?
      | |- keeps _ _ next_tick => apply keeps_moves_next_tick
      | |- keeps _ _ (emit _) => apply keeps_moves_emit
      | |- keeps _ _ (put_merchants _) => apply keeps_moves_put_merchants
      | |- keeps _ _ now_utc => unfold now_utc
      | |- keeps ?env _ (bind _ _) =>
          apply keeps_bind; [apply (moves_trans env) | | intros ?]
      | |- keeps ?env _ (try_except _ _) =>
          apply keeps_try_except; [apply (moves_trans env) | | intros ?]
      | |- keeps ?env _ (ret _) => apply keeps_ret; apply (moves_stay env)
      | |- keeps ?env _ (raise _) => apply keeps_raise; apply (moves_stay env)
      | |- keeps ?env _ (ask _) => apply keeps_ask; apply (moves_stay env)
      | |- keeps ?env _ (of_result _) =>
          apply keeps_of_result; apply (moves_stay env)
      | |- keeps ?env _ get_transactions =>
          apply keeps_get_transactions; apply (moves_stay env)
      | |- keeps ?env _ get_merchants =>
          apply keeps_get_merchants; apply (moves_stay env)
      | |- keeps ?env _ current_tick =>
          apply keeps_current_tick; apply (moves_stay env)
      | |- keeps _ _ (match ?x with _ => _ end) => destruct x
      end ].

Section MovesRoutes.

Variable env : Env.

Lemma keeps_moves_check (tx : Transaction) :
  keeps env (moves env) (check_payment_received tx).
Proof.
  unfold check_payment_received, send_webhook_to_merchant. moves_split.
Qed.

Lemma keeps_moves_listener_iteration :
  keeps env (moves env) listener_iteration.
Proof.
  unfold listener_iteration. moves_split.
  apply keeps_for_each;
    [apply moves_stay | apply moves_trans | intros tx _; apply keeps_moves_check].
Qed.

Lemma keeps_moves_serve (r : Request) : keeps env (moves env) (serve r).
Proof.
  unfold serve, post_api_payments, get_api_payment, get_api_payments.
  destruct r.
  - apply keeps_try_except; [apply moves_trans | | intros; apply keeps_ret, moves_stay].
    apply keeps_bind; [apply moves_trans | | intros; apply keeps_ret, moves_stay].
    apply keeps_bind; [apply moves_trans | |].
    + apply (keeps_weaken env quiet); [apply quiet_moves |].
      apply keeps_quiet_authenticate.
    + intros m. destruct (valid_payment_request payment_req) eqn:Hv.
      * now apply keeps_moves_create_payment.
      * apply keeps_raise, moves_stay.
  - apply (keeps_weaken env quiet); [apply quiet_moves |].
    pose proof quiet_refl as Hrefl. pose proof quiet_trans as Htrans.
    keeps_split ltac:(first [ apply keeps_quiet_authenticate
                            | apply keeps_quiet_get_payment ]).
  - apply (keeps_weaken env quiet); [apply quiet_moves |].
    pose proof quiet_refl as Hrefl. pose proof quiet_trans as Htrans.
    keeps_split ltac:(first [ apply keeps_quiet_authenticate
                            | apply keeps_quiet_list_payments ]).
  - apply (keeps_weaken env quiet); [apply quiet_moves |].
    pose proof quiet_refl as Hrefl. pose proof quiet_trans as Htrans.
    keeps_split ltac:(apply keeps_quiet_create_merchant).
  - apply keeps_try_except; [apply moves_trans | | intros; apply keeps_ret, moves_stay].
    apply keeps_moves_listener_iteration.
Qed.

(** Every run is a sequence of idle steps, inserts of valid requests and
    confirmations. *)
Lemma serve_all_moves (rs : list Request) (w : World) :
  moves env w (exec (serve_all rs) env w).
Proof.
  apply (keeps_for_each env (moves env) (moves_stay env) (moves_trans env)).
  intros r _. apply keeps_moves_serve.
Qed.

End MovesRoutes.

(** ** Invariants of a run *)

Lemma moves_invariant (env : Env) (P : World -> Prop) :
  (forall w w', move env w w' -> P w -> P w') ->
  forall w w', moves env w w' -> P w -> P w'.
Proof.
  intros Hstep w w' H. induction H as [w | w1 w2 w3 H12 IH H23]; [auto |].
  intros H1. apply (Hstep w2); auto.
Qed.

Lemma Forall_update_first (P : Transaction -> Prop) (i s : string) (now : Z)
  (l : list Transaction) :
  (forall d, P d -> P (set_status_confirmed_at s now d)) ->
  Forall P l ->
  Forall P (update_first (fun d => tx_id d =? i)
              (set_status_confirmed_at s now) l).
Proof.
  intros Hupd Hl. rewrite Forall_forall in *. intros d Hd.
  apply In_update_first in Hd as [Hd | (d0 & Hd0 & ->)]; auto.
Qed.

(** X12: the routes never store a payment whose amount is zero, negative or
    NaN: if every stored amount is positive, every stored amount is positive
    after any run. *)
Theorem stored_amounts_stay_positive (env : Env) (rs : list Request)
  (w : World) :
  Forall amount_positive (transactions w) ->
  Forall amount_positive (transactions (exec (serve_all rs) env w)).
Proof.
  apply (moves_invariant env
           (fun w => Forall amount_positive (transactions w)));
    [| apply serve_all_moves].
  intros w1 w2 Hm H1.
  destruct Hm as [w1 w2 Ht _ | w1 w2 req m Hv Ht _ | w1 w2 i t _ _ Ht];
    rewrite Ht.
  - exact H1.
  - apply Forall_app. split; [exact H1 |]. constructor; [exact Hv | constructor].
  - apply Forall_update_first; auto.
Qed.

(** X13: no run ever records a transaction signature: if no stored payment
    has one, none has one afterwards, and so every payment read back shows
    [tx_signature] null. *)
Theorem tx_signature_is_never_set (env : Env) (rs : list Request) (w : World) :
  Forall (fun d => tx_tx_signature d = None) (transactions w) ->
  let w' := exec (serve_all rs) env w in
  Forall (fun d => tx_tx_signature d = None) (transactions w')
  /\ forall k payment_id resp w'',
       get_api_payment k payment_id env w' = (Ok resp, w'') ->
       pay_tx_signature (pr_payment resp) = None.
Proof.
  intros Hw w'.
  assert (Hw' : Forall (fun d => tx_tx_signature d = None) (transactions w')).
  { revert Hw.
    apply (moves_invariant env
             (fun w => Forall (fun d => tx_tx_signature d = None)
                         (transactions w)));
      [| apply serve_all_moves].
    intros w1 w2 Hm H1.
    destruct Hm as [w1 w2 Ht _ | w1 w2 req m Hv Ht _ | w1 w2 i t _ _ Ht];
      rewrite Ht.
    - exact H1.
    - apply Forall_app. split; [exact H1 |]. repeat constructor.
    - apply Forall_update_first; auto. }
  split; [exact Hw' |].
  intros k payment_id resp w'' H.
  apply get_api_payment_stored in H as (d & Hd & -> & _).
  rewrite Forall_forall in Hw'. now apply Hw'.
Qed.

Lemma map_wallet_update_first (i s : string) (now : Z) (l : list Transaction) :
  map tx_wallet_address
    (update_first (fun d => tx_id d =? i) (set_status_confirmed_at s now) l)
  = map tx_wallet_address l.
Proof.
  induction l as [|d l IH]; simpl; [reflexivity |].
  destruct (tx_id d =? i); simpl; [reflexivity | now rewrite IH].
Qed.

Lemma WalletsFresh_move (env : Env) (w w' : World) :
  move env w w' -> WalletsFresh env w -> WalletsFresh env w'.
Proof.
  intros Hm (ts & Hmap & Hnd & Hlt).
  destruct Hm as [w w' Ht Hk | w w' req m Hv Ht Hk | w w' i t Hk Hk' Ht].
  - exists ts. rewrite Ht. repeat split; try assumption.
    eapply Forall_impl; [| exact Hlt]. simpl. intros; lia.
  - exists (ts ++ [tick w])%list. rewrite Ht, !map_app, Hmap. simpl.
    repeat split.
    + apply NoDup_app; [assumption | repeat constructor; auto |].
      intros x Hx [<- | []]. rewrite Forall_forall in Hlt.
      specialize (Hlt _ Hx). lia.
    + apply Forall_app. split.
      * eapply Forall_impl; [| exact Hlt]. simpl. intros; lia.
      * repeat constructor. lia.
  - exists ts. rewrite Ht, map_wallet_update_first. repeat split;
      try assumption.
    eapply Forall_impl; [| exact Hlt]. simpl. intros; lia.
Qed.

(** X14: each payment gets a receiving address of its own: in a run that
    starts without payments, with a key generation that never repeats an
    address, no two stored payments share a wallet address. *)
Theorem wallet_addresses_are_distinct (env : Env) (rs : list Request)
  (w : World) :
  addresses_never_repeat env ->
  transactions w = [] ->
  NoDup (map tx_wallet_address (transactions (exec (serve_all rs) env w))).
Proof.
  intros Hinj Hempty.
  assert (H : WalletsFresh env (exec (serve_all rs) env w)).
  { apply (moves_invariant env (WalletsFresh env) (WalletsFresh_move env) w);
      [apply serve_all_moves |].
    exists []. rewrite Hempty. repeat constructor. }
  destruct H as (ts & Hmap & Hnd & _). rewrite Hmap. clear Hmap.
  induction Hnd as [|t ts Hnotin Hnd IH]; simpl; constructor; [| exact IH].
  intros Hin. apply in_map_iff in Hin as (t' & Heq & Hin).
  apply Hinj in Heq. now subst.
Qed.

Lemma Timed_move (env : Env) (w w' : World) :
  move env w w' -> Timed env w -> Timed env w'.
Proof.
  unfold Timed. intros Hm H.
  destruct Hm as [w w' Ht Hk | w w' req m Hv Ht Hk | w w' i t Hk Hk' Ht];
    rewrite Ht.
  - eapply Forall_impl; [| exact H]. simpl.
    intros d (t0 & Hlt & Hrest). exists t0. split; [lia | exact Hrest].
  - apply Forall_app. split.
    + eapply Forall_impl; [| exact H]. simpl.
      intros d (t0 & Hlt & Hrest). exists t0. split; [lia | exact Hrest].
    + repeat constructor. exists (S (S (tick w))). simpl.
      repeat split. lia.
  - rewrite Forall_forall in *. intros d Hd.
    apply In_update_first in Hd as [Hd | (d0 & Hd0 & ->)].
    + destruct (H d Hd) as (t0 & Hlt & Hrest). exists t0.
      split; [lia | exact Hrest].
    + destruct (H d0 Hd0) as (t0 & Hlt & Hc & _). exists t0. simpl.
      split; [lia |]. split; [exact Hc |]. exists t. split; [lia | reflexivity].
Qed.

(** X15: with a clock that never goes back, in a run that starts without
    payments, no stored payment is confirmed before it was created. *)
Theorem confirmed_at_not_before_created_at (env : Env) (rs : list Request)
  (w : World) :
  clock_monotone env ->
  transactions w = [] ->
  Forall
    (fun d => forall c, tx_confirmed_at d = Some c -> (tx_created_at d <= c)%Z)
    (transactions (exec (serve_all rs) env w)).
Proof.
  intros Hmono Hempty.
  assert (H : Timed env (exec (serve_all rs) env w)).
  { apply (moves_invariant env (Timed env) (Timed_move env) w);
      [apply serve_all_moves |].
    unfold Timed. rewrite Hempty. constructor. }
  unfold Timed in H. eapply Forall_impl; [| exact H]. simpl.
  intros d (t0 & _ & Hc & Hconf) c Hsome. rewrite Hsome in Hconf.
  destruct Hconf as (t1 & Hle & ->). rewrite Hc.
  apply bson_datetime_mono. now apply Hmono.
Qed.

(** X16: no run deletes, moves or rewrites a payment: every stored document
    stays at its position with the same id, merchant, payment id, wallet
    address, key, amount, creation time and metadata, and the collection
    never gets shorter. *)
Theorem stored_payments_keep_their_request (env : Env) (rs : list Request)
  (w : World) (k : nat) (d : Transaction) :
  nth_error (transactions w) k = Some d ->
  let w' := exec (serve_all rs) env w in
  (exists d', nth_error (transactions w') k = Some d' /\ same_payment d d')
  /\ List.length (transactions w) <= List.length (transactions w').
Proof.
  intros Hk w'. split.
  - destruct (store_steps_mono _ _ k d (serve_all_store_steps env rs w) Hk)
      as (d' & Hk' & Hsame & _).
    now exists d'.
  - subst w'. pose proof (serve_all_store_steps env rs w) as H.
    induction H as [l | l1 l2 l3 H12 IH H23]; [lia |].
    specialize (IH Hk). destruct H23 as [l d0 _ _ | l i now].
    + rewrite length_app. simpl. lia.
    + rewrite <- (length_map tx_id (update_first _ _ _)),
        map_tx_id_update_first, length_map.
      exact IH.
Qed.

(** X17: internal payment ids are unique: in a sequential run with a
    [uuid4] that never repeats, no two stored payments share an id. *)
Theorem payment_ids_are_distinct (env : Env) (rs : list Request) (w : World) :
  collision_free env ->
  transactions w = [] -> trace w = [] ->
  NoDup (map tx_id (transactions (exec (serve_all rs) env w))).
Proof.
  intros Hfree Ht Hr.
  destruct (Sound_serve_all env Hfree rs w (Sound_fresh_world env w Ht Hr))
    as (Hu & _).
  exact Hu.
Qed.

(** ** The listener: failures, missing documents, batches *)

Section CheckEdges.

Variable env : Env.

(** X18: when the ledger reading of a check fails (malformed address,
    failing query, balance without amount), the check prints one line with the
    payment id and the error and does nothing else: the store is untouched
    and the notifier is not invoked. *)
Theorem failed_reading_is_logged_once (tx : Transaction) (w : World)
  (e : Exc) :
  reading_fails env (tick w) tx e ->
  let w' := exec (check_payment_received tx) env w in
  transactions w' = transactions w
  /\ merchants w' = merchants w
  /\ trace w' = EvPrint (check_error_line tx e) :: trace w.
Proof.
  intros H w'. subst w'. unfold exec, check_payment_received, check_error_line.
  unfold_m. simpl.
  destruct H as [Hw | e Hw Ha | a rest Hw Ha Hv | a rest e Hw Ha Hv Hb
                 | a rest Hw Ha Hv Hb];
    rewrite Hw; simpl; try (repeat split; fail);
    rewrite Ha; simpl; try (repeat split; fail);
    rewrite Hv; simpl; try (repeat split; fail);
    rewrite Hb; simpl; repeat split.
Qed.

Lemma update_first_absent {A} (query : A -> bool) (upd : A -> A)
  (docs : list A) :
  find query docs = None -> update_first query upd docs = docs.
Proof.
  induction docs as [|d docs IH]; simpl; [reflexivity |].
  destruct (query d); [discriminate |]. intros H. now rewrite IH.
Qed.

(** X19: a check of a document that is no longer stored, on a sufficient
    balance, updates nothing, finds nothing to hand to the notifier, and
    ends with the resulting error printed: no request is sent and the store
    is untouched. *)
Theorem check_of_missing_document (tx : Transaction) (w : World)
  (obs : Observation) :
  valid_public_key env (tx_wallet_address tx) = true ->
  observes env (tick w) (tx_wallet_address tx) obs ->
  sufficient obs (tx_amount tx) = true ->
  (forall t, db_call env t = Ok tt) ->
  stored (tx_id tx) w = None ->
  let w' := exec (check_payment_received tx) env w in
  transactions w' = transactions w
  /\ posted (trace w') = posted (trace w)
  /\ trace w' =
       EvPrint (check_error_line tx
                  (Exception "'NoneType' object is not subscriptable"))
       :: EvNotify None :: trace w.
Proof.
  intros Hvalid Hobs Hsuff Hdb Hst w'. subst w'.
  destruct obs as [|b]; simpl in *; [discriminate |].
  destruct Hobs as (account & rest & Hacc & Hv & Hbal).
  unfold exec, check_payment_received, send_webhook_to_merchant,
    check_error_line.
  unfold_m. simpl. rewrite Hvalid. simpl. rewrite Hacc. simpl.
  rewrite Hv. simpl. rewrite Hbal. simpl. rewrite Hsuff. rewrite !Hdb. simpl.
  unfold stored in Hst. rewrite (update_first_absent _ _ _ Hst), Hst. simpl.
  repeat split.
Qed.

Lemma for_each_check_stuck (l : list Transaction) (w : World) :
  (forall tx, In tx l -> never_sufficient env tx) ->
  let w' := exec (for_each l check_payment_received) env w in
  transactions w' = transactions w
  /\ notified (trace w') = notified (trace w)
  /\ posted (trace w') = posted (trace w).
Proof.
  revert w. induction l as [|tx l IH]; intros w Hl; simpl.
  - repeat split.
  - rewrite exec_bind.
    destruct (check_payment_received_insufficient env tx w
                (Hl tx (or_introl eq_refl))) as (Ht & Hn & Hp).
    destruct (check_payment_received_effect env tx w) as (w1 & E & _).
    unfold exec in Ht, Hn, Hp. rewrite E in *. simpl in *.
    destruct (IH w1 (fun tx' H => Hl tx' (or_intror H))) as (Ht' & Hn' & Hp').
    repeat split; congruence.
Qed.

Lemma listener_iteration_stuck (w : World) :
  (forall tx, In tx (batch w) -> never_sufficient env tx) ->
  let w' := exec listener_iteration env w in
  transactions w' = transactions w
  /\ notified (trace w') = notified (trace w)
  /\ posted (trace w') = posted (trace w).
Proof.
  intros Hl. unfold exec, listener_iteration. unfold_m. simpl.
  destruct (db_call env (tick w)) as [[]|e]; simpl; [| repeat split].
  match goal with
  | |- context [for_each ?l check_payment_received env ?W] =>
      destruct (for_each_check_ok env l W) as (w1 & E);
      destruct (for_each_check_stuck l W Hl) as (Ht & Hn & Hp)
  end.
  unfold exec in Ht, Hn, Hp. rewrite E in *. simpl in *.
  repeat split; assumption.
Qed.

(** X20: a scan always takes the first 100 pending documents of the
    collection.  While the ledger never shows enough for any of them, no
    number of turns changes the store or invokes the notifier: a pending
    payment stored after them is never checked, whatever its wallet holds. *)
Theorem listener_never_gets_past_a_stuck_batch (w : World) (n : nat) :
  (forall tx, In tx (batch w) -> never_sufficient env tx) ->
  let w' := exec (payment_listener n) env w in
  transactions w' = transactions w
  /\ notified (trace w') = notified (trace w)
  /\ posted (trace w') = posted (trace w).
Proof.
  revert w. induction n as [|n IH]; intros w Hl; [repeat split |].
  cbv zeta. rewrite payment_listener_S.
  destruct (listener_iteration_stuck w Hl) as (Ht & Hn & Hp).
  destruct (IH (exec listener_iteration env w)) as (Ht' & Hn' & Hp').
  - unfold batch in *. rewrite Ht. exact Hl.
  - repeat split; congruence.
Qed.

Lemma for_each_check_notifies_each_once (l : list Transaction) (w : World) :
  let w' := exec (for_each l check_payment_received) env w in
  List.length (notified (trace w'))
  <= List.length l + List.length (notified (trace w))
  /\ List.length (posted (trace w'))
     <= List.length l + List.length (posted (trace w)).
Proof.
  revert w. induction l as [|tx l IH]; intros w;
    [unfold exec; simpl; lia |].
  cbv zeta. cbn [for_each List.length]. rewrite exec_bind.
  destruct (check_payment_received_effect env tx w)
    as (w1 & E & _ & _ & Hcases).
  rewrite E. destruct (IH w1) as [Hn Hp].
  assert (H1 : List.length (notified (trace w1))
               <= S (List.length (notified (trace w)))
               /\ List.length (posted (trace w1))
                  <= S (List.length (posted (trace w)))).
  { destruct Hcases as [(_ & Hn1 & Hp1) | (now & _ & Hcases)];
      [rewrite Hn1, Hp1; lia |].
    destruct Hcases as [(Hn1 & Hp1) | (Hn1 & Hp1)];
      [rewrite Hn1, Hp1; lia |].
    rewrite Hn1. simpl.
    destruct Hp1 as [Hp1 | (url & d & _ & Hp1)]; rewrite Hp1; simpl; lia. }
  lia.
Qed.

(** X21: one turn of the listener checks at most 100 documents: it invokes
    the notifier at most 100 times and sends at most 100 webhook requests. *)
Theorem listener_turn_is_bounded (w : World) :
  let w' := exec listener_iteration env w in
  List.length (notified (trace w')) <= 100 + List.length (notified (trace w))
  /\ List.length (posted (trace w')) <= 100 + List.length (posted (trace w)).
Proof.
  unfold exec, listener_iteration. unfold_m. simpl.
  destruct (db_call env (tick w)) as [[]|e]; simpl; [| lia].
  match goal with
  | |- context [for_each ?l check_payment_received env ?W] =>
      destruct (for_each_check_ok env l W) as (w1 & E);
      destruct (for_each_check_notifies_each_once l W) as (Hn & Hp);
      assert (Hlen : List.length l <= 100)
        by (unfold to_list; rewrite length_firstn; lia)
  end.
  unfold exec in Hn, Hp. rewrite E in *. simpl in *. lia.
Qed.

End CheckEdges.

(** ** Amounts that are not numbers *)

Lemma SFcompare_refl (x : spec_float) :
  x <> S754_nan -> SFcompare x x = Some Eq.
Proof.
  destruct x as [s | s | | s m e]; simpl; intros H; try (now destruct s);
    [congruence |].
  rewrite Z.compare_refl.
  assert (Hm : Pos.compare_cont Eq m m = Eq) by apply Pos.compare_cont_refl.
  destruct s; now rewrite Hm.
Qed.

Lemma is_nan_spec (x : float) : is_nan x = true -> Prim2SF x = S754_nan.
Proof.
  unfold is_nan. rewrite eqb_spec. unfold SFeqb. intros H.
  destruct (Prim2SF x) as [s | s | | s m e] eqn:E; try reflexivity;
    rewrite SFcompare_refl in H by discriminate; discriminate.
Qed.

(** X22: amounts that are not numbers never pass: a NaN balance is never
    sufficient, no balance is sufficient for a NaN amount, and a request
    with a NaN amount is not valid. *)
Theorem nan_amounts_never_pass :
  (forall usdc_amount amount,
     is_nan usdc_amount = true ->
     sufficient (Balance usdc_amount) amount = false)
  /\ (forall usdc_amount amount,
        is_nan amount = true ->
        sufficient (Balance usdc_amount) amount = false)
  /\ (forall req,
        is_nan (req_amount req) = true -> valid_payment_request req = false).
Proof.
  split; [| split].
  - intros b a H. simpl. unfold ge_float. rewrite leb_spec.
    rewrite (is_nan_spec b H). unfold SFleb.
    now destruct (Prim2SF a).
  - intros b a H. simpl. unfold ge_float. rewrite leb_spec.
    rewrite (is_nan_spec a H). reflexivity.
  - intros req H. unfold valid_payment_request. rewrite ltb_spec.
    rewrite (is_nan_spec _ H). unfold SFltb.
    now destruct (Prim2SF 0).
Qed.

(** ** Merchant administration *)

Lemma create_merchant_effect (env : Env) (w : World)
  (name webhook_url admin_key : string) :
  ADMIN_API_KEY env = Some admin_key ->
  create_merchant name webhook_url admin_key env w =
  match secret_key_error env with
  | Some e =>
      (Raise e, mkWorld (transactions w) (merchants w) (3 + tick w) (trace w))
  | None =>
      match db_call env (4 + tick w) with
      | Ok _ =>
          (Ok (merchant_response env (tick w) name webhook_url),
           mkWorld (transactions w)
             (merchants w ++ [new_merchant env (tick w) name webhook_url])
             (5 + tick w) (trace w))
      | Raise e =>
          (Raise e,
           mkWorld (transactions w) (merchants w) (5 + tick w) (trace w))
      end
  end.
Proof.
  intros Hkey. unfold create_merchant. unfold_m. simpl.
  rewrite Hkey. simpl. rewrite String.eqb_refl. simpl.
  destruct (secret_key_error env); simpl; [reflexivity |].
  destruct (db_call env (S (S (S (S (tick w)))))); reflexivity.
Qed.

(** X23: [create_merchant] answers 401 to every admin key other than the
    configured one, and to every key when none is configured; a refused
    request changes nothing at all. *)
Theorem create_merchant_refuses_other_keys (env : Env) (w : World)
  (name webhook_url admin_key : string) :
  ADMIN_API_KEY env <> Some admin_key ->
  create_merchant name webhook_url admin_key env w
  = (Raise (HTTPException 401 "Invalid admin key"), w).
Proof.
  intros Hkey. unfold create_merchant. unfold_m. simpl.
  destruct (ADMIN_API_KEY env) as [k|]; simpl.
  - destruct (String.eqb_spec admin_key k) as [-> | _]; [| reflexivity].
    now exfalso.
  - reflexivity.
Qed.

(** An answer of [create_merchant] tells what the environment did. *)
Lemma create_merchant_ok (env : Env) (w : World)
  (name webhook_url admin_key : string) (resp : list (string * Json))
  (w1 : World) :
  create_merchant name webhook_url admin_key env w = (Ok resp, w1) ->
  resp = merchant_response env (tick w) name webhook_url
  /\ w1 = mkWorld (transactions w)
            (merchants w ++ [new_merchant env (tick w) name webhook_url])
            (5 + tick w) (trace w).
Proof.
  destruct (ADMIN_API_KEY env) as [key|] eqn:Hkey.
  - destruct (String.eqb_spec admin_key key) as [-> | Hneq].
    + rewrite (create_merchant_effect env w name webhook_url key Hkey).
      destruct (secret_key_error env); [discriminate |].
      destruct (db_call env (4 + tick w)); [| discriminate].
      intros H. inversion H. auto.
    + unfold create_merchant. unfold_m. simpl. rewrite Hkey.
      apply String.eqb_neq in Hneq. rewrite Hneq. discriminate.
  - unfold create_merchant. unfold_m. simpl. rewrite Hkey. discriminate.
Qed.

(** X24: a merchant that [create_merchant] registered can authenticate: the
    API key of the dict the route returns is accepted by
    [authenticate_merchant] (the store answering), which returns a merchant
    with that key, and the new merchant itself, as the store holds it, when
    no earlier merchant has the same key.  The returned dict also carries
    the [_id] that the insert added, an [ObjectId]. *)
Theorem registered_merchant_authenticates (env : Env) (w : World)
  (name webhook_url admin_key : string) (resp : list (string * Json))
  (w1 : World) :
  create_merchant name webhook_url admin_key env w = (Ok resp, w1) ->
  db_call env (tick w1) = Ok tt ->
  exists k m w2,
    json_get "api_key" (assoc "merchant" resp) = Some (JStr k)
    /\ authenticate_merchant k env w1 = (Ok m, w2)
    /\ m_api_key m = k
    /\ json_get "_id" (assoc "merchant" resp)
       = Some (JObjectId (object_id env (4 + tick w)))
    /\ ((forall m0, In m0 (merchants w) -> m_api_key m0 <> k) ->
        m = new_merchant env (tick w) name webhook_url
        /\ m_name m = name
        /\ m_webhook_url m = Some webhook_url
        /\ json_get "merchant_id" (assoc "merchant" resp)
           = Some (JStr (m_merchant_id m))).
Proof.
  intros Hc Hdb. apply create_merchant_ok in Hc as [-> ->].
  simpl in Hdb.
  set (mnew := new_merchant env (tick w) name webhook_url).
  set (w1 := mkWorld _ _ _ _).
  assert (Hsome : exists m,
            find (fun m => m_api_key m =? uuid4_hex env (S (tick w)))
              (merchants w1) = Some m
            /\ m_api_key m = uuid4_hex env (S (tick w))
            /\ ((forall m0, In m0 (merchants w) ->
                            m_api_key m0 <> uuid4_hex env (S (tick w))) ->
                m = mnew)).
  { subst w1. simpl. induction (merchants w) as [|x l IH]; simpl.
    - rewrite String.eqb_refl. exists mnew. repeat split.
    - destruct (String.eqb_spec (m_api_key x) (uuid4_hex env (S (tick w))))
        as [Heq | Hneq].
      + exists x. repeat split; [assumption |].
        intros Hno. exfalso. apply (Hno x); [now left | assumption].
      + destruct IH as (m & Hf & Hk & Hnew). exists m.
        repeat split; try assumption.
        intros Hno. apply Hnew. intros m0 Hin. apply Hno. now right. }
  destruct Hsome as (m & Hf & Hk & Hnew).
  exists (uuid4_hex env (S (tick w))), m.
  rewrite (authenticate_merchant_found env w1 Hdb), Hf.
  eexists. split; [reflexivity |]. split; [reflexivity |].
  split; [assumption |]. split; [reflexivity |].
  intros Hno. rewrite (Hnew Hno). repeat split.
Qed.

(** * Properties of the registration script *)

Section Script.

Import RegisterMerchant.

Variable s : Script.
Variables name webhook_url : string.




End Script.


(** X26: the script sends at most one request: none when its admin key is
    not set or empty (it then only prints that the key is missing), and
    otherwise exactly one, to [API_URL/admin/merchants], with the name and
    the webhook URL as parameters and the admin key in the [admin-key]
    header. *)
Theorem script_sends_one_request (s : RegisterMerchant.Script)
  (name webhook_url : string) (out : list RegisterMerchant.Output) :
  let out' := snd (RegisterMerchant.register_merchant s name webhook_url out) in
  match RegisterMerchant.ADMIN_API_KEY s with
  | Some key =>
      if key =? "" then
        out' = RegisterMerchant.Printed
                 "Error: ADMIN_API_KEY not set in environment" :: out
      else
        RegisterMerchant.sent out' =
        RegisterMerchant.mkPost
          (RegisterMerchant.API_URL s ++ "/admin/merchants")
          [("name", name); ("webhook_url", webhook_url)]
          [("admin-key", key); ("Content-Type", "application/json")]
        :: RegisterMerchant.sent out
  | None =>
      out' = RegisterMerchant.Printed
               "Error: ADMIN_API_KEY not set in environment" :: out
  end.
Proof.
  cbv zeta.
  unfold RegisterMerchant.register_merchant, RegisterMerchant.try_except,
    RegisterMerchant.bind, RegisterMerchant.ret, RegisterMerchant.of_result,
    RegisterMerchant.print, RegisterMerchant.client_post,
    RegisterMerchant.getitem.
  destruct (RegisterMerchant.ADMIN_API_KEY s) as [key|]; simpl;
    [| reflexivity].
  destruct (key =? ""); simpl; [reflexivity |].
  repeat (break_match; simpl); reflexivity.
Qed.

(** ** Creating through the route, reading after a confirmation *)

(** X27: [POST /api/payments] stores a payment only for a valid amount and a
    known API key: an accepted request appends exactly one pending document,
    owned by a stored merchant that holds the presented key, with the
    payment id and the amount of the request, and answers with the payment
    of that document ([created_at] being cut to the millisecond in the
    store); a refused request (401, 422, a failing key read or a store
    failure) leaves the collection as it was. *)
Theorem post_payment_stores_for_the_caller (env : Env) (w : World)
  (k : string) (req : PaymentRequest) :
  match post_api_payments k req env w with
  | (Ok resp, w') =>
      exists m d,
        In m (merchants w) /\ m_api_key m = k
        /\ valid_payment_request req = true
        /\ transactions w' = (transactions w ++ [d])%list
        /\ tx_merchant_id d = m_merchant_id m
        /\ tx_payment_id d = req_payment_id req
        /\ tx_amount d = req_amount req
        /\ tx_status d = pending
        /\ Payment_of d = bson_payment (pr_payment resp)
  | (Raise _, w') => transactions w' = transactions w
  end.
Proof.
  unfold post_api_payments, bind.
  destruct (authenticate_merchant k env w) as [[m|e] w1] eqn:Ha.
  - assert (Hw1 : transactions w1 = transactions w /\ In m (merchants w)
                  /\ m_api_key m = k).
    { revert Ha. unfold authenticate_merchant. unfold_m. simpl.
      repeat (break_match; simpl); intros Ha; inversion Ha; subst; simpl.
      match goal with
      | Hf : find _ _ = Some _ |- _ => apply find_some in Hf as [Hin Hk]
      end.
      apply String.eqb_eq in Hk. auto. }
    destruct Hw1 as (Ht & Hin & Hk).
    destruct (valid_payment_request req) eqn:Hv; [| exact Ht].
    rewrite create_payment_effect.
    destruct (secret_key_error env); [exact Ht |].
    destruct (db_call env (3 + tick w1)); simpl; [| exact Ht].
    exists m, (new_transaction env (tick w1) req m). rewrite Ht.
    repeat split; assumption.
  - pose proof (keeps_quiet_authenticate env k w) as (Ht & _).
    unfold exec in Ht. rewrite Ha in Ht. exact Ht.
Qed.

Lemma find_pair_after_confirm (payment_id : string) (m : Merchant)
  (now : Z) (tx : Transaction) (l : list Transaction) :
  find (pair_query payment_id m) l = Some tx ->
  find (fun d => tx_id d =? tx_id tx) l = Some tx ->
  find (pair_query payment_id m)
    (update_first (fun d => tx_id d =? tx_id tx)
       (set_status_confirmed_at confirmed now) l)
  = Some (set_status_confirmed_at confirmed now tx).
Proof.
  induction l as [|x l IH]; simpl; [discriminate |].
  destruct (tx_id x =? tx_id tx) eqn:Ei.
  - intros Hp Hi. inversion Hi; subst x. simpl.
    destruct (pair_query payment_id m tx) eqn:Eq.
    + unfold pair_query in *. simpl. now rewrite Eq.
    + apply find_some in Hp as [_ Hq]. congruence.
  - intros Hp Hi. simpl. destruct (pair_query payment_id m x) eqn:Eq.
    + inversion Hp; subst x. rewrite String.eqb_refl in Ei. discriminate.
    + now apply IH.
Qed.

(** X28: once a check has confirmed a payment, its merchant reads it back
    as confirmed: with the ledger showing a sufficient balance and the store
    answering, [get_payment] after the check returns the payment with
    status confirmed and [confirmed_at] set to the clock reading of the
    check, cut to the millisecond the store keeps. *)
Theorem confirmed_payment_is_read_back_confirmed (env : Env) (w : World)
  (tx : Transaction) (m : Merchant) (obs : Observation) :
  valid_public_key env (tx_wallet_address tx) = true ->
  observes env (tick w) (tx_wallet_address tx) obs ->
  sufficient obs (tx_amount tx) = true ->
  (forall t, db_call env t = Ok tt) ->
  stored (tx_id tx) w = Some tx ->
  find (pair_query (tx_payment_id tx) m) (transactions w) = Some tx ->
  let w' := exec (check_payment_received tx) env w in
  exists resp,
    fst (get_payment (tx_payment_id tx) m env w') = Ok resp
    /\ pay_id (pr_payment resp) = tx_id tx
    /\ pay_amount (pr_payment resp) = tx_amount tx
    /\ pay_status (pr_payment resp) = confirmed
    /\ pay_confirmed_at (pr_payment resp)
       = Some (bson_datetime (utcnow env (2 + tick w)))
    /\ (bson_datetime (utcnow env (2 + tick w)) <= utcnow env (2 + tick w)
        < bson_datetime (utcnow env (2 + tick w)) + 1000)%Z.
Proof.
  intros Hvalid Hobs Hsuff Hdb Hst Hpair w'.
  assert (Ht : transactions w'
               = update_first (fun d => tx_id d =? tx_id tx)
                   (set_status_confirmed_at confirmed (utcnow env (2 + tick w)))
                   (transactions w)).
  { subst w'. destruct obs as [|b]; simpl in *; [discriminate |].
    destruct Hobs as (account & rest & Hacc & Hv & Hbal).
    unfold exec, check_payment_received. unfold_m. simpl. rewrite Hvalid.
    simpl. rewrite Hacc. simpl. rewrite Hv. simpl. rewrite Hbal. simpl.
    rewrite Hsuff. rewrite !Hdb. simpl.
    match goal with
    | |- context [send_webhook_to_merchant ?o env ?W] =>
        destruct (send_webhook_to_merchant_any env o W)
          as (r & w1 & E & Ht1 & _); rewrite E
    end.
    destruct r; simpl; exact Ht1. }
  rewrite get_payment_found by apply Hdb. rewrite Ht.
  rewrite (find_pair_after_confirm _ m _ tx (transactions w) Hpair Hst).
  eexists. split; [reflexivity |]. repeat split;
    unfold bson_datetime;
    pose proof (Z.div_mod (utcnow env (2 + tick w)) 1000);
    pose proof (Z.mod_pos_bound (utcnow env (2 + tick w)) 1000); lia.
Qed.

(** * The further properties at the scenarios *)

Lemma demo_env_addresses_never_repeat (accounts : list string)
  (ui_amount : option float) :
  addresses_never_repeat (demo_env accounts ui_amount).
Proof.
  intros t t' H. simpl in H. apply nat_str_inj. now inversion H.
Qed.

Lemma demo_env_clock_monotone (accounts : list string)
  (ui_amount : option float) :
  clock_monotone (demo_env accounts ui_amount).
Proof. intros t t' H. unfold demo_env. cbn [utcnow]. lia. Qed.

Lemma authenticate_merchant_accepts_iff_known_witness :
  exists m w',
    authenticate_merchant "key-1" (demo_env [] None) order_world = (Ok m, w').
Proof.
  apply (proj1 (authenticate_merchant_accepts_iff_known (demo_env [] None)
                  order_world "key-1" eq_refl)).
  exists shop. split; [now left | reflexivity].
Defined.

Lemma list_payments_latest_first_witness :
  latest_first
    (map Payment_of (listed None 10 0 shop (transactions busy_world))).
Proof.
  apply (list_payments_latest_first (demo_env [] None) busy_world "key-1"
           None 10 0
           (mkPaymentListResponse true
              (map Payment_of (listed None 10 0 shop (transactions busy_world)))
              2 10 0)
           (mkWorld (transactions busy_world) (merchants busy_world)
              (3 + tick busy_world) (trace busy_world))).
  vm_compute. reflexivity.
Defined.

Lemma consecutive_pages_concatenate_witness :
  exists r1 r2 r w1 w2 w3,
    list_payments None 1 0 shop (demo_env [] None) busy_world = (Ok r1, w1)
    /\ list_payments None 1 (0 + 1) shop (demo_env [] None) w1 = (Ok r2, w2)
    /\ list_payments None (1 + 1) 0 shop (demo_env [] None) busy_world
       = (Ok r, w3)
    /\ plr_payments r = (plr_payments r1 ++ plr_payments r2)%list
    /\ plr_total r1 = plr_total r /\ plr_total r2 = plr_total r.
Proof.
  apply (consecutive_pages_concatenate (demo_env [] None) busy_world None
           1 1 0 shop).
  - intros t. reflexivity.
  - vm_compute. repeat constructor; simpl; intuition discriminate.
Defined.

Lemma list_payments_complete_witness :
  Permutation
    (map Payment_of (listed None 10 0 shop (transactions busy_world)))
    (map Payment_of (filter (list_query None shop) (transactions busy_world))).
Proof.
  apply (list_payments_complete (demo_env [] None) busy_world None 10 shop
           (mkPaymentListResponse true
              (map Payment_of (listed None 10 0 shop (transactions busy_world)))
              2 10 0)
           (mkWorld (transactions busy_world) (merchants busy_world)
              (2 + tick busy_world) (trace busy_world))).
  - vm_compute. reflexivity.
  - simpl. lia.
Defined.

Lemma get_payment_404_iff_absent_witness :
  fst (get_payment "order-9" shop (demo_env [] None) busy_world)
  = Raise (HTTPException 404 "Payment not found").
Proof.
  apply (proj2 (get_payment_404_iff_absent (demo_env [] None) busy_world
                  "order-9" shop eq_refl)).
  intros d Hin _ Hp. vm_compute in Hin.
  destruct Hin as [<- | [<- | []]]; discriminate.
Defined.

Lemma created_payment_is_read_back_witness :
  let env := demo_env [] None in
  let resp := mkPaymentResponse true (new_payment env 4 order_25) in
  let w1 := exec (create_payment order_25 shop) env order_world in
  fst (get_payment "order-2" shop env w1)
  = Ok (mkPaymentResponse true (bson_payment (pr_payment resp)))
  /\ (fst (get_payment "order-2" shop env w1) = Ok resp
      <-> (pay_created_at (pr_payment resp) mod 1000 = 0)%Z).
Proof.
  apply (created_payment_is_read_back (demo_env [] None) order_world order_25
           shop
           (mkPaymentResponse true (new_payment (demo_env [] None) 4 order_25))
           (exec (create_payment order_25 shop) (demo_env [] None)
              order_world)).
  - vm_compute. reflexivity.
  - reflexivity.
  - intros d Hin _ Hp. vm_compute in Hin.
    destruct Hin as [<- | []]. discriminate.
Defined.

Lemma duplicate_payment_is_shadowed_witness :
  let env := demo_env [] None in
  let resp := mkPaymentResponse true (new_payment env 4 order_10) in
  let w1 := exec (create_payment order_10 shop) env order_world in
  fst (get_payment (req_payment_id order_10) shop env w1)
  = Ok (mkPaymentResponse true (Payment_of order_tx))
  /\ fst (get_payment (req_payment_id order_10) shop env w1)
     = fst (get_payment (req_payment_id order_10) shop env order_world)
  /\ List.length (transactions w1) = S (List.length (transactions order_world))
  /\ exists d,
       nth_error (transactions w1) (List.length (transactions order_world))
       = Some d
       /\ pair_query (req_payment_id order_10) shop d = true
       /\ pay_id (pr_payment resp) = tx_id d.
Proof.
  apply (duplicate_payment_is_shadowed (demo_env [] None) order_world order_10
           shop order_tx
           (mkPaymentResponse true (new_payment (demo_env [] None) 4 order_10))
           (exec (create_payment order_10 shop) (demo_env [] None)
              order_world)).
  - vm_compute. reflexivity.
  - vm_compute. reflexivity.
  - reflexivity.
  - reflexivity.
Defined.

Lemma stored_amounts_stay_positive_witness :
  Forall amount_positive
    (transactions
       (exec (serve_all [PostPayment "key-1" order_25;
                         PostPayment "key-1" (mkPaymentRequest 0 "free" None);
                         ListenerTurn])
          (demo_env ["account-1"] (Some 10%float)) order_world)).
Proof.
  apply (stored_amounts_stay_positive
           (demo_env ["account-1"] (Some 10%float))
           [PostPayment "key-1" order_25;
            PostPayment "key-1" (mkPaymentRequest 0 "free" None);
            ListenerTurn] order_world).
  vm_compute. repeat constructor.
Defined.

Lemma tx_signature_is_never_set_witness :
  Forall (fun d => tx_tx_signature d = None)
    (transactions
       (exec (serve_all [ListenerTurn; PostPayment "key-1" order_25])
          (demo_env ["account-1"] (Some 10%float)) order_world)).
Proof.
  apply (tx_signature_is_never_set
           (demo_env ["account-1"] (Some 10%float))
           [ListenerTurn; PostPayment "key-1" order_25] order_world).
  vm_compute. repeat constructor.
Defined.

Lemma wallet_addresses_are_distinct_witness :
  NoDup
    (map tx_wallet_address
       (transactions
          (exec (serve_all [PostPayment "key-1" order_10;
                            PostPayment "key-1" order_25; ListenerTurn])
             (demo_env ["account-1"] (Some 10%float)) shop_world))).
Proof.
  apply (wallet_addresses_are_distinct
           (demo_env ["account-1"] (Some 10%float))
           [PostPayment "key-1" order_10; PostPayment "key-1" order_25;
            ListenerTurn] shop_world).
  - apply demo_env_addresses_never_repeat.
  - reflexivity.
Defined.

Lemma confirmed_at_not_before_created_at_witness :
  Forall
    (fun d => forall c, tx_confirmed_at d = Some c -> (tx_created_at d <= c)%Z)
    (transactions
       (exec (serve_all [PostPayment "key-1" order_10; ListenerTurn])
          (demo_env ["account-1"] (Some 10%float)) shop_world)).
Proof.
  apply (confirmed_at_not_before_created_at
           (demo_env ["account-1"] (Some 10%float))
           [PostPayment "key-1" order_10; ListenerTurn] shop_world).
  - apply demo_env_clock_monotone.
  - reflexivity.
Defined.

Lemma stored_payments_keep_their_request_witness :
  let w' := exec (serve_all [ListenerTurn; PostPayment "key-1" order_25])
              (demo_env ["account-1"] (Some 10%float)) order_world in
  (exists d', nth_error (transactions w') 0 = Some d' /\ same_payment order_tx d')
  /\ List.length (transactions order_world) <= List.length (transactions w').
Proof.
  apply (stored_payments_keep_their_request
           (demo_env ["account-1"] (Some 10%float))
           [ListenerTurn; PostPayment "key-1" order_25] order_world 0 order_tx).
  vm_compute. reflexivity.
Defined.

Lemma payment_ids_are_distinct_witness :
  NoDup
    (map tx_id
       (transactions
          (exec (serve_all [PostPayment "key-1" order_10;
                            PostPayment "key-1" order_10; ListenerTurn])
             (demo_env ["account-1"] (Some 10%float)) shop_world))).
Proof.
  apply (payment_ids_are_distinct
           (demo_env ["account-1"] (Some 10%float))
           [PostPayment "key-1" order_10; PostPayment "key-1" order_10;
            ListenerTurn] shop_world).
  - apply demo_env_collision_free.
  - reflexivity.
  - reflexivity.
Defined.

Lemma failed_reading_is_logged_once_witness :
  (let env := ledger_down (demo_env [] None) in
   let w' := exec (check_payment_received order_tx) env order_world in
   transactions w' = transactions order_world
   /\ merchants w' = merchants order_world
   /\ trace w' =
        EvPrint (check_error_line order_tx (Exception "timed out"))
        :: trace order_world)
  /\ (let env := no_public_key (demo_env [] None) in
      let w' := exec (check_payment_received order_tx) env order_world in
      transactions w' = transactions order_world
      /\ merchants w' = merchants order_world
      /\ trace w' =
           EvPrint (check_error_line order_tx
                      (public_key_error env (tx_wallet_address order_tx)))
           :: trace order_world).
Proof.
  split.
  - apply (failed_reading_is_logged_once (ledger_down (demo_env [] None))
             order_tx order_world (Exception "timed out")).
    apply fails_accounts; reflexivity.
  - apply (failed_reading_is_logged_once (no_public_key (demo_env [] None))
             order_tx order_world).
    apply fails_wallet. reflexivity.
Defined.

Lemma check_of_missing_document_witness :
  let env := demo_env ["account-1"] (Some 10%float) in
  let w' := exec (check_payment_received order_tx) env shop_world in
  transactions w' = transactions shop_world
  /\ posted (trace w') = posted (trace shop_world)
  /\ trace w' =
       EvPrint (check_error_line order_tx
                  (Exception "'NoneType' object is not subscriptable"))
       :: EvNotify None :: trace shop_world.
Proof.
  apply (check_of_missing_document (demo_env ["account-1"] (Some 10%float))
           order_tx shop_world (Balance 10)).
  - reflexivity.
  - exists "account-1", []. repeat split.
  - vm_compute. reflexivity.
  - intros t. reflexivity.
  - reflexivity.
Defined.

Lemma queue_batch : batch queue_world = map queued_tx (seq 0 100).
Proof. vm_compute. reflexivity. Qed.

Lemma queued_tx_never_sufficient (n : nat) :
  n < 100 -> never_sufficient queue_env (queued_tx n).
Proof.
  intros Hn t. simpl.
  destruct (String.eqb_spec (nat_str n) "100") as [Heq | _]; [| exact I].
  exfalso. apply (nat_str_inj n 100) in Heq. lia.
Qed.

Lemma listener_never_gets_past_a_stuck_batch_witness :
  let w' := exec (payment_listener 7) queue_env queue_world in
  (transactions w' = transactions queue_world
   /\ notified (trace w') = notified (trace queue_world)
   /\ posted (trace w') = posted (trace queue_world))
  /\ List.length (batch queue_world) = 100
  /\ nth_error (transactions queue_world) 100 = Some (queued_tx 100)
  /\ tx_status (queued_tx 100) = pending
  /\ observes queue_env 0 (tx_wallet_address (queued_tx 100)) (Balance 10)
  /\ sufficient (Balance 10) (tx_amount (queued_tx 100)) = true.
Proof.
  split.
  - apply (listener_never_gets_past_a_stuck_batch queue_env queue_world 7).
    intros tx Hin. rewrite queue_batch in Hin.
    apply in_map_iff in Hin as (n & <- & Hn). apply in_seq in Hn.
    apply queued_tx_never_sufficient. lia.
  - split; [vm_compute; reflexivity |]. split; [vm_compute; reflexivity |].
    split; [reflexivity |]. split; [| vm_compute; reflexivity].
    exists "account-q100", []. repeat split.
Defined.

Lemma create_merchant_refuses_other_keys_witness :
  create_merchant "shop" "https://shop.example/hook" "guess"
    (demo_env [] None) shop_world
  = (Raise (HTTPException 401 "Invalid admin key"), shop_world).
Proof.
  apply (create_merchant_refuses_other_keys (demo_env [] None) shop_world
           "shop" "https://shop.example/hook" "guess").
  discriminate.
Defined.

Lemma registered_merchant_authenticates_witness :
  let env := demo_env [] None in
  let resp := merchant_response env 0 "cafe" "https://cafe.example/hook" in
  exists k m w2,
    json_get "api_key" (assoc "merchant" resp) = Some (JStr k)
    /\ authenticate_merchant k env
         (exec (create_merchant "cafe" "https://cafe.example/hook" "admin-key")
            env shop_world)
       = (Ok m, w2)
    /\ m_api_key m = k
    /\ json_get "_id" (assoc "merchant" resp)
       = Some (JObjectId (object_id env (4 + tick shop_world)))
    /\ ((forall m0, In m0 (merchants shop_world) -> m_api_key m0 <> k) ->
        m = new_merchant env (tick shop_world) "cafe"
              "https://cafe.example/hook"
        /\ m_name m = "cafe"
        /\ m_webhook_url m = Some "https://cafe.example/hook"
        /\ json_get "merchant_id" (assoc "merchant" resp)
           = Some (JStr (m_merchant_id m))).
Proof.
  apply (registered_merchant_authenticates (demo_env [] None) shop_world
           "cafe" "https://cafe.example/hook" "admin-key"
           (merchant_response (demo_env [] None) 0 "cafe"
              "https://cafe.example/hook")
           (exec (create_merchant "cafe" "https://cafe.example/hook"
                    "admin-key") (demo_env [] None) shop_world)).
  - vm_compute. reflexivity.
  - reflexivity.
Defined.

Lemma confirmed_payment_is_read_back_confirmed_witness :
  let env := demo_env ["account-1"] (Some 10%float) in
  let w' := exec (check_payment_received order_tx) env order_world in
  exists resp,
    fst (get_payment (tx_payment_id order_tx) shop env w') = Ok resp
    /\ pay_id (pr_payment resp) = tx_id order_tx
    /\ pay_amount (pr_payment resp) = tx_amount order_tx
    /\ pay_status (pr_payment resp) = confirmed
    /\ pay_confirmed_at (pr_payment resp)
       = Some (bson_datetime (utcnow env (2 + tick order_world)))
    /\ (bson_datetime (utcnow env (2 + tick order_world))
        <= utcnow env (2 + tick order_world)
        < bson_datetime (utcnow env (2 + tick order_world)) + 1000)%Z.
Proof.
  apply (confirmed_payment_is_read_back_confirmed
           (demo_env ["account-1"] (Some 10%float)) order_world order_tx shop
           (Balance 10)).
  - reflexivity.
  - exists "account-1", []. repeat split.
  - vm_compute. reflexivity.
  - intros t. reflexivity.
  - vm_compute. reflexivity.
  - vm_compute. reflexivity.
Defined.
